(* ===== verification/_CoqProject ===== *)
-Q . S2P
Prelude.v
Cookie.v
HttpRequest.v
HttpFsm.v
HttpParser.v
WsFrame.v
WsConnection.v
Connection.v
WsRuntime.v
Registry.v
Response.v
Mime.v
HttpConnection.v
Server.v
