(* ===== verification/Prelude.v ===== *)
(** * A verification development for basic_ws_https_server

    The repository is a byte-level HTTP(S) server with a one-way
    WebSocket push channel (C++ on boost::asio).  Its parts, leaves
    first, and how they interact:

    - the HTTP parser (src/HTTP/http_parser.cpp, states in
      src/HTTP/http_protocol.h): a finite-state machine fed with raw
      byte chunks by the HTTP connection; it keeps its state between
      chunks and answers [good], [bad] or [indeterminate];
    - the request, response and cookie models (src/HTTP/http_request.cpp,
      http_response.cpp, cookie.cpp): the parser fills a request, the
      connection serialises a response;
    - the HTTP connection (src/HTTP/http_connection.cpp): the
      read -> parse -> dispatch -> write loop and the WebSocket upgrade;
    - the WebSocket frame codec (src/ws/ws_proto_impl.cpp) and the
      push connection (src/ws/ws_connection.cpp) with its bounded FIFO
      send queue and its close-once flag;
    - the server (src/webserver.cpp): two acceptors whose accept loops
      start the HTTP(S) connections, and the registry, two maps from
      connection id to weak handles, used by [WSPush] and [WSClose] and
      filled by the connections' WebSocket upgrades.

    Files, in dependency order (see _CoqProject):

    - [Prelude] (this file): bytes as lists of [Z] in [0, 256), the
      helpers the sources call from outside src/ ([std::stoi] as
      [stoi], [utflower], [lexcmpi] as [lexcmpi_eq], [zeroout],
      [unordered_map::insert] as [map_insert_new]), the hint databases
      [websrv] and [websrv_rw], and the shared list lemmas.
    - [Cookie]: [Module Cookie] models cookie.h and cookie.cpp: the
      [Cookie] record and its constructor, [empty], [toString] (the date
      formatter is a Section variable), [fromString] (the [regex_search]
      loop as a leftmost search [cookie_search], run with fuel) and
      [getInvalidationCookie].  Theorems: the fuel is enough
      ([fromString_fuel_enough], against the fuel-free relation
      [from_string_rel]), the round trip of a [Cookie:] header built
      with [toString], the cookies of tests/cookie_test.cpp.
    - [HttpRequest]: [Module HTTPRequest], the request record of
      http_request.h ([pa::Uri] kept as scheme and text) and
      [getCookie], [isWSUpgrade], [isWSHandshake], [assembleUri] of
      http_request.cpp; examples of the exact [Connection] match and of
      [std::stoi] raising on the version.
    - [HttpFsm]: [Module Fsm] models [HTTPParser::parse_impl] byte per
      byte: the 21 parser states, [is_char], [is_ctl], [is_tspecial],
      [is_digit], the accumulation record [Data], one [step] per input
      byte ([step] holds the request-line cases of the C++ switch,
      [step_message] the header, body and default cases, each with its
      early returns, and [std::stoi] raising on a bad Content-Length),
      and [parse_impl] as a structural fold over the chunk that stops at
      the first [return].  Theorems: the chunk composition law
      ([parse_impl_app]); the well-formedness invariant of the
      reachable parsers that keeps [headers.back()] defined and the
      token / no-control-byte invariant of the accumulated data (rule
      induction on [reachable]); the body completes exactly at
      Content-Length and never with a negative one; examples of the
      version overflow and of the [stoi] exception.
    - [HttpParser]: [Module Parser] models [fill_request], [Reset] and
      [Parse], and the read cycle of [HTTPConnection::do_read]
      ([run_chunks]: a fresh request per read, the parser kept).
      Theorems: chunking invariance, the Host rule, reset and zeroing
      after every returning call, the exception path that skips both,
      first-wins duplicate headers, the URI of an accepted request,
      pipelined bytes dropped.
    - [WsFrame]: [Module WsFrame], [fill_text_frame] and
      [fill_closing_frame] of ws_proto_impl.cpp and the constants of
      ws_protocol.h; a decoder of the header the encoder writes gives
      the round trip; the length-field sizes and byte bounds.
    - [WsConnection]: [Module WsConn], the push connection of
      ws_connection.cpp as a record ([uri_], [id_], [session_id_],
      [closed_], [send_q_]) and every method ([Start], [handle_read],
      [write], [handle_write], [stop], the destructor, both [Forward]s)
      as a function returning the new object and its effects in program
      order: notifications to the [WebServer::ws_on*] hooks, socket
      operations, log lines.
    - [Connection]: [Module Connection], the base class of connection.h
      and connection.cpp: the socket's state, [_cancel], [_shutdown]
      and [_close] (each logs instead of throwing; [close] releases
      the descriptor even on error) and [teardown], the sequence of
      [stop].  The record [TeardownOps] holds the three operations and
      [cpp_ops] the specialisations of connection.cpp; the theorem
      shows that the teardown always closes the socket and logs one
      line per failed call.
    - [WsRuntime]: [Module WsRuntime], one connection inside boost::asio:
      a [World] with the socket, the outstanding read and write, the
      wire, the notifications, and ghost fields for the frames pushed;
      the step relation [wstep] (push, close, read completion, write
      completion, destruction) and [reachable].  The invariant [inv] is
      proved by rule induction and gives: ws_onclose fires once exactly
      when closed, one write in flight and it is the queue's front, the
      queue holds at most 100 frames while open, FIFO delivery, closed
      stays closed, ws_onopen comes first, destruction leaves nothing
      outstanding; and the overflow at the 101st push.

    - [Registry]: [Module Registry], the session registry of
      webserver.cpp: [ws_conns_] and [ws_secure_conns_] as maps from id
      to a handle into a heap of objects (a dead [weak_ptr] is a handle
      missing from the heap), [ws_forward], [WSPush] and [WSClose] (the
      short-circuit [||] over both maps) and [WSAddSession].  They are
      written against the typeclass [Endpoint] (what the registry needs
      of a connection: the two [Forward]s and [closed_]), and
      [ws_endpoint] discharges it with [WsConn.Forward_message] and
      [WsConn.Forward_status].  The abstract contract is a map of live
      sessions [abs] with [spec_forward]; [WSPush_WSClose_refine] is the
      functional refinement, [registry_simulation] the simulation of the
      registry's labelled step relation [rstep] (pushes, closes,
      registrations, objects made, their handlers, objects dying) by
      the abstract [astep] of the same label, with the well-formedness
      invariant [wf] (no id in both maps, no two ids on one object).
    - [Response]: [Module Response], http_response.cpp and the status
      and stock-reply tables of http_protocol.h: [StatusCode],
      [status_str_to_buffer], [stock_reply_str], [stock_reply],
      [setCookie], [to_buffers] (as [to_buffers_in], the order the
      [unordered_map] is walked in being any permutation of its
      entries) and [std::to_string] as [to_string].  Theorems: the
      header block read back by the server's own automaton, every stock
      reply a complete message whose Content-Length is its page,
      [stoi] after [to_string], the second cookie dropped.
    - [Mime]: [Module MIME], the MIME table of http_protocol.h: the
      [std::map] built from its initializer list (of two entries with
      one key the first is kept), [json], [html] and [txt] initialised
      with [at], [augment_content_type] ([std::string::find] as
      [string_find], proved equivalent to occurrence as a sublist) and
      [getContentType].  Lemmas: the keys are distinct, so every entry
      is in the map; static initialisation does not throw; unknown
      extensions get [text/plain]; the charset is added exactly to the
      text types.
    - [HttpConnection]: [Module HttpConn], http_connection.cpp: every
      method and completion handler ([Start], the TLS handshake
      completion, [do_read] and its completion [on_read], [do_write]
      and [on_write], [process_ws_handshake],
      [_generate_ws_handshake_headers], [_create_ws_connection],
      [stop]) returns the new object and its effects in program order;
      the request handler [bridge_] (a record [HTTPRequestHandler] of
      [HandleRequest], of http_request_handler.h, whose result says
      whether it threw), [base64SHA1], the [pauuid] reader and the map
      order are Section variables.  [hstep] is the asio runtime
      around one connection (one rule per completion of the operation
      outstanding, and [hs_release], the destruction of an idle
      connection when the last [shared_ptr] goes, which closes a socket
      no [WSConnection] shares), [hreachable] its reachable worlds, starting from the
      accept handler of webserver.cpp ([hstart_world]).  Theorems: the
      half-duplex invariant the class comment promises, a request
      answered and the next one read (liveness as a two-step run), the
      400 reply, the exception that ends the connection (nothing
      written, then only the destruction that closes the socket), the 101
      response, the unchecked handshake write, and the hand-off: the
      registration [_create_ws_connection] performs, composed with
      [Registry.WSAddSession], adds exactly that session to the
      abstract session map.

    - [Server]: [Module Server], the acceptors of webserver.cpp and
      webserver_params.h: [WebServerParams], the constructor [make],
      [Start], [Stop] (both acceptors closed through one [error_code],
      [close_into]), and the accept handler [on_accept] of both loops
      (its success path the statements [accept_record] and
      [accept_launch]).  [sstep] composes the whole server: accepts,
      [Stop], every connection's [HttpConn.hstep], the upgrade that
      registers a session ([HttpConn.register]; the [uuid_generate] id
      is assumed fresh), the application's [WSPush] / [WSClose], the
      WebSocket objects' handlers and releases.  The invariant [sinv]
      (rule induction on [sreachable]) gives: the accept loops stay
      armed, a closed acceptor starts nothing, and in the composed
      server the registry is well formed and every connection
      half-duplex.

    Bounds and fuel: [Cookie.fromString] runs its search loop with fuel
    [length s + 1]; every match consumes at least two bytes, so the
    fuel is enough.  The parser needs no fuel: it is structural on the
    chunk.  Bytes are unsigned; the C++ [char] is signed, but the tests
    [is_char], [is_ctl], [is_tspecial] and [is_digit] give the same
    answer on a byte and on its signed reading.  The C++ [int]
    arithmetic of the HTTP version is on unbounded [Z], since a signed
    overflow has no defined result: [Fsm.version_overflow] exhibits a
    request line that leaves the [int] range.  Content-Length is the
    [int] [std::stoi] returns (range-checked by [stoi]); the
    Content-Length [to_string] writes reads back for every size up to
    [INT_MAX].  A read brings 1 to [max_buffer_length] = 8192 bytes,
    the size of [buffer_].

    Not modelled: TLS context set-up and certificate loading
    ([setup_ssl], OpenSSL and file-system calls whose only effect on
    the program is [params_.context]), SHA-1 and base64 of the
    handshake, the [uuid_generate] ids and the UUID parser (outside
    src/, parameters), the type aliases of stdhdr.h (declarations
    only), the mutex of the registry (every registry call is one atomic
    step), one request handler per connection (the handler is one
    Section variable shared by the connections of [Server.sstep]),
    the hooks [ws_onopen], [ws_onerror] and [ws_onclose] left unset (they
    are called without a test and assumed set, unlike [ws_onmessageout],
    whose test is modelled), logging beyond
    the lines the theorems mention.  The cookie pattern [[\w-_.]] is
    read with [-] as a literal, as tests/cookie_test.cpp expects; a
    strict ECMAScript reader rejects the range. *)

From stdpp Require Export base list gmap strings.
From Stdlib Require Export ZArith Lia.

Open Scope Z_scope.

(** Bytes: an element of a C++ [std::string] or [char] buffer, as its
    unsigned value. *)
Abbreviation byte := Z.
Abbreviation bytes := (list Z).

Create HintDb websrv.
Create Rewrite HintDb websrv_rw.

(** Exceptions that can escape the modelled C++ code. *)
Inductive exn := invalid_argument | out_of_range | bad_lexical_cast.

#[export] Instance exn_eq_dec : EqDecision exn.
Proof. solve_decision. Defined.

(** ASCII literals as byte lists, for concrete inputs. *)
Definition bytes_of_string (s : string) : bytes :=
  map (fun a => Z.of_nat (Ascii.nat_of_ascii a)) (String.list_ascii_of_string s).

Definition CR : byte := 13.
Definition LF : byte := 10.
Definition SP : byte := 32.
Definition HT : byte := 9.

(** [s.push_back(c)] *)
Definition push_back (s : bytes) (c : byte) : bytes := s ++ [c].

(** [v.back() = f(v.back())] on a vector; on an empty vector the C++
    code would be undefined, the model leaves it unchanged. *)
Fixpoint update_last {A} (f : A -> A) (l : list A) : list A :=
  match l with
  | [] => []
  | [x] => [f x]
  | x :: r => x :: update_last f r
  end.

(** [utflower]: lower-cases ASCII letters, keeps every other byte. *)
Definition lower (c : byte) : byte :=
  if (65 <=? c) && (c <=? 90) then c + 32 else c.
Definition utflower (s : bytes) : bytes := map lower s.

(** [lexcmpi(a, b) == 0]: equality up to ASCII case. *)
Definition lexcmpi_eq (a b : bytes) : bool := bool_decide (utflower a = utflower b).

(** [zeroout(ptr, size)]: every byte of the buffer set to 0. *)
Definition zeroout (buf : bytes) : bytes := map (fun _ => 0) buf.

(** [std::stoi(s)]: skip leading white space, an optional sign, then
    decimal digits; no digit raises [invalid_argument], a value outside
    32-bit [int] raises [out_of_range]; trailing bytes are ignored. *)
Definition is_space (c : byte) : bool := (c =? 32) || ((9 <=? c) && (c <=? 13)).
Definition is_digit (c : byte) : bool := (48 <=? c) && (c <=? 57).

Fixpoint skip_ws (s : bytes) : bytes :=
  match s with
  | c :: r => if is_space c then skip_ws r else s
  | [] => []
  end.

Fixpoint take_digits (s : bytes) : bytes :=
  match s with
  | c :: r => if is_digit c then c :: take_digits r else []
  | [] => []
  end.

Definition digits_value (ds : bytes) : Z :=
  fold_left (fun acc d => acc * 10 + (d - 48)) ds 0.

Definition INT_MIN : Z := -2147483648.
Definition INT_MAX : Z := 2147483647.

Definition stoi (s : bytes) : Z + exn :=
  let s1 := skip_ws s in
  let '(neg, s2) := match s1 with
                    | 45 :: r => (true, r)
                    | 43 :: r => (false, r)
                    | _ => (false, s1)
                    end in
  match take_digits s2 with
  | [] => inr invalid_argument
  | ds =>
      let v := if neg then - digits_value ds else digits_value ds in
      if (INT_MIN <=? v) && (v <=? INT_MAX) then inl v else inr out_of_range
  end.

(** [std::unordered_map::insert] and [std::map::insert]: a key that is
    already present keeps its value. *)
Definition map_insert_new {K V} `{Countable K} (k : K) (v : V) (m : gmap K V) : gmap K V :=
  match m !! k with
  | Some _ => m
  | None => <[k:=v]> m
  end.

(** ** Shared lemmas *)

Lemma lookup_map_insert_new {K V} `{Countable K} (k j : K) (v : V) (m : gmap K V) :
  map_insert_new k v m !! j =
    if decide (k = j) then (match m !! k with Some x => Some x | None => Some v end)
    else m !! j.
Proof.
  unfold map_insert_new. case_decide as Hkj.
  - subst. destruct (m !! j) eqn:E; [done|]. by rewrite lookup_insert_eq.
  - destruct (m !! k); [done|]. by rewrite lookup_insert_ne.
Qed.


Lemma length_update_last {A} (f : A -> A) (l : list A) :
  length (update_last f l) = length l.
Proof. induction l as [|x [|y r] IH]; simpl in *; auto. Qed.

Lemma update_last_app_single {A} (f : A -> A) (l : list A) (x : A) :
  update_last f (l ++ [x]) = l ++ [f x].
Proof.
  induction l as [|y r IH]; [done|].
  simpl. rewrite IH. destruct r; done.
Qed.

Lemma update_last_nil_iff {A} (f : A -> A) (l : list A) :
  update_last f l = [] <-> l = [].
Proof.
  split; [|intros ->; done].
  intros H. destruct l; [done|].
  apply (f_equal length) in H. rewrite length_update_last in H. done.
Qed.

Lemma Forall_update_last {A} (P : A -> Prop) (f : A -> A) (l : list A) :
  (forall x, P x -> P (f x)) -> Forall P l -> Forall P (update_last f l).
Proof.
  intros Hf Hl. induction Hl as [|x [|y r] Hx Hr IH]; simpl; constructor; auto.
Qed.

Lemma Forall_push_back (P : byte -> Prop) (s : bytes) (c : byte) :
  Forall P s -> P c -> Forall P (push_back s c).
Proof. intros. unfold push_back. apply Forall_app; auto. Qed.

Lemma length_push_back (s : bytes) (c : byte) : length (push_back s c) = S (length s).
Proof. unfold push_back. rewrite length_app. simpl. lia. Qed.

Lemma zeroout_all_zero (buf : bytes) : Forall (fun b => b = 0) (zeroout buf).
Proof. unfold zeroout. induction buf; simpl; constructor; auto. Qed.

Lemma length_zeroout (buf : bytes) : length (zeroout buf) = length buf.
Proof. apply length_map. Qed.

Lemma digits_value_app (ds : bytes) (d : byte) :
  digits_value (ds ++ [d]) = digits_value ds * 10 + (d - 48).
Proof. unfold digits_value. by rewrite fold_left_app. Qed.

#[export] Hint Resolve zeroout_all_zero Forall_push_back : websrv.
#[export] Hint Rewrite length_push_back @length_update_last @update_last_app_single length_zeroout
  digits_value_app : websrv_rw.

(** Case analysis on the boolean tests of a goal. *)
Ltac case_bools :=
  repeat match goal with
         | |- context [if ?b then _ else _] =>
             lazymatch b with
             | context [if _ then _ else _] => fail
             | _ => destruct b eqn:?
             end
         end.
