(* ===== verification/Cookie.v ===== *)
(** Cookies (src/HTTP/cookie.h, src/HTTP/cookie.cpp): the [Cookie]
    record, its [Set-Cookie] rendering [toString], the [Cookie:] header
    reader [fromString] and the invalidation cookie.  [fromString] is a
    loop of [std::regex_search] with the pattern
    [([\w-_.]+)=([^;] * )] (star without the space); it is modelled by [cookie_search], the
    leftmost match of that pattern, and a loop with fuel. *)

From S2P Require Import Prelude.

Module Cookie.

(** [struct Cookie]; [expires] is the timestamp with [-1] for the
    session cookie, as the C++ default argument [-1.0]. *)
Record Cookie := mkCookie {
  name : bytes;
  value : bytes;
  path : bytes;
  domain : bytes;
  http_only : bool;
  secure : bool;
  expires : Z
}.

#[global] Instance Cookie_eq_dec : EqDecision Cookie.
Proof. solve_decision. Defined.

(** The constructor [Cookie(n, v)] with its default arguments. *)
Definition make (n v : bytes) : Cookie := mkCookie n v [] [] false false (-1).

(** [Cookie()] *)
Definition default : Cookie := make [] [].

(** [Cookie::empty] *)
Definition empty (c : Cookie) : bool :=
  bool_decide (name c = []) || bool_decide (value c = []).

Section ToString.
(** [PADateTime(expires).FormatDateTime(web_gmt_format)]: date
    formatting lives outside the repository. *)
Variable format_gmt : Z -> bytes.

(** [Cookie::toString] *)
Definition toString (c : Cookie) : bytes :=
  if bool_decide (name c = []) || bool_decide (value c = []) then []
  else
    name c ++ bytes_of_string "=" ++ value c
    ++ (if bool_decide (path c = []) then [] else bytes_of_string "; Path=" ++ path c)
    ++ (if bool_decide (domain c = []) then [] else bytes_of_string "; Domain=" ++ domain c)
    ++ (if http_only c then bytes_of_string "; HttpOnly" else [])
    ++ (if secure c then bytes_of_string "; Secure" else [])
    ++ (if bool_decide (expires c = -1) then []
        else bytes_of_string "; Expires=" ++ format_gmt (expires c)).
End ToString.

(** The bracket [[\w-_.]]: letters, digits, [_], [-] and [.]. *)
Definition is_name_char (c : byte) : bool :=
  ((65 <=? c) && (c <=? 90)) || ((97 <=? c) && (c <=? 122))
  || ((48 <=? c) && (c <=? 57)) || (c =? 95) || (c =? 45) || (c =? 46).

Fixpoint take_name (s : bytes) : bytes :=
  match s with
  | c :: r => if is_name_char c then c :: take_name r else []
  | [] => []
  end.

Fixpoint drop_name (s : bytes) : bytes :=
  match s with
  | c :: r => if is_name_char c then drop_name r else s
  | [] => []
  end.

(** The value group: every byte up to the first [;]. *)
Fixpoint take_value (s : bytes) : bytes :=
  match s with
  | c :: r => if c =? 59 then [] else c :: take_value r
  | [] => []
  end.

Fixpoint drop_value (s : bytes) : bytes :=
  match s with
  | c :: r => if c =? 59 then s else drop_value r
  | [] => []
  end.

(** The literal [=] of the pattern: what follows it, if it is there. *)
Definition after_eq (s : bytes) : option bytes :=
  match s with
  | c :: tl => if c =? 61 then Some tl else None
  | [] => None
  end.

(** [std::regex_search(s, m, cookie_regex)]: the leftmost start where
    a maximal run of name bytes is followed by [=]; the two groups and
    [m.suffix()]. *)
Fixpoint cookie_search (s : bytes) : option (bytes * bytes * bytes) :=
  match s with
  | [] => None
  | c :: r =>
      if is_name_char c then
        match after_eq (drop_name s) with
        | Some tl => Some (take_name s, take_value tl, drop_value tl)
        | None => cookie_search r
        end
      else cookie_search r
  end.

(** The [while (std::regex_search ...)] loop of [Cookie::fromString]. *)
Fixpoint fromString_loop (fuel : nat) (s : bytes) : list Cookie :=
  match fuel with
  | O => []
  | S f =>
      match cookie_search s with
      | Some (n, v, suf) => make n v :: fromString_loop f suf
      | None => []
      end
  end.

(** [Cookie::fromString] *)
Definition fromString (s : bytes) : list Cookie := fromString_loop (S (length s)) s.

(** [Cookie::is_pauuid]: whether constructing a [pauuid] from the value
    (a boost lexical cast, given as [pauuid_parse]) does not throw. *)
Definition is_pauuid (pauuid_parse : bytes -> option Z) (c : Cookie) : bool :=
  match pauuid_parse (value c) with Some _ => true | None => false end.

(** [Cookie::getInvalidationCookie] *)
Definition getInvalidationCookie (n : bytes) : Cookie :=
  mkCookie n (bytes_of_string "#DELETED#") [] [] false false 0.

(** The loop without fuel, as a relation: what [fromString] must return. *)
Inductive from_string_rel : bytes -> list Cookie -> Prop :=
| fsr_done s : cookie_search s = None -> from_string_rel s []
| fsr_next s n v suf l :
    cookie_search s = Some (n, v, suf) -> from_string_rel suf l ->
    from_string_rel s (make n v :: l).

(** ** Lemmas on the search *)

Lemma length_drop_name s : (length (drop_name s) <= length s)%nat.
Proof. induction s as [|c r IH]; simpl; [lia|]. destruct (is_name_char c); simpl; lia. Qed.

Lemma length_drop_value s : (length (drop_value s) <= length s)%nat.
Proof. induction s as [|c r IH]; simpl; [lia|]. destruct (c =? 59); simpl; lia. Qed.

(** A match consumes the name and the [=]: at least two bytes. *)
Lemma cookie_search_shrinks s n v suf :
  cookie_search s = Some (n, v, suf) -> (length suf + 2 <= length s)%nat.
Proof.
  induction s as [|c r IH]; simpl; [done|].
  destruct (is_name_char c) eqn:Hc; [|intros H; specialize (IH H); lia].
  pose proof (length_drop_name r) as Hl.
  destruct (drop_name r) as [|d tl]; simpl; [intros H; specialize (IH H); lia|].
  destruct (d =? 61); [|intros H; specialize (IH H); lia].
  intros [= _ _ <-]. pose proof (length_drop_value tl). simpl in Hl. lia.
Qed.

Lemma fromString_loop_rel fuel s :
  (length s < fuel)%nat -> from_string_rel s (fromString_loop fuel s).
Proof.
  revert s. induction fuel as [|f IH]; intros s Hf; [lia|].
  simpl. destruct (cookie_search s) as [[[n v] suf]|] eqn:E.
  - apply fsr_next with suf; [done|]. apply IH.
    apply cookie_search_shrinks in E. lia.
  - by constructor.
Qed.

Lemma from_string_rel_det s l1 l2 :
  from_string_rel s l1 -> from_string_rel s l2 -> l1 = l2.
Proof.
  intros H1. revert l2. induction H1 as [s E|s n v suf l E _ IH]; intros l2 H2;
    inversion H2; subst; congruence || (rewrite E in *; simplify_eq; f_equal; auto).
Qed.

Lemma cookie_search_skip c s :
  is_name_char c = false -> cookie_search (c :: s) = cookie_search s.
Proof. intros H. simpl. by rewrite H. Qed.

Lemma take_name_app n rest :
  Forall (fun c => is_name_char c = true) n ->
  (forall c r, rest = c :: r -> is_name_char c = false) ->
  take_name (n ++ rest) = n /\ drop_name (n ++ rest) = rest.
Proof.
  intros Hn Hr. induction Hn as [|c n Hc _ IH]; simpl.
  - destruct rest as [|c r]; [done|]. simpl. by rewrite (Hr c r eq_refl).
  - rewrite Hc. destruct IH as [-> ->]. done.
Qed.

Lemma take_value_app v rest :
  Forall (fun c => c <> 59) v ->
  (forall c r, rest = c :: r -> c = 59) ->
  take_value (v ++ rest) = v /\ drop_value (v ++ rest) = rest.
Proof.
  intros Hv Hr. induction Hv as [|c v Hc _ IH]; simpl.
  - destruct rest as [|c r]; [done|]. simpl. by rewrite (Hr c r eq_refl).
  - destruct (Z.eqb_spec c 59); [done|]. destruct IH as [-> ->]. done.
Qed.

(** A whole [name=value] pair at the head of the text is the leftmost
    match, when the text after the value is empty or starts with [;]. *)
Lemma cookie_search_pair n v rest :
  n <> [] -> Forall (fun c => is_name_char c = true) n -> Forall (fun c => c <> 59) v ->
  (forall c r, rest = c :: r -> c = 59) ->
  cookie_search (n ++ 61 :: v ++ rest) = Some (n, v, rest).
Proof.
  intros Hne Hn Hv Hr. destruct n as [|c n']; [done|].
  pose proof (take_name_app (c :: n') (61 :: v ++ rest) Hn) as [Ht Hd];
    [by intros ? ? [= <- _]|].
  inversion Hn as [|? ? Hc _]; subst. cbn [app] in Ht, Hd |- *.
  cbn [cookie_search]. rewrite Hc, Hd. cbn [after_eq Z.eqb Pos.eqb]. rewrite Ht.
  destruct (take_value_app v rest Hv Hr) as [-> ->]. done.
Qed.

(** The separator [; ] is skipped by the search. *)
Lemma cookie_search_sep s : cookie_search (bytes_of_string "; " ++ s) = cookie_search s.
Proof. reflexivity. Qed.

#[global] Hint Resolve cookie_search_shrinks fromString_loop_rel : websrv.

(** ** The [Cookie:] header a client sends back *)

(** The cookies rendered by [toString] and joined with [; ]. *)
Fixpoint cookie_header (format_gmt : Z -> bytes) (cs : list Cookie) : bytes :=
  match cs with
  | [] => []
  | [c] => toString format_gmt c
  | c :: r => toString format_gmt c ++ bytes_of_string "; " ++ cookie_header format_gmt r
  end.

Lemma cookie_header_cons f c c' r :
  cookie_header f (c :: c' :: r) = toString f c ++ bytes_of_string "; " ++ cookie_header f (c' :: r).
Proof. reflexivity. Qed.

(** The cookies that survive the trip: session cookies without
    attributes, a non-empty name of [[\w-_.]] bytes and a non-empty
    value without [;]. *)
Definition plain (c : Cookie) : Prop :=
  c = make (name c) (value c) /\ name c <> [] /\ value c <> []
  /\ Forall (fun b => is_name_char b = true) (name c) /\ Forall (fun b => b <> 59) (value c).

Lemma toString_plain f c : plain c -> toString f c = name c ++ 61 :: value c.
Proof.
  intros (Hc & Hn & Hv & _). rewrite Hc. unfold toString. cbn [name value path domain
    http_only secure expires make]. rewrite !bool_decide_false by done.
  rewrite !bool_decide_true by done. by rewrite app_nil_r.
Qed.

(** *** Claims *)

(** C36 (termination): the fuel [length s + 1] is enough: [fromString s]
    is the list the unbounded [while (regex_search ...)] loop builds, and
    the only one. *)
Theorem fromString_fuel_enough s l : fromString s = l <-> from_string_rel s l.
Proof.
  split; [intros <-; apply fromString_loop_rel; lia|].
  intros H. eapply from_string_rel_det; [apply fromString_loop_rel; lia|exact H].
Qed.

(** C37 (roundtrip): reading back the [Cookie:] header made of plain
    cookies rendered by [toString] and joined with [; ] gives the same
    cookies, in order. *)
Theorem fromString_cookie_header f cs :
  Forall plain cs -> fromString (cookie_header f cs) = cs.
Proof.
  intros Hcs. apply fromString_fuel_enough.
  induction Hcs as [|c cs Hc _ IH]; [by constructor|].
  pose proof Hc as (Heq & Hn & _ & Hnc & Hvc).
  destruct cs as [|c' cs'];
    [cbn [cookie_header]|rewrite (cookie_header_cons f c c' cs')];
    rewrite toString_plain by done; rewrite <- ?app_assoc.
  - rewrite Heq at 3. apply fsr_next with []; [|done].
    pose proof (cookie_search_pair (name c) (value c) [] Hn Hnc Hvc) as E.
    rewrite app_nil_r in E. by apply E.
  - rewrite Heq at 3. apply fsr_next with (bytes_of_string "; " ++ cookie_header f (c' :: cs')).
    + apply cookie_search_pair; [done..|by intros ? ? [= <- _]].
    + inversion IH; subst. econstructor; [|done]. by rewrite cookie_search_sep.
Qed.

(** *** Concrete cookies *)

(** The header of [tests/cookie_test.cpp] ([cookies_from_string]). *)
Definition test_header : bytes :=
  bytes_of_string ("CP=H2; WMF-Last-Access=09-Mar-2018; WMF-Last-Access-Global=09-Mar-2018; "
    ++ "GeoIP=RU:MOW:Moscow:55.75:37.62:v4; Some.Var.1=42; Another_Var_2=!@#$%^&*()").

(** The six cookies [cookies_from_string] asserts, names
    and values, in order. *)
Example fromString_test_header :
  fromString test_header =
    map (fun nv => make (bytes_of_string nv.1) (bytes_of_string nv.2))
      [("CP", "H2"); ("WMF-Last-Access", "09-Mar-2018");
       ("WMF-Last-Access-Global", "09-Mar-2018"); ("GeoIP", "RU:MOW:Moscow:55.75:37.62:v4");
       ("Some.Var.1", "42"); ("Another_Var_2", "!@#$%^&*()")].
Proof. vm_compute. reflexivity. Qed.

Definition session_cookies : list Cookie :=
  [make (bytes_of_string "sid") (bytes_of_string "a1-b2");
   make (bytes_of_string "theme") (bytes_of_string "dark mode")].

Lemma fromString_cookie_header_witness :
  Forall plain session_cookies
  /\ fromString (cookie_header (fun _ => []) session_cookies) = session_cookies.
Proof.
  assert (Forall plain session_cookies) as H.
  { repeat constructor; vm_compute; try discriminate; try reflexivity;
      repeat constructor; discriminate. }
  split; [exact H|]. exact (fromString_cookie_header (fun _ => []) session_cookies H).
Defined.

End Cookie.
