(* ===== verification/HttpRequest.v ===== *)
(** The parsed request (src/HTTP/http_request.h, http_request.cpp):
    the [HTTPRequest] record with its header and cookie maps, and the
    helpers [getCookie], [isWSUpgrade], [isWSHandshake] and
    [assembleUri].  [std::unordered_map] is a [gmap] keyed by bytes; the
    [pa::Uri] the code builds from a string (a class outside the
    repository) is kept as its scheme and its full text. *)

From S2P Require Import Prelude Cookie.

Module HTTPRequest.

(** [pa::Uri]: the scheme and the text it was built from. *)
Record Uri := mkUri { scheme : bytes; uri_text : bytes }.

Definition Uri_default : Uri := mkUri [] [].

Record t := mkRequest {
  method : bytes;
  http_version_major : Z;
  http_version_minor : Z;
  is_http : bool;
  headers : gmap bytes bytes;
  cookies : gmap bytes Cookie.Cookie;
  content : bytes;
  origin : bytes;
  uri : Uri
}.

(** [HTTPRequest()] *)
Definition empty_request : t := mkRequest [] 0 0 true ∅ ∅ [] [] Uri_default.

Definition set_headers (r : t) (h : gmap bytes bytes) : t :=
  mkRequest (method r) (http_version_major r) (http_version_minor r) (is_http r)
    h (cookies r) (content r) (origin r) (uri r).
Definition set_cookies (r : t) (c : gmap bytes Cookie.Cookie) : t :=
  mkRequest (method r) (http_version_major r) (http_version_minor r) (is_http r)
    (headers r) c (content r) (origin r) (uri r).
Definition set_content (r : t) (c : bytes) : t :=
  mkRequest (method r) (http_version_major r) (http_version_minor r) (is_http r)
    (headers r) (cookies r) c (origin r) (uri r).
Definition set_uri (r : t) (u : Uri) : t :=
  mkRequest (method r) (http_version_major r) (http_version_minor r) (is_http r)
    (headers r) (cookies r) (content r) (origin r) u.
Definition set_line (r : t) (m : bytes) (maj mnr : Z) : t :=
  mkRequest m maj mnr (is_http r) (headers r) (cookies r) (content r) (origin r) (uri r).

(** Header names and values of [Schema::Header::WS] and [Schema::URI]. *)
Definition h_upgrade := bytes_of_string "upgrade".
Definition h_connection := bytes_of_string "connection".
Definition h_sec_websocket_key := bytes_of_string "sec-websocket-key".
Definition h_sec_websocket_version := bytes_of_string "sec-websocket-version".
Definition h_host := bytes_of_string "Host".
Definition v_websocket := bytes_of_string "websocket".
Definition v_upgrade := bytes_of_string "Upgrade".
Definition v_keep_alive_upgrade := bytes_of_string "keep-alive, Upgrade".
Definition HTTP_PROTO := bytes_of_string "http".
Definition HTTPS_PROTO := bytes_of_string "https".
Definition WS_PROTO := bytes_of_string "ws".
Definition WSS_PROTO := bytes_of_string "wss".
Definition PROTO_URLPOSTFIX := bytes_of_string "://".

(** [HTTPRequest::getCookie] *)
Definition getCookie (r : t) (n : bytes) : Cookie.Cookie :=
  match cookies r !! n with
  | Some c => c
  | None => Cookie.default
  end.

(** [HTTPRequest::isWSUpgrade] *)
Definition isWSUpgrade (r : t) : bool :=
  match headers r !! h_upgrade, headers r !! h_connection with
  | Some up, Some conn =>
      lexcmpi_eq up v_websocket
      && (lexcmpi_eq conn v_upgrade || lexcmpi_eq conn v_keep_alive_upgrade)
  | _, _ => false
  end.

(** [HTTPRequest::isWSHandshake]; [std::stoi] on the version may raise. *)
Definition isWSHandshake (r : t) : bool + exn :=
  if negb (isWSUpgrade r)
     || negb (bool_decide (scheme (uri r) = WS_PROTO) || bool_decide (scheme (uri r) = WSS_PROTO))
  then inl false
  else
    match headers r !! h_sec_websocket_key, headers r !! h_sec_websocket_version with
    | Some key, Some ver =>
        if bool_decide (key = []) then inl false
        else match stoi ver with
             | inl v => inl (13 <=? v)
             | inr e => inr e
             end
    | _, _ => inl false
    end.

(** The scheme [assembleUri] writes. *)
Definition uri_scheme (r : t) : bytes :=
  if isWSUpgrade r then (if is_http r then WS_PROTO else WSS_PROTO)
  else (if is_http r then HTTP_PROTO else HTTPS_PROTO).

(** [HTTPRequest::assembleUri]; [headers.at(host)] raises
    [out_of_range] when there is no [host] header. *)
Definition assembleUri (r : t) (uri_path_fragment : bytes) : t + exn :=
  match headers r !! utflower h_host with
  | Some host =>
      let sch := uri_scheme r in
      inl (set_uri r (mkUri sch (sch ++ PROTO_URLPOSTFIX ++ host ++ uri_path_fragment)))
  | None => inr out_of_range
  end.

(** ** Lemmas *)

Lemma isWSUpgrade_set_uri r u : isWSUpgrade (set_uri r u) = isWSUpgrade r.
Proof. reflexivity. Qed.

Lemma uri_scheme_set_uri r u : uri_scheme (set_uri r u) = uri_scheme r.
Proof. reflexivity. Qed.

(** The scheme [assembleUri] writes is a WebSocket one exactly for an
    upgrade request. *)
Lemma uri_scheme_ws r :
  uri_scheme r = WS_PROTO \/ uri_scheme r = WSS_PROTO <-> isWSUpgrade r = true.
Proof.
  unfold uri_scheme. destruct (isWSUpgrade r), (is_http r);
    split; intros H; try done; try tauto; destruct H as [H|H]; vm_compute in H; discriminate.
Qed.

Lemma assembleUri_inl r f r' :
  assembleUri r f = inl r' ->
  exists host, headers r !! utflower h_host = Some host
    /\ r' = set_uri r (mkUri (uri_scheme r) (uri_scheme r ++ PROTO_URLPOSTFIX ++ host ++ f)).
Proof. unfold assembleUri. destruct (headers r !! _); intros [=]; eauto. Qed.

(** *** Concrete requests *)

(** A request as [fill_request] leaves it, with the given headers. *)
Definition with_headers (scheme : bytes) (hs : list (bytes * bytes)) : t :=
  set_uri (set_headers empty_request (list_to_map hs))
    (mkUri scheme (scheme ++ PROTO_URLPOSTFIX ++ bytes_of_string "h/")).

Definition upgrade_headers (conn ver : string) : list (bytes * bytes) :=
  [(h_upgrade, bytes_of_string "WebSocket"); (h_connection, bytes_of_string conn);
   (h_sec_websocket_key, bytes_of_string "dGhlIHNhbXBsZSBub25jZQ==");
   (h_sec_websocket_version, bytes_of_string ver)].

(** [isWSUpgrade] compares the whole [Connection] value,
    case-insensitively, with [Upgrade] or [keep-alive, Upgrade]: the
    value [Upgrade, keep-alive], legal and sent by clients, is not an
    upgrade, whereas the spec asks that the header contain [Upgrade]. *)
Example isWSUpgrade_exact_connection :
  isWSUpgrade (with_headers WS_PROTO (upgrade_headers "upgrade" "13")) = true
  /\ isWSUpgrade (with_headers WS_PROTO (upgrade_headers "keep-alive, upgrade" "13")) = true
  /\ isWSUpgrade (with_headers WS_PROTO (upgrade_headers "Upgrade, keep-alive" "13")) = false.
Proof. vm_compute. repeat split. Qed.

(** [isWSHandshake] reads [Sec-WebSocket-Version] with
    [std::stoi], which raises [invalid_argument] on a value that is not a
    number, out of [do_read]'s completion handler; a version with a
    numeric prefix passes. *)
Example isWSHandshake_version_raises :
  isWSHandshake (with_headers WS_PROTO (upgrade_headers "Upgrade" "thirteen")) = inr invalid_argument
  /\ isWSHandshake (with_headers WS_PROTO (upgrade_headers "Upgrade" "13abc")) = inl true
  /\ isWSHandshake (with_headers WS_PROTO (upgrade_headers "Upgrade" "8")) = inl false
  /\ isWSHandshake (with_headers HTTP_PROTO (upgrade_headers "Upgrade" "13")) = inl false.
Proof. vm_compute. repeat split. Qed.

End HTTPRequest.
