(* ===== verification/HttpFsm.v ===== *)
(** The parser automaton (src/HTTP/http_parser.cpp, [parse_impl] and
    the character classes; the states are [Schema::ParserState] of
    src/HTTP/http_protocol.h).  A parser is its state and its
    accumulation record [Data]; [step] is the body of the [while] loop
    for one input byte, [parse_impl] the loop over a chunk.  The loop
    leaves at the first [return]: the bytes after that one are never
    looked at, and [parse_impl] hands them back to make that visible. *)

From S2P Require Import Prelude.

Module Fsm.

(** [enum class ParserState] *)
Module ParserState.
Inductive t :=
| method_start | method | uri
| http_version_h | http_version_t_1 | http_version_t_2 | http_version_p
| http_version_slash | http_version_major_start | http_version_major
| http_version_minor_start | http_version_minor | expecting_newline_1
| header_line_start | header_lws | header_name | space_before_header_value
| header_value | expecting_newline_2 | expecting_newline_3 | body.
End ParserState.

#[global] Instance ParserState_eq_dec : EqDecision ParserState.t.
Proof. solve_decision. Defined.

(** [enum class Result] *)
Inductive Result := good | bad | indeterminate.

#[global] Instance Result_eq_dec : EqDecision Result.
Proof. solve_decision. Defined.

(** [struct HTTPParser::Data]; [headers] in arrival order. *)
Record Data := mkData {
  headers : list (bytes * bytes);
  method : bytes;
  uri : bytes;
  content : bytes;
  http_version_major : Z;
  http_version_minor : Z;
  content_length : Z
}.

(** [Data()] *)
Definition Data0 : Data := mkData [] [] [] [] 0 0 0.

Record HTTPParser := mkParser { state_ : ParserState.t; data_ : Data }.

(** [HTTPParser::HTTPParser()] *)
Definition init : HTTPParser := mkParser ParserState.method_start Data0.

(** The updates the loop makes to [data_]. *)
Definition push_method (d : Data) (c : byte) : Data :=
  mkData (headers d) (push_back (method d) c) (uri d) (content d)
    (http_version_major d) (http_version_minor d) (content_length d).
Definition push_uri (d : Data) (c : byte) : Data :=
  mkData (headers d) (method d) (push_back (uri d) c) (content d)
    (http_version_major d) (http_version_minor d) (content_length d).
Definition push_content (d : Data) (c : byte) : Data :=
  mkData (headers d) (method d) (uri d) (push_back (content d) c)
    (http_version_major d) (http_version_minor d) (content_length d).
Definition acc_major (d : Data) (c : byte) : Data :=
  mkData (headers d) (method d) (uri d) (content d)
    (http_version_major d * 10 + (c - 48)) (http_version_minor d) (content_length d).
Definition acc_minor (d : Data) (c : byte) : Data :=
  mkData (headers d) (method d) (uri d) (content d)
    (http_version_major d) (http_version_minor d * 10 + (c - 48)) (content_length d).
Definition set_content_length (d : Data) (n : Z) : Data :=
  mkData (headers d) (method d) (uri d) (content d)
    (http_version_major d) (http_version_minor d) n.
Definition new_header (d : Data) (c : byte) : Data :=
  mkData (headers d ++ [([c], [])]) (method d) (uri d) (content d)
    (http_version_major d) (http_version_minor d) (content_length d).
Definition push_header_name (d : Data) (c : byte) : Data :=
  mkData (update_last (fun h => (push_back h.1 c, h.2)) (headers d)) (method d) (uri d)
    (content d) (http_version_major d) (http_version_minor d) (content_length d).
Definition push_header_value (d : Data) (c : byte) : Data :=
  mkData (update_last (fun h => (h.1, push_back h.2 c)) (headers d)) (method d) (uri d)
    (content d) (http_version_major d) (http_version_minor d) (content_length d).

(** [HTTPParser::is_char], [is_ctl], [is_tspecial]; [is_digit] is the
    Prelude's. *)
Definition is_char (c : byte) : bool := (0 <=? c) && (c <=? 127).
Definition is_ctl (c : byte) : bool := ((0 <=? c) && (c <=? 31)) || (c =? 127).
Definition tspecials : bytes :=
  [40; 41; 60; 62; 64; 44; 59; 58; 92; 34; 47; 91; 93; 63; 61; 123; 125; 32; 9].
Definition is_tspecial (c : byte) : bool := existsb (Z.eqb c) tspecials.

(** The token test of the method and header-name states. *)
Definition not_token (c : byte) : bool := negb (is_char c) || is_ctl c || is_tspecial c.

(** The [for] loop of [expecting_newline_3]: the value of the first
    header whose name is [Content-Length] up to case. *)
Fixpoint find_content_length (hs : list (bytes * bytes)) : option bytes :=
  match hs with
  | [] => None
  | (n, v) :: r =>
      if lexcmpi_eq n (bytes_of_string "Content-Length") then Some v
      else find_content_length r
  end.

(** What one pass of the loop body does: go on with a new parser,
    [return] a result (the parser as the [return] leaves it), or let
    [std::stoi] raise. *)
Inductive StepOut :=
| Next (p : HTTPParser)
| Stop (r : Result) (p : HTTPParser)
| Throw (e : exn) (p : HTTPParser).

Section Step.
Import ParserState.

(** The cases of the [switch (state_)] for the header section and the
    body; [default: return Result::bad] for any other state. *)
Definition step_message (p : HTTPParser) (input : byte) : StepOut :=
  let d := data_ p in
  let go s d' := Next (mkParser s d') in
  match state_ p with
  | header_line_start =>
      if input =? 13 then go expecting_newline_3 d
      else if negb (bool_decide (headers d = [])) && ((input =? 32) || (input =? 9))
      then go header_lws d
      else if not_token input then Stop bad p
      else go header_name (new_header d input)
  | header_lws =>
      if input =? 13 then go expecting_newline_2 d
      else if (input =? 32) || (input =? 9) then go header_lws d
      else if is_ctl input then Stop bad p
      else go header_value (push_header_value d input)
  | header_name =>
      if input =? 58 then go space_before_header_value d
      else if not_token input then Stop bad p
      else go header_name (push_header_name d input)
  | space_before_header_value =>
      if input =? 32 then go header_value d else Stop bad p
  | header_value =>
      if input =? 13 then go expecting_newline_2 d
      else if is_ctl input then Stop bad p
      else go header_value (push_header_value d input)
  | expecting_newline_2 => if input =? 10 then go header_line_start d else Stop bad p
  | expecting_newline_3 =>
      if input =? 10 then
        let d' := match find_content_length (headers d) with
                  | Some v => match stoi v with
                              | inl n => inl (set_content_length d n)
                              | inr e => inr e
                              end
                  | None => inl d
                  end in
        match d' with
        | inr e => Throw e (mkParser body d)
        | inl d' =>
            if content_length d' =? 0 then Stop good (mkParser body d')
            else go body d'
        end
      else Stop bad p
  | body =>
      let d' := push_content d input in
      if Z.of_nat (length (content d')) =? content_length d' then Stop good (mkParser body d')
      else go body d'
  | _ => Stop bad p
  end.

(** One iteration of the [switch (state_)] on the byte [input]: the
    cases of the request line here, the others in [step_message]. *)
Definition step (p : HTTPParser) (input : byte) : StepOut :=
  let d := data_ p in
  let go s d' := Next (mkParser s d') in
  match state_ p with
  | method_start =>
      if not_token input then Stop bad p else go method (push_method d input)
  | method =>
      if input =? 32 then go uri d
      else if not_token input then Stop bad p
      else go method (push_method d input)
  | uri =>
      if input =? 32 then go http_version_h d
      else if is_ctl input then Stop bad p
      else go uri (push_uri d input)
  | http_version_h => if input =? 72 then go http_version_t_1 d else Stop bad p
  | http_version_t_1 => if input =? 84 then go http_version_t_2 d else Stop bad p
  | http_version_t_2 => if input =? 84 then go http_version_p d else Stop bad p
  | http_version_p => if input =? 80 then go http_version_slash d else Stop bad p
  | http_version_slash => if input =? 47 then go http_version_major_start d else Stop bad p
  | http_version_major_start =>
      if is_digit input then go http_version_major (acc_major d input) else Stop bad p
  | http_version_major =>
      if input =? 46 then go http_version_minor_start d
      else if is_digit input then go http_version_major (acc_major d input)
      else Stop bad p
  | http_version_minor_start =>
      if is_digit input then go http_version_minor (acc_minor d input) else Stop bad p
  | http_version_minor =>
      if input =? 13 then go expecting_newline_1 d
      else if is_digit input then go http_version_minor (acc_minor d input)
      else Stop bad p
  | expecting_newline_1 => if input =? 10 then go header_line_start d else Stop bad p
  | _ => step_message p input
  end.

End Step.

(** [HTTPParser::parse_impl(begin, end)]: the result, the parser, and
    the bytes of the chunk the loop did not reach. *)
Fixpoint parse_impl (p : HTTPParser) (input : bytes) : (Result + exn) * HTTPParser * bytes :=
  match input with
  | [] => (inl indeterminate, p, [])
  | c :: rest =>
      match step p c with
      | Next p' => parse_impl p' rest
      | Stop r p' => (inl r, p', rest)
      | Throw e p' => (inr e, p', rest)
      end
  end.

(** ** Properties of the automaton *)

(** The parsers the connection can hold: the initial one (also what
    [Reset] restores) and whatever a byte leads to without a [return]. *)
Inductive reachable : HTTPParser -> Prop :=
| reach_init : reachable init
| reach_step p c p' : reachable p -> step p c = Next p' -> reachable p'.

(** Every byte of the method and of the header names is a token byte;
    the URI and the header values hold no control byte. *)
Definition data_ok (d : Data) : Prop :=
  Forall (fun c => not_token c = false) (method d)
  /\ Forall (fun c => is_ctl c = false) (uri d)
  /\ Forall (fun h => Forall (fun c => not_token c = false) h.1
                      /\ Forall (fun c => is_ctl c = false) h.2) (headers d).

Section Shapes.
Import ParserState.

(** The states whose byte handling writes to [headers.back()]. *)
Definition uses_back (s : ParserState.t) : bool :=
  match s with
  | header_lws | header_name | header_value => true
  | _ => false
  end.

(** Well-formedness: in the states reached after a header was started,
    the header vector is not empty. *)
Definition wf (p : HTTPParser) : Prop :=
  match state_ p with
  | header_lws | header_name | space_before_header_value | header_value
  | expecting_newline_2 => headers (data_ p) <> []
  | _ => True
  end.

End Shapes.

Lemma step_not_indeterminate p c r p' : step p c = Stop r p' -> r <> indeterminate.
Proof.
  destruct p as [s d]; unfold step, step_message; destruct s; simpl;
    repeat case_match; intros; simplify_eq; done.
Qed.

(** Chunk composition: running on [xs ++ ys] is running on [xs], then,
    if that needed more bytes, on [ys]; a terminal result on [xs] leaves
    [ys] untouched. *)
Lemma parse_impl_app p xs ys :
  parse_impl p (xs ++ ys) =
    match parse_impl p xs with
    | (inl indeterminate, p', _) => parse_impl p' ys
    | (r, p', rest) => (r, p', rest ++ ys)
    end.
Proof.
  revert p. induction xs as [|c xs IH]; intros p; simpl; [done|].
  destruct (step p c) as [p'|r p'|e p'] eqn:E; [apply IH| |done].
  pose proof (step_not_indeterminate _ _ _ _ E). by destruct r.
Qed.

(** A run that needs more bytes has read the whole chunk. *)
Lemma parse_impl_indeterminate_rest p xs p' rest :
  parse_impl p xs = (inl indeterminate, p', rest) -> rest = [].
Proof.
  revert p. induction xs as [|c xs IH]; intros p; simpl; [congruence|].
  destruct (step p c) eqn:E; [apply IH| |done].
  intros [= Hr _ _]. subst. by apply step_not_indeterminate in E.
Qed.

Lemma parse_impl_reachable p xs p' rest :
  reachable p -> parse_impl p xs = (inl indeterminate, p', rest) -> reachable p'.
Proof.
  revert p. induction xs as [|c xs IH]; intros p Hp; simpl; [congruence|].
  destruct (step p c) eqn:E; [|intros [= Hr _ _]; subst; by apply step_not_indeterminate in E|done].
  apply IH. by econstructor.
Qed.

Lemma step_wf p c p' : wf p -> step p c = Next p' -> wf p'.
Proof.
  destruct p as [s d]; unfold step, step_message, wf; destruct s; simpl; intros Hwf H;
    repeat case_match; simplify_eq; simpl; auto;
    try (rewrite ?update_last_nil_iff; done);
    try (unfold new_header; simpl; by destruct (headers d)).
  all: destruct (headers d); done.
Qed.

Lemma reachable_wf p : reachable p -> wf p.
Proof. induction 1; [done|]. by eapply step_wf. Qed.

Lemma step_data_ok p c p' : data_ok (data_ p) -> step p c = Next p' -> data_ok (data_ p').
Proof.
  destruct p as [s d]; unfold step, step_message; destruct s; simpl; intros (Hm & Hu & Hh) H;
    repeat case_match; simplify_eq; simpl; repeat split; auto with websrv;
    try (apply Forall_update_last; [intros [n v] [Hn Hv]; simpl; split|]; auto with websrv);
    apply Forall_app; split; auto; repeat constructor; simpl; auto.
Qed.

Lemma reachable_data_ok_aux p : reachable p -> data_ok (data_ p).
Proof.
  induction 1 as [|p c p' _ IH H]; [repeat split; constructor|].
  by eapply step_data_ok.
Qed.

(** One byte in the [body] state. *)
Lemma step_body p c :
  state_ p = ParserState.body ->
  step p c = (let d' := push_content (data_ p) c in
              if Z.of_nat (length (content d')) =? content_length d'
              then Stop good (mkParser ParserState.body d')
              else Next (mkParser ParserState.body d')).
Proof. destruct p as [s d]; simpl; intros ->. done. Qed.

Lemma content_fold_push d xs :
  content (fold_left push_content xs d) = content d ++ xs
  /\ content_length (fold_left push_content xs d) = content_length d.
Proof.
  revert d. induction xs as [|x xs IH]; intros d; simpl; [by rewrite app_nil_r|].
  destruct (IH (push_content d x)) as [-> ->]. unfold push_back. simpl.
  split; [|done]. unfold push_back. by rewrite <- app_assoc.
Qed.

(** ** Header lines *)

Definition with_headers (d : Data) (hs : list (bytes * bytes)) : Data :=
  mkData hs (method d) (uri d) (content d) (http_version_major d) (http_version_minor d)
    (content_length d).

(** The line [name: value CRLF] a header is written as. *)
Definition header_line (h : bytes * bytes) : bytes :=
  h.1 ++ [58; 32] ++ h.2 ++ [CR; LF].

(** A header the automaton reads back: a non-empty token name and a
    value without control bytes. *)
Definition header_ok (h : bytes * bytes) : Prop :=
  h.1 <> [] /\ Forall (fun c => not_token c = false) h.1 /\ Forall (fun c => is_ctl c = false) h.2.

Lemma token_not_special c : not_token c = false -> (c =? 58) = false /\ (c =? 13) = false
  /\ ((c =? 32) || (c =? 9)) = false.
Proof.
  intros H. repeat split;
    repeat match goal with |- context [?c =? ?n] => destruct (Z.eqb_spec c n) as [->|] end;
    done.
Qed.

Lemma ctl_not_cr c : is_ctl c = false -> (c =? 13) = false.
Proof. intros H. by destruct (Z.eqb_spec c 13) as [->|]. Qed.

Lemma push_header_name_with d hs m w c :
  push_header_name (with_headers d (hs ++ [(m, w)])) c = with_headers d (hs ++ [(m ++ [c], w)]).
Proof. unfold push_header_name. cbn [headers with_headers]. by rewrite update_last_app_single. Qed.

Lemma push_header_value_with d hs m w c :
  push_header_value (with_headers d (hs ++ [(m, w)])) c = with_headers d (hs ++ [(m, w ++ [c])]).
Proof. unfold push_header_value. cbn [headers with_headers]. by rewrite update_last_app_single. Qed.

Lemma run_header_name d hs m n rest :
  Forall (fun c => not_token c = false) n ->
  parse_impl (mkParser ParserState.header_name (with_headers d (hs ++ [(m, [])]))) (n ++ rest) =
  parse_impl (mkParser ParserState.header_name (with_headers d (hs ++ [(m ++ n, [])]))) rest.
Proof.
  intros Hn. revert m. induction Hn as [|c n Hc _ IH]; intros m; [by rewrite app_nil_r|].
  destruct (token_not_special c Hc) as (H58 & _ & _).
  cbn [app parse_impl step state_ step_message data_]. rewrite H58, Hc.
  rewrite push_header_name_with, IH, <- app_assoc. done.
Qed.

Lemma run_header_value d hs n w v rest :
  Forall (fun c => is_ctl c = false) v ->
  parse_impl (mkParser ParserState.header_value (with_headers d (hs ++ [(n, w)]))) (v ++ rest) =
  parse_impl (mkParser ParserState.header_value (with_headers d (hs ++ [(n, w ++ v)]))) rest.
Proof.
  intros Hv. revert w. induction Hv as [|c v Hc _ IH]; intros w; [by rewrite app_nil_r|].
  cbn [app parse_impl step state_ step_message data_]. rewrite (ctl_not_cr c Hc), Hc.
  rewrite push_header_value_with, IH, <- app_assoc. done.
Qed.

(** One header line read from the start of a line appends that header. *)
Lemma parse_header_line d h rest :
  header_ok h ->
  parse_impl (mkParser ParserState.header_line_start d) (header_line h ++ rest) =
  parse_impl (mkParser ParserState.header_line_start (with_headers d (headers d ++ [h]))) rest.
Proof.
  destruct h as [[|c n] v]; intros (Hne & Hn & Hv); [done|]. cbn [fst snd] in *.
  inversion Hn as [|? ? Hc Hn']; subst.
  destruct (token_not_special c Hc) as (_ & H13 & Hsp).
  unfold header_line. cbn [fst snd app parse_impl step state_ step_message data_].
  rewrite H13, Hsp, andb_false_r, Hc.
  replace (new_header d c) with (with_headers d (headers d ++ [([c], [])])) by reflexivity.
  rewrite <- app_assoc, run_header_name by done.
  cbn [app parse_impl step state_ step_message data_]. cbn -[parse_impl with_headers].
  rewrite <- (app_nil_l v) at 1. rewrite <- app_assoc, run_header_value by done.
  cbn [app parse_impl step state_ step_message data_]. cbn -[parse_impl with_headers].
  reflexivity.
Qed.

(** A block of header lines appends its headers, in order. *)
Lemma parse_header_lines d hs rest :
  Forall header_ok hs ->
  parse_impl (mkParser ParserState.header_line_start d) (concat (map header_line hs) ++ rest) =
  parse_impl (mkParser ParserState.header_line_start (with_headers d (headers d ++ hs))) rest.
Proof.
  intros Hhs. revert d. induction Hhs as [|h hs Hh _ IH]; intros d.
  - rewrite app_nil_r. by destruct d.
  - cbn [map concat]. rewrite <- app_assoc, parse_header_line by done. rewrite IH.
    cbn [headers with_headers]. by rewrite <- app_assoc.
Qed.

#[global] Hint Resolve step_wf reachable_wf step_data_ok parse_impl_reachable : websrv.

(** *** Claims *)

(** C29 (safety): [headers.back()] is only evaluated on a non-empty header
    vector: in every parser the connection can hold, the states that
    write to the last header have at least one header. *)
Theorem reachable_back_nonempty p :
  reachable p -> uses_back (state_ p) = true -> headers (data_ p) <> [].
Proof.
  intros Hr Hb. pose proof (reachable_wf p Hr) as Hw.
  unfold wf in Hw. destruct (state_ p); done.
Qed.

(** C18 (invariant): what the parser accumulates is well-formed: method and
    header names are tokens, the URI and the header values hold no
    control byte (in particular no CR or LF), in every reachable parser. *)
Theorem reachable_data_ok p : reachable p -> data_ok (data_ p).
Proof. apply reachable_data_ok_aux. Qed.

(** C30 (functional): in the [body] state the parser answers [good] exactly
    after the byte that makes the content [Content-Length] long, and
    leaves the bytes after it unread. *)
Theorem body_exact p xs ys :
  state_ p = ParserState.body -> xs <> [] ->
  Z.of_nat (length (content (data_ p)) + length xs) = content_length (data_ p) ->
  parse_impl p (xs ++ ys) =
    (inl good, mkParser ParserState.body (fold_left push_content xs (data_ p)), ys).
Proof.
  destruct p as [s d]; simpl; intros -> Hne. revert d.
  induction xs as [|x xs IH]; intros d Hl; [done|].
  cbn [app parse_impl]. rewrite step_body by done.
  cbn [push_content content content_length data_]. rewrite length_push_back.
  destruct (Z.eqb_spec (Z.of_nat (S (length (content d)))) (content_length d)) as [E|E];
    destruct xs as [|x' xs']; simpl in Hl; try lia; [done|].
  apply (IH ltac:(done) (push_content d x)). simpl. rewrite length_push_back. lia.
Qed.

(** C35 (error): with a negative [Content-Length] the body never completes:
    whatever bytes follow, the parser answers [indeterminate] and
    appends them all to the content. *)
Theorem body_negative_never_good p xs :
  state_ p = ParserState.body -> content_length (data_ p) < 0 ->
  parse_impl p xs =
    (inl indeterminate, mkParser ParserState.body (fold_left push_content xs (data_ p)), []).
Proof.
  destruct p as [s d]; simpl; intros -> Hneg. revert d Hneg.
  induction xs as [|x xs IH]; intros d Hneg; [done|].
  cbn [parse_impl]. rewrite step_body by done.
  cbn [push_content content content_length data_]. rewrite length_push_back.
  destruct (Z.eqb_spec (Z.of_nat (S (length (content d)))) (content_length d)); [lia|].
  by apply IH.
Qed.

(** *** Concrete runs *)

Definition crlf : bytes := [CR; LF].

(** [GET /index.html HTTP/1.1], a Host header and an empty line. *)
Definition get_request : bytes :=
  bytes_of_string "GET /index.html HTTP/1.1" ++ crlf
  ++ bytes_of_string "Host: example.org" ++ crlf ++ crlf.

Definition get_parser : HTTPParser :=
  Eval vm_compute in (parse_impl init get_request).1.2.

(** The same request cut inside its first header name. *)
Definition partial_request : bytes :=
  bytes_of_string "GET /index.html HTTP/1.1" ++ crlf ++ bytes_of_string "Hos".

Definition partial_parser : HTTPParser :=
  Eval vm_compute in (parse_impl init partial_request).1.2.

(** A POST whose body is two bytes long. *)
Definition post_head : bytes :=
  bytes_of_string "POST /a HTTP/1.0" ++ crlf
  ++ bytes_of_string "content-length: 2" ++ crlf ++ crlf.

Definition post_body_parser : HTTPParser :=
  Eval vm_compute in (parse_impl init post_head).1.2.

(** A POST announcing a negative body length. *)
Definition negative_head : bytes :=
  bytes_of_string "POST /a HTTP/1.0" ++ crlf
  ++ bytes_of_string "Content-Length: -1" ++ crlf ++ crlf.

Definition negative_parser : HTTPParser :=
  Eval vm_compute in (parse_impl init negative_head).1.2.

(** Witness: the parser cut inside [Hos] is reachable, writes to the
    last header, and that header exists. *)
Lemma reachable_back_nonempty_witness :
  reachable partial_parser /\ uses_back (state_ partial_parser) = true
  /\ headers (data_ partial_parser) <> [].
Proof.
  assert (reachable partial_parser) as Hr.
  { apply (parse_impl_reachable init partial_request _ []); [constructor|reflexivity]. }
  split; [exact Hr|]. split; [reflexivity|].
  apply (reachable_back_nonempty partial_parser Hr). reflexivity.
Defined.

Lemma reachable_data_ok_witness :
  reachable partial_parser /\ data_ok (data_ partial_parser).
Proof.
  assert (reachable partial_parser) as Hr.
  { apply (parse_impl_reachable init partial_request _ []); [constructor|reflexivity]. }
  split; [exact Hr|]. apply (reachable_data_ok partial_parser Hr).
Defined.

(** Witness: two body bytes complete the POST; a third byte is left. *)
Lemma body_exact_witness :
  state_ post_body_parser = ParserState.body
  /\ parse_impl post_body_parser ([104; 105] ++ [33]) =
       (inl good, mkParser ParserState.body
                    (fold_left push_content [104; 105] (data_ post_body_parser)), [33]).
Proof.
  split; [reflexivity|].
  apply body_exact; [reflexivity|done|reflexivity].
Defined.

(** Witness: after [Content-Length: -1] a following request is
    swallowed as body. *)
Lemma body_negative_never_good_witness :
  state_ negative_parser = ParserState.body
  /\ content_length (data_ negative_parser) < 0
  /\ parse_impl negative_parser get_request =
       (inl indeterminate, mkParser ParserState.body
          (fold_left push_content get_request (data_ negative_parser)), []).
Proof.
  split; [reflexivity|]. split; [reflexivity|].
  apply body_negative_never_good; [reflexivity|reflexivity].
Defined.

(** The simple GET is accepted at its last byte, with
    the request line and the header in the accumulation record. *)
Example parse_get_request :
  parse_impl init get_request =
    (inl good, mkParser ParserState.body
       (mkData [(bytes_of_string "Host", bytes_of_string "example.org")]
          (bytes_of_string "GET") (bytes_of_string "/index.html") [] 1 1 0), []).
Proof. vm_compute. reflexivity. Qed.

(** The version digits are accumulated in a C++ [int] with
    no length limit: [HTTP/4294967296.1] drives the major version past
    [INT_MAX], a signed overflow in the code. *)
Example version_overflow :
  let p := (parse_impl init (bytes_of_string "GET / HTTP/4294967296.1" ++ crlf)).1.2 in
  state_ p = ParserState.header_line_start /\ http_version_major (data_ p) > INT_MAX.
Proof. vm_compute. split; reflexivity. Qed.

(** A [Content-Length] that is not a number makes [std::stoi]
    raise [invalid_argument] out of [parse_impl], with the parser left
    in the [body] state. *)
Example content_length_not_a_number :
  let out := parse_impl init (bytes_of_string "GET / HTTP/1.1" ++ crlf
                              ++ bytes_of_string "Content-Length: abc" ++ crlf ++ crlf) in
  out.1.1 = inr invalid_argument /\ state_ out.1.2 = ParserState.body.
Proof. vm_compute. split; reflexivity. Qed.

End Fsm.
