(* ===== verification/HttpParser.v ===== *)
(** [HTTPParser::Parse], [Reset] and [fill_request]
    (src/HTTP/http_parser.cpp), and the read-and-parse half of
    [HTTPConnection::do_read] (src/HTTP/http_connection.cpp) that feeds
    the parser one chunk per read.  [fill_request] returns the request
    as far as it got and the exception it raised, because
    [assembleUri] raises after the other fields are written. *)

From S2P Require Import Prelude Cookie HttpRequest HttpFsm.

Module Parser.

Module R := HTTPRequest.

(** The header map [fill_request] builds: lower-cased names, inserted in
    arrival order with [unordered_map::insert]. *)
Definition fill_headers (hs : list (bytes * bytes)) : gmap bytes bytes :=
  fold_left (fun m h => map_insert_new (utflower h.1) h.2 m) hs ∅.

Definition h_cookie := bytes_of_string "cookie".
Definition h_content_length := bytes_of_string "Content-Length".

(** The cookie block of [fill_request]: the [cookie] header parsed into
    the cookie map (first cookie of a name wins) and erased. *)
Definition extract_cookies (req1 : R.t) (hs : gmap bytes bytes) : R.t :=
  match hs !! h_cookie with
  | Some cks =>
      let vc := Cookie.fromString cks in
      let cm := fold_left (fun m c => map_insert_new (Cookie.name c) c m) vc (R.cookies req1) in
      R.set_headers (R.set_cookies req1 cm) (delete h_cookie hs)
  | None => req1
  end.

(** The content block: the body is copied when a [content-length]
    header is there and the body has that length. *)
Definition fill_content (req2 : R.t) (d : Fsm.Data) : R.t :=
  if bool_decide (is_Some (R.headers req2 !! utflower h_content_length))
     && (Z.of_nat (length (Fsm.content d)) =? Fsm.content_length d)
  then R.set_content req2 (Fsm.content d) else req2.

(** [HTTPParser::fill_request]. *)
Definition fill_request (req : R.t) (d : Fsm.Data) : R.t * option exn :=
  let hs := fill_headers (Fsm.headers d) in
  let req1 := R.set_line (R.set_headers req hs) (Fsm.method d)
                (Fsm.http_version_major d) (Fsm.http_version_minor d) in
  let req3 := fill_content (extract_cookies req1 hs) d in
  match R.assembleUri req3 (Fsm.uri d) with
  | inl req4 => (req4, None)
  | inr e => (req3, Some e)
  end.

(** [HTTPParser::Reset]: the initial state and a fresh [Data]. *)
Definition Reset (p : Fsm.HTTPParser) : Fsm.HTTPParser := Fsm.init.

(** [HTTPParser::Parse(req, begin, end)]: the result (or the exception
    that leaves it), the parser, the request and the read buffer after
    the call.  An exception of [parse_impl] leaves before [Reset] and
    before [zeroout]; [out_of_range] from [fill_request] is caught and
    turns [good] into [bad]. *)
Definition Parse (p : Fsm.HTTPParser) (req : R.t) (buf : bytes)
  : (Fsm.Result + exn) * Fsm.HTTPParser * R.t * bytes :=
  match Fsm.parse_impl p buf with
  | (inr e, p', _) => (inr e, p', req, buf)
  | (inl r, p', _) =>
      let '(res, req') :=
        if decide (r = Fsm.good) then
          match fill_request req (Fsm.data_ p') with
          | (req', None) => (inl Fsm.good, req')
          | (req', Some out_of_range) => (inl Fsm.bad, req')
          | (req', Some e) => (inr e, req')
          end
        else (inl r, req) in
      match res with
      | inr e => (inr e, p', req', buf)
      | inl r' =>
          let p'' := if decide (r' = Fsm.indeterminate) then p' else Reset p' in
          (inl r', p'', req', zeroout buf)
      end
  end.

(** The request [do_read] prepares before each [Parse]:
    [request_ = HTTPRequest(); request_.is_http = ...; request_.origin = ...]. *)
Definition fresh_request (is_http : bool) (origin : bytes) : R.t :=
  R.mkRequest [] 0 0 is_http ∅ ∅ [] origin R.Uri_default.

(** Successive reads of one connection: each chunk is parsed into a
    fresh request with the parser kept from the previous read; an
    exception ends the handler. *)
Fixpoint run_chunks (p : Fsm.HTTPParser) (req0 : R.t) (cs : list bytes)
  : list ((Fsm.Result + exn) * R.t) * Fsm.HTTPParser :=
  match cs with
  | [] => ([], p)
  | c :: cs' =>
      match Parse p req0 c with
      | (inr e, p', req', _) => ([(inr e, req')], p')
      | (inl r, p', req', _) =>
          let '(l, p'') := run_chunks p' req0 cs' in ((inl r, req') :: l, p'')
      end
  end.

(** ** Properties *)

Lemma run_chunks_cons p req0 c cs :
  run_chunks p req0 (c :: cs) =
    match Parse p req0 c with
    | (inr e, p', req', _) => ([(inr e, req')], p')
    | (inl r, p', req', _) =>
        let '(l, p'') := run_chunks p' req0 cs in ((inl r, req') :: l, p'')
    end.
Proof. done. Qed.

(** The value of the first header whose lower-cased name is [k]. *)
Fixpoint first_header (k : bytes) (hs : list (bytes * bytes)) : option bytes :=
  match hs with
  | [] => None
  | (n, v) :: r => if bool_decide (utflower n = k) then Some v else first_header k r
  end.

Definition h_host_l := utflower R.h_host.

Lemma fill_headers_acc (k : bytes) (hs : list (bytes * bytes)) (m : gmap bytes bytes) :
  fold_left (fun m h => map_insert_new (utflower h.1) h.2 m) hs m !! k =
    match m !! k with Some v => Some v | None => first_header k hs end.
Proof.
  revert m. induction hs as [|[n v] hs IH]; intros m; simpl.
  - by destruct (m !! k).
  - rewrite IH, lookup_map_insert_new. simpl.
    case_decide as Hn; case_bool_decide as Hb; try congruence.
    subst. by destruct (m !! utflower n).
Qed.

Lemma Parse_indeterminate p req buf p' rest :
  Fsm.parse_impl p buf = (inl Fsm.indeterminate, p', rest) ->
  Parse p req buf = (inl Fsm.indeterminate, p', req, zeroout buf).
Proof. intros H. unfold Parse. by rewrite H. Qed.

(** [Parse] sees only the outcome of [parse_impl], not the unread rest. *)
Lemma Parse_congr p1 p2 b1 b2 req r p' rest1 rest2 x y z w :
  Fsm.parse_impl p1 b1 = (r, p', rest1) -> Fsm.parse_impl p2 b2 = (r, p', rest2) ->
  Parse p1 req b1 = (x, y, z, w) -> exists w', Parse p2 req b2 = (x, y, z, w').
Proof.
  unfold Parse. intros -> ->.
  destruct r as [r|e]; [|intros [= <- <- <- _]; eauto].
  destruct (if decide (r = Fsm.good) then _ else _) as [[r'|e] req'];
    intros [= <- <- <- _]; eauto.
Qed.

Lemma fill_headers_lookup (k : bytes) (hs : list (bytes * bytes)) :
  fill_headers hs !! k = first_header k hs.
Proof. unfold fill_headers. by rewrite fill_headers_acc, lookup_empty. Qed.

(** Apart from [cookie], the request carries the header map as built. *)
Lemma fill_content_extract_headers req1 hs d k :
  k <> h_cookie ->
  R.headers (fill_content (extract_cookies req1 hs) d) !! k =
    (if bool_decide (hs !! h_cookie = None) then R.headers req1 else hs) !! k.
Proof.
  intros Hk. unfold fill_content, extract_cookies.
  destruct (hs !! h_cookie) eqn:E; simpl; case_match; simpl;
    rewrite ?lookup_delete_ne by congruence; done.
Qed.

Lemma fill_request_host req d :
  exists req', fill_request req d =
    (req', match first_header h_host_l (Fsm.headers d) with
           | Some _ => None
           | None => Some out_of_range
           end).
Proof.
  unfold fill_request, R.assembleUri.
  rewrite fill_content_extract_headers by (vm_compute; congruence).
  case_bool_decide; simpl; rewrite fill_headers_lookup;
    destruct (first_header _ _); eauto.
Qed.

Lemma fill_request_headers_gen req d k :
  k <> h_cookie -> R.headers (fill_request req d).1 !! k = first_header k (Fsm.headers d).
Proof.
  intros Hk. unfold fill_request, R.assembleUri.
  destruct (R.headers (fill_content _ d) !! utflower R.h_host); simpl;
    rewrite fill_content_extract_headers by done;
    case_bool_decide; simpl; by rewrite fill_headers_lookup.
Qed.

(** A [good] answer comes from [fill_request] on the data the automaton
    accepted, without exception. *)
Lemma Parse_good_fill p req buf p1 rest p' req' buf' :
  Fsm.parse_impl p buf = (inl Fsm.good, p1, rest) ->
  Parse p req buf = (inl Fsm.good, p', req', buf') ->
  fill_request req (Fsm.data_ p1) = (req', None).
Proof.
  unfold Parse. intros ->. simpl.
  destruct (fill_request req _) as [q [[]|]]; intros H; injection H; intros; subst; done.
Qed.

(** *** Claims *)

(** C11 (error): the mandatory Host header.  When the automaton accepts a
    message, [Parse] answers [good] exactly when one of its headers is
    named [Host] (in any case) and [bad] otherwise; either way the parser
    is reset and the read buffer zeroed. *)
Theorem Parse_good_iff_host p req buf p' rest :
  Fsm.parse_impl p buf = (inl Fsm.good, p', rest) ->
  exists req', Parse p req buf =
    (inl (match first_header h_host_l (Fsm.headers (Fsm.data_ p')) with
          | Some _ => Fsm.good
          | None => Fsm.bad
          end), Fsm.init, req', zeroout buf).
Proof.
  intros H. unfold Parse. rewrite H. simpl.
  destruct (fill_request_host req (Fsm.data_ p')) as [req' ->].
  destruct (first_header _ _); eauto.
Qed.

(** C12 (invariant): every call of [Parse] that returns (no exception)
    zeroes the read buffer, and resets the parser to its initial state
    whenever the answer is terminal; on [indeterminate] it keeps the
    automaton where [parse_impl] left it. *)
Theorem Parse_returns_reset_zeroed p req buf r p' req' buf' :
  Parse p req buf = (inl r, p', req', buf') ->
  buf' = zeroout buf
  /\ (r = Fsm.indeterminate -> exists rest, Fsm.parse_impl p buf = (inl r, p', rest))
  /\ (r <> Fsm.indeterminate -> p' = Fsm.init).
Proof.
  unfold Parse. destruct (Fsm.parse_impl p buf) as [[[r0|e0] p0] rest]; [|intros [=]].
  destruct (decide (r0 = Fsm.good)) as [->|Hg].
  - destruct (fill_request req _) as [q [[]|]]; intros [= <- <- <- <-];
      split; [done| |done|done]; split; intros; done.
  - intros [= <- <- <- <-]. split; [done|].
    destruct (decide (r0 = Fsm.indeterminate)) as [->|]; split; intros; by eauto.
Qed.

(** C33 (error): an exception of [parse_impl] ([std::stoi] on a bad
    [Content-Length]) leaves [Parse] before [Reset] and before [zeroout]:
    the buffer holding the request comes back unchanged. *)
Theorem Parse_exception_keeps_buffer p req buf e p' req' buf' :
  Parse p req buf = (inr e, p', req', buf') -> buf' = buf.
Proof.
  unfold Parse. destruct (Fsm.parse_impl p buf) as [[[r0|e0] p0] rest];
    [|by intros [= _ _ _ <-]].
  destruct (decide (r0 = Fsm.good)).
  - destruct (fill_request req (Fsm.data_ p0)) as [q [[]|]]; simpl; by intros [=].
  - by intros [=].
Qed.

(** C32 (functional): duplicate header names.  The header map of the
    request holds, for every lower-cased name other than [cookie], the
    value of the FIRST header with that name: [unordered_map::insert]
    does not overwrite. *)
Theorem fill_request_headers req d k :
  k <> h_cookie -> R.headers (fill_request req d).1 !! k = first_header k (Fsm.headers d).
Proof. apply fill_request_headers_gen. Qed.

(** C31 (functional): the URI of an accepted request.  After [Parse]
    answers [good], the request's URI is [scheme://host] followed by the
    request-target, where [host] is the value of the (first) [Host]
    header and the scheme is [ws]/[wss] for an upgrade request and
    [http]/[https] otherwise: the scheme test of [isWSHandshake] holds
    exactly for the upgrade requests. *)
Theorem Parse_good_uri p req buf p1 rest p' req' buf' :
  Fsm.parse_impl p buf = (inl Fsm.good, p1, rest) ->
  Parse p req buf = (inl Fsm.good, p', req', buf') ->
  exists host, R.headers req' !! h_host_l = Some host
  /\ R.uri req' = R.mkUri (R.uri_scheme req')
                   (R.uri_scheme req' ++ R.PROTO_URLPOSTFIX ++ host ++ Fsm.uri (Fsm.data_ p1))
  /\ R.is_http req' = R.is_http req
  /\ (R.scheme (R.uri req') = R.WS_PROTO \/ R.scheme (R.uri req') = R.WSS_PROTO
      <-> R.isWSUpgrade req' = true).
Proof.
  intros Hp HP. pose proof (Parse_good_fill _ _ _ _ _ _ _ _ Hp HP) as Hf.
  unfold fill_request in Hf. destruct (R.assembleUri _ _) as [r4|e] eqn:Ea; [|done].
  injection Hf as <-. apply R.assembleUri_inl in Ea as (host & Hh & ->).
  exists host. rewrite R.uri_scheme_set_uri, R.isWSUpgrade_set_uri; cbn [R.uri R.scheme].
  split; [exact Hh|]. split; [done|]. split; [|apply R.uri_scheme_ws].
  unfold fill_content, extract_cookies. repeat case_match; done.
Qed.

(** C5 (equivalence): chunking invariance.  Feed a message that ends at
    the last byte of its last read (the automaton answers [good], [bad]
    or raises exactly there) to [Parse] split into any non-empty chunks,
    the parser kept between reads as the connection keeps it: every
    read but the last answers [indeterminate] with the request left as
    prepared, and the last gives the result, request and parser of a
    single [Parse] of the whole message. *)
Theorem chunking_invariance p req0 cs r p1 :
  Forall (fun c => c <> []) cs -> cs <> [] ->
  Fsm.parse_impl p (concat cs) = (r, p1, []) -> r <> inl Fsm.indeterminate ->
  forall x y z w, Parse p req0 (concat cs) = (x, y, z, w) ->
  run_chunks p req0 cs =
    (map (fun _ => (inl Fsm.indeterminate, req0)) (removelast cs) ++ [(x, z)], y).
Proof.
  intros Hne Hcs. revert p Hcs. induction Hne as [|c cs Hc Hcs' IH]; intros p Hnil; [done|].
  intros Hrun Hr x y z w HP.
  destruct cs as [|c2 cs2].
  - simpl in *. rewrite app_nil_r in HP. rewrite HP. by destruct x.
  - simpl concat in Hrun, HP. rewrite Fsm.parse_impl_app in Hrun.
    destruct (Fsm.parse_impl p c) as [[rc pc] restc] eqn:Ec.
    assert (rc = inl Fsm.indeterminate) as ->.
    { inversion Hcs' as [|? ? Hc2]; subst.
      destruct rc as [[| |]|]; try done; injection Hrun as _ _ Happ;
        apply app_eq_nil in Happ as [_ Happ]; simpl in Happ;
        apply app_eq_nil in Happ as [? _]; done. }
    rewrite run_chunks_cons, (Parse_indeterminate _ req0 _ _ _ Ec).
    assert (Fsm.parse_impl p (c ++ c2 ++ concat cs2) = (r, p1, [])) as Hall.
    { rewrite Fsm.parse_impl_app, Ec. exact Hrun. }
    destruct (Parse_congr _ _ _ _ _ _ _ _ _ _ _ _ _ Hall Hrun HP) as [w' HP'].
    rewrite (IH pc ltac:(done) Hrun Hr _ _ _ _ HP'). done.
Qed.

(** [Parse] returns (raises nothing) once the automaton returned:
    [fill_request] raises [out_of_range] only. *)
Lemma Parse_after_return p req buf r p1 rest :
  Fsm.parse_impl p buf = (inl r, p1, rest) ->
  exists r' q, Parse p req buf = (inl r', if decide (r' = Fsm.indeterminate) then p1 else Fsm.init,
                                  q, zeroout buf)
               /\ (r' = Fsm.indeterminate <-> r = Fsm.indeterminate).
Proof.
  intros H. unfold Parse. rewrite H.
  destruct (decide (r = Fsm.good)) as [->|Hg].
  - destruct (fill_request_host req (Fsm.data_ p1)) as [q ->].
    destruct (first_header _ _); eexists _, q; split; done.
  - eexists r, req. split; [|done]. by case_decide.
Qed.

(** C34 (functional): pipelined requests.  When a read holds a complete message
    followed by more bytes (a second request sent without waiting),
    [Parse] answers for the first message exactly as if it had come
    alone, resets the parser and zeroes the whole buffer: the following
    bytes are never parsed. *)
Theorem pipelined_bytes_dropped p req m extra r p1 x y z w :
  Fsm.parse_impl p m = (inl r, p1, []) -> r <> Fsm.indeterminate ->
  Parse p req m = (x, y, z, w) ->
  Parse p req (m ++ extra) = (x, y, z, zeroout (m ++ extra)) /\ y = Fsm.init.
Proof.
  intros Hm Hr HP.
  assert (Fsm.parse_impl p (m ++ extra) = (inl r, p1, extra)) as Hme.
  { rewrite Fsm.parse_impl_app, Hm. by destruct r. }
  destruct (Parse_after_return p req (m ++ extra) r p1 extra Hme) as (r' & q & HP' & Hiff).
  destruct (Parse_congr _ _ _ _ _ _ _ _ _ _ _ _ _ Hm Hme HP) as [w' HPe].
  rewrite HP' in HPe. injection HPe as <- <- <- <-.
  split; [done|]. case_decide; [|done]. by apply Hiff in H.
Qed.

(** *** Concrete runs *)

Definition r0 : R.t := fresh_request true (bytes_of_string "10.0.0.1").

Definition no_host_request : bytes :=
  bytes_of_string "GET / HTTP/1.1" ++ Fsm.crlf
  ++ bytes_of_string "Accept: */*" ++ Fsm.crlf ++ Fsm.crlf.

Definition two_hosts_request : bytes :=
  bytes_of_string "GET /p HTTP/1.1" ++ Fsm.crlf
  ++ bytes_of_string "HOST: first" ++ Fsm.crlf
  ++ bytes_of_string "host: second" ++ Fsm.crlf ++ Fsm.crlf.

Definition bad_length_request : bytes :=
  bytes_of_string "GET / HTTP/1.1" ++ Fsm.crlf
  ++ bytes_of_string "Content-Length: abc" ++ Fsm.crlf ++ Fsm.crlf.

Definition two_hosts_parser : Fsm.HTTPParser :=
  Eval vm_compute in (Fsm.parse_impl Fsm.init two_hosts_request).1.2.

Definition bad_length_parser : Fsm.HTTPParser :=
  Eval vm_compute in (Fsm.parse_impl Fsm.init bad_length_request).1.2.

Lemma get_request_accepted :
  Fsm.parse_impl Fsm.init Fsm.get_request = (inl Fsm.good, Fsm.get_parser, []).
Proof. vm_compute. reflexivity. Qed.

(** Witness: the GET with a Host header is [good]. *)
Lemma Parse_good_iff_host_witness :
  Fsm.parse_impl Fsm.init Fsm.get_request = (inl Fsm.good, Fsm.get_parser, [])
  /\ exists req', Parse Fsm.init r0 Fsm.get_request =
       (inl (match first_header h_host_l (Fsm.headers (Fsm.data_ Fsm.get_parser)) with
             | Some _ => Fsm.good
             | None => Fsm.bad
             end), Fsm.init, req', zeroout Fsm.get_request).
Proof.
  split; [exact get_request_accepted|].
  exact (Parse_good_iff_host Fsm.init r0 Fsm.get_request Fsm.get_parser [] get_request_accepted).
Defined.

(** The same request line without a Host header is [bad]. *)
Example Parse_no_host_bad :
  (Parse Fsm.init r0 no_host_request).1.1.1 = inl Fsm.bad
  /\ (Parse Fsm.init r0 no_host_request).1.1.2 = Fsm.init.
Proof. vm_compute. split; reflexivity. Qed.

Lemma Parse_returns_reset_zeroed_witness :
  exists r p' req' buf', Parse Fsm.init r0 Fsm.get_request = (inl r, p', req', buf')
  /\ buf' = zeroout Fsm.get_request
  /\ (r = Fsm.indeterminate -> exists rest, Fsm.parse_impl Fsm.init Fsm.get_request = (inl r, p', rest))
  /\ (r <> Fsm.indeterminate -> p' = Fsm.init).
Proof.
  destruct (Parse_after_return Fsm.init r0 Fsm.get_request _ _ _ get_request_accepted)
    as (r & q & HP & _).
  eexists r, _, q, _. split; [exact HP|].
  exact (Parse_returns_reset_zeroed _ _ _ _ _ _ _ HP).
Defined.

Lemma Parse_exception_keeps_buffer_witness :
  exists p' req' buf',
    Parse Fsm.init r0 bad_length_request = (inr invalid_argument, p', req', buf')
    /\ buf' = bad_length_request.
Proof.
  assert (Parse Fsm.init r0 bad_length_request =
            (inr invalid_argument, bad_length_parser, r0, bad_length_request)) as HP.
  { vm_compute. reflexivity. }
  do 3 eexists. split; [exact HP|].
  exact (Parse_exception_keeps_buffer _ _ _ _ _ _ _ HP).
Defined.

(** Witness: of two [Host] headers the first one is kept. *)
Lemma fill_request_headers_witness :
  R.headers (fill_request r0 (Fsm.data_ two_hosts_parser)).1 !! bytes_of_string "host"
  = first_header (bytes_of_string "host") (Fsm.headers (Fsm.data_ two_hosts_parser))
  /\ first_header (bytes_of_string "host") (Fsm.headers (Fsm.data_ two_hosts_parser))
     = Some (bytes_of_string "first").
Proof.
  split; [|vm_compute; reflexivity].
  apply fill_request_headers. vm_compute. discriminate.
Defined.

Definition get_chunks : list bytes :=
  [take 5 Fsm.get_request; take 20 (drop 5 Fsm.get_request); drop 25 Fsm.get_request].

(** Witness: the GET split in three reads. *)
Lemma chunking_invariance_witness :
  exists x y z w, Parse Fsm.init r0 (concat get_chunks) = (x, y, z, w)
  /\ run_chunks Fsm.init r0 get_chunks =
       (map (fun _ => (inl Fsm.indeterminate, r0)) (removelast get_chunks) ++ [(x, z)], y).
Proof.
  destruct (Parse Fsm.init r0 (concat get_chunks)) as [[[x y] z] w] eqn:E.
  exists x, y, z, w. split; [done|].
  assert (Fsm.parse_impl Fsm.init (concat get_chunks) = (inl Fsm.good, Fsm.get_parser, []))
    as Hall by (vm_compute; reflexivity).
  refine (chunking_invariance Fsm.init r0 get_chunks (inl Fsm.good) Fsm.get_parser
            _ _ Hall _ x y z w E).
  - repeat constructor; vm_compute; discriminate.
  - discriminate.
  - discriminate.
Defined.

Lemma pipelined_bytes_dropped_witness :
  exists x y z w, Parse Fsm.init r0 Fsm.get_request = (x, y, z, w)
  /\ Parse Fsm.init r0 (Fsm.get_request ++ Fsm.get_request)
     = (x, y, z, zeroout (Fsm.get_request ++ Fsm.get_request))
  /\ y = Fsm.init.
Proof.
  destruct (Parse Fsm.init r0 Fsm.get_request) as [[[x y] z] w] eqn:E.
  exists x, y, z, w. split; [done|].
  exact (pipelined_bytes_dropped _ _ _ Fsm.get_request _ _ _ _ _ _
           get_request_accepted ltac:(discriminate) E).
Defined.

(** The opening handshake of RFC 6455, section 1.2. *)
Definition ws_request : bytes :=
  bytes_of_string "GET /chat HTTP/1.1" ++ Fsm.crlf
  ++ bytes_of_string "Host: server.example.com" ++ Fsm.crlf
  ++ bytes_of_string "Upgrade: websocket" ++ Fsm.crlf
  ++ bytes_of_string "Connection: Upgrade" ++ Fsm.crlf
  ++ bytes_of_string "Sec-WebSocket-Key: dGhlIHNhbXBsZSBub25jZQ==" ++ Fsm.crlf
  ++ bytes_of_string "Sec-WebSocket-Version: 13" ++ Fsm.crlf ++ Fsm.crlf.

Definition ws_parser : Fsm.HTTPParser :=
  Eval vm_compute in (Fsm.parse_impl Fsm.init ws_request).1.2.

Definition ws_req : R.t := Eval vm_compute in (Parse Fsm.init r0 ws_request).1.2.

Lemma Parse_good_uri_witness :
  R.isWSHandshake ws_req = inl true
  /\ exists host, R.headers ws_req !! h_host_l = Some host
  /\ R.uri ws_req = R.mkUri (R.uri_scheme ws_req)
                     (R.uri_scheme ws_req ++ R.PROTO_URLPOSTFIX ++ host ++ Fsm.uri (Fsm.data_ ws_parser))
  /\ R.is_http ws_req = R.is_http r0
  /\ (R.scheme (R.uri ws_req) = R.WS_PROTO \/ R.scheme (R.uri ws_req) = R.WSS_PROTO
      <-> R.isWSUpgrade ws_req = true).
Proof.
  assert (Fsm.parse_impl Fsm.init ws_request = (inl Fsm.good, ws_parser, [])) as H1
    by (vm_compute; reflexivity).
  assert (Parse Fsm.init r0 ws_request = (inl Fsm.good, Fsm.init, ws_req, zeroout ws_request))
    as H2 by (vm_compute; reflexivity).
  split; [vm_compute; reflexivity|].
  exact (Parse_good_uri _ _ _ _ _ _ _ _ H1 H2).
Defined.

End Parser.
