(* ===== verification/WsFrame.v ===== *)
(** The WebSocket frame codec (src/ws/ws_proto_impl.cpp, constants in
    src/ws/ws_protocol.h).  [fill_text_frame] appends to its [result]
    string the opcode byte, the length field (one byte below 126, then
    126 and two big-endian bytes up to 65535, then 127 and eight bytes)
    and the payload; [fill_closing_frame] appends a two-byte status and
    the reason.  The decoder [decode_frame] reads the header the encoder
    writes (RFC 6455, section 5.2) and gives the round trip. *)

From S2P Require Import Prelude.

Module WsFrame.

(** [Schema::WSFinRsvOpcode] and [Schema::WSClosureStatus]. *)
Definition one_fragment_text : byte := 129.
Definition one_fragment_binary : byte := 130.
Definition close_connection : byte := 136.
Definition normal : Z := 1000.
Definition protocol_error : Z := 1002.
Definition timeout : Z := 4020.

(** The [for (c = num_bytes - 1; c >= 0; --c)] loop: byte [c] of the
    length, most significant first, [(long_length >> (8 * c)) % 256]. *)
Fixpoint be_bytes (num_bytes : nat) (v : Z) : bytes :=
  match num_bytes with
  | O => []
  | S c => (Z.shiftr v (8 * Z.of_nat c)) mod 256 :: be_bytes c v
  end.

(** [fill_text_frame(message, opcode, result)] *)
Definition fill_text_frame (message : bytes) (opcode : byte) (result : bytes) : bytes :=
  let length := Z.of_nat (length message) in
  let header :=
    if 126 <=? length then
      if 65535 <? length then 127 :: be_bytes 8 length
      else 126 :: be_bytes 2 length
    else [length] in
  result ++ opcode :: header ++ message.

(** [fill_closing_frame(status, reason, result)]: [push_back] of
    [status >> 8] and [status % 256], each truncated to a [char]. *)
Definition fill_closing_frame (status : Z) (reason : bytes) (result : bytes) : bytes :=
  result ++ [Z.shiftr status 8 mod 256; status mod 256] ++ reason.

(** ** Reading frames back *)

Fixpoint be_value (bs : bytes) : Z :=
  match bs with
  | [] => 0
  | b :: r => b * 2 ^ (8 * Z.of_nat (length r)) + be_value r
  end.

(** The opcode byte, the payload, and the bytes after the frame, for an
    unmasked frame at the head of [s]. *)
Definition decode_frame (s : bytes) : option (byte * bytes * bytes) :=
  match s with
  | op :: l0 :: rest =>
      let '(n, body) :=
        if l0 <? 126 then (l0, rest)
        else if l0 =? 126 then (be_value (take 2 rest), drop 2 rest)
        else if l0 =? 127 then (be_value (take 8 rest), drop 8 rest)
        else (-1, rest) in
      if (0 <=? n) && (n <=? Z.of_nat (length body)) then
        Some (op, take (Z.to_nat n) body, drop (Z.to_nat n) body)
      else None
  | _ => None
  end.

(** The size of the length field the encoder writes. *)
Definition length_field_size (n : Z) : nat :=
  if n <? 126 then 1 else if n <=? 65535 then 3 else 9.

(** ** Lemmas *)

Lemma length_be_bytes n v : length (be_bytes n v) = n.
Proof. induction n; simpl; auto. Qed.

Lemma be_bytes_bounded n v : Forall (fun b => 0 <= b < 256) (be_bytes n v).
Proof. induction n; simpl; constructor; auto. apply Z.mod_pos_bound. lia. Qed.

Lemma be_value_be_bytes n v : be_value (be_bytes n v) = v mod 2 ^ (8 * Z.of_nat n).
Proof.
  induction n as [|k IH]; simpl; [by rewrite Z.mod_1_r|].
  rewrite length_be_bytes, IH, Z.shiftr_div_pow2 by lia.
  replace (8 * Z.of_nat (S k)) with (8 * Z.of_nat k + 8) by lia.
  rewrite Z.pow_add_r, Z.rem_mul_r by lia. change (2 ^ 8) with 256. ring.
Qed.

#[global] Hint Resolve be_bytes_bounded : websrv.
#[global] Hint Rewrite length_be_bytes be_value_be_bytes : websrv_rw.

Lemma decode_after_header op l0 n hdr m rest :
  0 <= n -> Z.of_nat (length m) = n ->
  (if l0 <? 126 then (l0, hdr ++ m ++ rest)
   else if l0 =? 126 then (be_value (take 2 (hdr ++ m ++ rest)), drop 2 (hdr ++ m ++ rest))
   else if l0 =? 127 then (be_value (take 8 (hdr ++ m ++ rest)), drop 8 (hdr ++ m ++ rest))
   else (-1, hdr ++ m ++ rest)) = (n, m ++ rest) ->
  decode_frame (op :: l0 :: hdr ++ m ++ rest) = Some (op, m, rest).
Proof.
  intros Hn Hm Hhdr. unfold decode_frame. rewrite Hhdr.
  rewrite length_app, (proj2 (Z.leb_le 0 n) Hn). simpl.
  rewrite (proj2 (Z.leb_le _ _)) by lia.
  rewrite <- Hm, Nat2Z.id, take_app_length, drop_app_length. done.
Qed.

(** *** Claims *)

(** C17 (roundtrip): a frame written by [fill_text_frame] into an empty
    string decodes, at the head of any byte stream, to its opcode and
    its payload, and leaves the stream after it. *)
Theorem fill_text_frame_roundtrip m op rest :
  Z.of_nat (length m) < 2 ^ 64 ->
  decode_frame (fill_text_frame m op [] ++ rest) = Some (op, m, rest).
Proof.
  intros Hlen. unfold fill_text_frame. rewrite app_nil_l.
  set (n := Z.of_nat (length m)).
  destruct (Z.leb_spec 126 n) as [H126|H126]; [destruct (Z.ltb_spec 65535 n) as [Hb|Hb]|];
    cbn [app]; rewrite <- ?app_assoc.
  - apply (decode_after_header _ _ n); [lia|done|].
    replace (127 <? 126) with false by reflexivity.
    replace (127 =? 126) with false by reflexivity.
    replace (127 =? 127) with true by reflexivity.
    rewrite take_app_length', drop_app_length' by (symmetry; apply length_be_bytes).
    rewrite be_value_be_bytes, Z.mod_small by lia. done.
  - apply (decode_after_header _ _ n); [lia|done|].
    replace (126 <? 126) with false by reflexivity.
    replace (126 =? 126) with true by reflexivity.
    rewrite take_app_length', drop_app_length' by (symmetry; apply length_be_bytes).
    rewrite be_value_be_bytes, Z.mod_small by lia. done.
  - apply (decode_after_header _ _ n [] _ _ ltac:(lia) eq_refl).
    rewrite (proj2 (Z.ltb_lt _ _)) by lia. done.
Qed.

(** The length field has one byte below 126, three up to
    65535 and nine above: the frame is the opcode, that field and the
    payload. *)
Theorem fill_text_frame_length m op :
  length (fill_text_frame m op []) =
    (1 + length_field_size (Z.of_nat (length m)) + length m)%nat.
Proof.
  unfold fill_text_frame, length_field_size. rewrite app_nil_l.
  set (n := Z.of_nat (length m)).
  destruct (Z.leb_spec 126 n); [destruct (Z.ltb_spec 65535 n)|];
    cbn [app length]; rewrite ?length_app, ?length_be_bytes;
    [rewrite (proj2 (Z.ltb_ge n 126)), (proj2 (Z.leb_gt n 65535)) by lia
    |rewrite (proj2 (Z.ltb_ge n 126)), (proj2 (Z.leb_le n 65535)) by lia
    |rewrite (proj2 (Z.ltb_lt n 126)) by lia]; cbn; lia.
Qed.

(** C38 (type): every byte of a frame is a byte, and the second byte has
    its mask bit clear (server frames are unmasked), when the opcode and
    the payload are bytes and the payload is shorter than 2^64. *)
Theorem fill_text_frame_bytes m op :
  0 <= op < 256 -> Forall (fun b => 0 <= b < 256) m -> Z.of_nat (length m) < 2 ^ 64 ->
  Forall (fun b => 0 <= b < 256) (fill_text_frame m op [])
  /\ exists b1, nth_error (fill_text_frame m op []) 1 = Some b1 /\ 0 <= b1 < 128.
Proof.
  intros Hop Hm Hlen. unfold fill_text_frame. rewrite app_nil_l.
  set (n := Z.of_nat (length m)).
  assert (0 <= n) by lia.
  destruct (Z.leb_spec 126 n); [destruct (Z.ltb_spec 65535 n)|]; cbn [app];
    (split; [|eexists; split; [reflexivity|lia]]);
    (constructor; [lia|]); (constructor; [lia|]);
    try (apply Forall_app; split; [apply be_bytes_bounded|]); done.
Qed.

(** The closing payload is the status, big-endian on two
    bytes, then the reason, and nothing else: no FIN/opcode byte and no
    length field (the open question of the spec). *)
Theorem fill_closing_frame_layout status reason :
  0 <= status < 65536 ->
  fill_closing_frame status reason [] = be_bytes 2 status ++ reason
  /\ be_value (take 2 (fill_closing_frame status reason [])) = status.
Proof.
  intros Hs. assert (fill_closing_frame status reason [] = be_bytes 2 status ++ reason) as E.
  { unfold fill_closing_frame. cbn [be_bytes Z.of_nat]. rewrite Z.mul_0_r, Z.shiftr_0_r. done. }
  split; [done|]. rewrite E, take_app_length' by (symmetry; apply length_be_bytes).
  rewrite be_value_be_bytes, Z.mod_small by lia. done.
Qed.

(** *** Concrete frames *)

Definition hello : bytes := bytes_of_string "hello".

Lemma fill_text_frame_roundtrip_witness :
  Z.of_nat (length hello) < 2 ^ 64
  /\ decode_frame (fill_text_frame hello one_fragment_text [] ++ [7]) =
       Some (one_fragment_text, hello, [7]).
Proof.
  assert (Z.of_nat (length hello) < 2 ^ 64) as H by (vm_compute; reflexivity).
  split; [exact H|]. exact (fill_text_frame_roundtrip hello one_fragment_text [7] H).
Defined.

(** The thresholds of RFC 6455 for payloads of 0, 125, 126,
    65535 and 65536 bytes: length fields of 1, 1, 3, 3 and 9 bytes. *)
Example length_field_thresholds :
  map length_field_size [0; 125; 126; 65535; 65536] = [1; 1; 3; 3; 9]%nat
  /\ length (fill_text_frame (repeat 0 126) one_fragment_text []) = 130%nat.
Proof. split; vm_compute; reflexivity. Qed.

Lemma fill_text_frame_bytes_witness :
  0 <= one_fragment_text < 256 /\ Forall (fun b => 0 <= b < 256) hello
  /\ Z.of_nat (length hello) < 2 ^ 64
  /\ Forall (fun b => 0 <= b < 256) (fill_text_frame hello one_fragment_text []).
Proof.
  assert (0 <= one_fragment_text < 256) as H1 by (unfold one_fragment_text; lia).
  assert (Forall (fun b => 0 <= b < 256) hello) as H2
    by (repeat constructor; vm_compute; discriminate).
  assert (Z.of_nat (length hello) < 2 ^ 64) as H3 by (vm_compute; reflexivity).
  split; [exact H1|]. split; [exact H2|]. split; [exact H3|].
  exact (proj1 (fill_text_frame_bytes hello one_fragment_text H1 H2 H3)).
Defined.

Lemma fill_closing_frame_layout_witness :
  0 <= normal < 65536
  /\ fill_closing_frame normal (bytes_of_string "bye") [] = [3; 232] ++ bytes_of_string "bye".
Proof.
  assert (0 <= normal < 65536) as H by (unfold normal; lia).
  split; [exact H|].
  rewrite (proj1 (fill_closing_frame_layout normal (bytes_of_string "bye") H)).
  reflexivity.
Defined.

End WsFrame.
