(* ===== verification/WsConnection.v ===== *)
(** The push connection (src/ws/ws_connection.h, ws_connection.cpp;
    socket teardown in src/connection.cpp).  The object is the record
    [WSConnection] (its fields [uri_], [id_], [session_id_], [closed_],
    [send_q_]); every method is a function from the object to the new
    object and the list of effects it performs, in program order: the
    lifecycle notifications into [WebServer::ws_on*], the socket
    operations it issues, and its log lines where they matter.  Each
    method runs whole: the code holds [send_q_mx_] around the queue
    updates, and [closed_] is a compare-and-swap. *)

From S2P Require Import Prelude WsFrame.

Module WsConn.

(** [boost::system::error_code] as the handlers test it. *)
Inductive error_code := ec_ok | operation_aborted | io_error.

#[global] Instance error_code_eq_dec : EqDecision error_code.
Proof. solve_decision. Defined.

(** Calls into [WebServer::ws_onopen], [ws_onerror], [ws_onclose],
    [ws_onmessageout]. *)
Inductive Notification :=
| OnOpen (id sid : Z) (uri : bytes)
| OnError (id : Z) (ec : error_code)
| OnClose (id : Z) (uri : bytes)
| OnMessageOut (id : Z) (frame : bytes).

(** What [handle_read] logs about the two bytes it read. *)
Inductive ReadLog := ShortRead | UnmaskedFrame | ClientCloseFrame | MaskedFrame.

Inductive Effect :=
| Notify (n : Notification)
| AsyncRead (num_bytes : nat)
| AsyncWrite (buf : bytes)
| SockCancel | SockShutdown | SockClose
| LogRead (l : ReadLog)
| LogOverflow (qsz : nat).

Record WSConnection := mkConn {
  uri_ : bytes;
  id_ : Z;
  session_id_ : Z;
  closed_ : bool;
  send_q_ : list bytes
}.

(** The constructor: [closed_(false)], an empty queue. *)
Definition make (uri : bytes) (sid id : Z) : WSConnection := mkConn uri id sid false [].

Definition set_closed (c : WSConnection) : WSConnection :=
  mkConn (uri_ c) (id_ c) (session_id_ c) true (send_q_ c).
Definition set_q (c : WSConnection) (q : list bytes) : WSConnection :=
  mkConn (uri_ c) (id_ c) (session_id_ c) (closed_ c) q.

(** [opcode_one]: a single text fragment with FIN set. *)
Definition opcode_one : byte := WsFrame.one_fragment_text.

(** [WSConnection::stop]: the compare-and-swap of [closed_] from false
    to true; the winner notifies and tears the socket down
    ([_cancel], [_shutdown], [_close]). *)
Definition stop (c : WSConnection) : WSConnection * list Effect :=
  if closed_ c then (c, [])
  else (set_closed c,
        [Notify (OnClose (id_ c) (uri_ c)); SockCancel; SockShutdown; SockClose]).

(** [WSConnection::Start]: notify, then read two bytes. *)
Definition Start (c : WSConnection) : WSConnection * list Effect :=
  (c, [Notify (OnOpen (id_ c) (session_id_ c) (uri_ c)); AsyncRead 2]).

(** The inspection of the two bytes in [handle_read].  The close test
    is written [8 == opcode & 0x0f], which C++ reads as
    [(8 == opcode) & 0x0f]. *)
Definition classify_read (bytes_read : nat) (buf : bytes) : ReadLog :=
  match bytes_read, buf with
  | 2%nat, opcode :: mask :: _ =>
      if mask <? 128 then UnmaskedFrame
      else if negb (Z.land (Z.b2z (8 =? opcode)) 15 =? 0) then ClientCloseFrame
      else MaskedFrame
  | _, _ => ShortRead
  end.

(** [WSConnection::handle_read]: whatever was read, stop. *)
Definition handle_read (c : WSConnection) (ec : error_code) (bytes_read : nat) (buf : bytes)
  : WSConnection * list Effect :=
  let e1 := if bool_decide (ec <> ec_ok /\ ec <> operation_aborted)
            then [Notify (OnError (id_ c) ec)] else [] in
  let '(c', e2) := stop c in
  (c', e1 ++ [LogRead (classify_read bytes_read buf)] ++ e2).

Section Write.
(** Whether [WebServer::ws_onmessageout] is set: [write] tests it. *)
Variable onmessageout_set : bool.

(** [WSConnection::write]: encode, notify, append under the lock,
    stop on overflow (the frame stays queued), and start a write when
    the queue holds exactly this frame. *)
Definition write (c : WSConnection) (message : bytes) (opcode : byte)
  : WSConnection * list Effect :=
  let result := WsFrame.fill_text_frame message opcode [] in
  let e0 := if onmessageout_set then [Notify (OnMessageOut (id_ c) result)] else [] in
  let c1 := set_q c (send_q_ c ++ [result]) in
  let qsz := length (send_q_ c1) in
  let '(c2, e1) :=
    if Nat.ltb 100 qsz then let '(c', es) := stop c1 in (c', LogOverflow qsz :: es)
    else (c1, []) in
  let e2 := match send_q_ c2 with
            | [front] => [AsyncWrite front]
            | _ => []
            end in
  (c2, e0 ++ e1 ++ e2).

(** [Forward(const std::string&)]: [write] with the default opcode. *)
Definition Forward_message (c : WSConnection) (message : bytes) : WSConnection * list Effect :=
  write c message opcode_one.
End Write.

(** [WSConnection::handle_write]: on error, notify unless aborted, clear
    the queue and stop; on success, drop the front and write the next
    one if any. *)
Definition handle_write (c : WSConnection) (ec : error_code) : WSConnection * list Effect :=
  if bool_decide (ec <> ec_ok) then
    let e1 := if bool_decide (ec <> operation_aborted)
              then [Notify (OnError (id_ c) ec)] else [] in
    let '(c', e2) := stop (set_q c []) in
    (c', e1 ++ e2)
  else
    let q := tail (send_q_ c) in
    (set_q c q, match q with
                | front :: _ => [AsyncWrite front]
                | [] => []
                end).

(** [Forward(uint&)]: the status is not used, the connection stops. *)
Definition Forward_status (c : WSConnection) (status : Z) : WSConnection * list Effect :=
  stop c.

(** [~WSConnection]: stop if nobody did. *)
Definition destroy (c : WSConnection) : WSConnection * list Effect :=
  if closed_ c then (c, []) else stop c.

(** ** Lemmas on the handlers *)

Lemma stop_closed c : closed_ (stop c).1 = true.
Proof. unfold stop. destruct (closed_ c) eqn:E; done. Qed.

Lemma stop_q c : send_q_ (stop c).1 = send_q_ c.
Proof. unfold stop. destruct (closed_ c) eqn:E; done. Qed.

Lemma stop_id c : id_ (stop c).1 = id_ c /\ uri_ (stop c).1 = uri_ c.
Proof. unfold stop. destruct (closed_ c) eqn:E; done. Qed.

Lemma write_keeps_closed b c m op :
  closed_ c = true -> closed_ (write b c m op).1 = true.
Proof.
  intros Hc. unfold write. cbn [set_q closed_ send_q_].
  destruct (Nat.ltb 100 _); [|done].
  destruct (stop _) as [c' es] eqn:E. pose proof (stop_closed (set_q c (send_q_ c ++ [WsFrame.fill_text_frame m op []]))) as H.
  rewrite E in H. done.
Qed.

Definition same_ids (c c' : WSConnection) : Prop :=
  id_ c' = id_ c /\ session_id_ c' = session_id_ c /\ uri_ c' = uri_ c.

Lemma stop_same_ids c : same_ids c (stop c).1.
Proof. unfold stop, same_ids. destruct (closed_ c); done. Qed.

Lemma handlers_same_ids c b m op ec n buf :
  same_ids c (write b c m op).1 /\ same_ids c (handle_read c ec n buf).1
  /\ same_ids c (handle_write c ec).1 /\ same_ids c (destroy c).1.
Proof.
  unfold write, handle_read, handle_write, destroy, stop, same_ids.
  repeat split; repeat case_match; simplify_eq; simpl; done.
Qed.

(** The close test of [handle_read] reads [8 == opcode & 0x0f]
    as [(8 == opcode) & 0x0f]: a client close frame [0x88] with the mask
    bit is logged as an ordinary masked frame, and only the byte [0x08]
    (FIN clear) as a close frame.  The connection stops either way. *)
Example client_close_frame_misclassified :
  classify_read 2 [136; 128] = MaskedFrame /\ classify_read 2 [8; 128] = ClientCloseFrame
  /\ classify_read 2 [129; 5] = UnmaskedFrame /\ classify_read 1 [136] = ShortRead.
Proof. repeat split; reflexivity. Qed.

End WsConn.
