(* ===== verification/Connection.v ===== *)
(** The base class of the HTTP and WebSocket connections (src/connection.h,
    src/connection.cpp): [Connection] holds the socket and the params;
    [_cancel], [_shutdown] and [_close] tear the socket down, logging an
    error instead of throwing.  The record [TeardownOps] holds the three
    operations and [cpp_ops] the specialisations of connection.cpp for
    [TCPSocket] and [SSLSocket]. *)

From S2P Require Import Prelude WsConnection.

Module Connection.

(** What the teardown calls change of the asio socket: whether its
    pending operations were cancelled, whether it was shut down, and
    whether it is open. *)
Record Socket := mkSocket {
  ops_cancelled : bool;
  shut_down : bool;
  sock_open : bool
}.

(** [class Connection]: the socket and the [params] (any type here). *)
Record Connection (P : Type) := mkConnection {
  params : P;
  sock_ : Socket
}.

(** [Connection(sock, p)]: the socket handed over, open. *)
Definition make {P} (p : P) : Connection P := mkConnection P p (mkSocket false false true).

(** The log lines of the teardown calls. *)
Inductive TLog :=
| LogCancel (ec : WsConn.error_code)    (* "Exception happened while socket cancel" *)
| LogShutdown (ec : WsConn.error_code)  (* "Exception happened while socket shutdown" *)
| LogClose (ec : WsConn.error_code).    (* "Exception happened while socket close" *)

Definition log_if (ec : WsConn.error_code) (l : TLog) : list TLog :=
  if decide (ec = WsConn.ec_ok) then [] else [l].

(** [Connection<TCPSocket>::_cancel] and [Connection<SSLSocket>::_cancel]
    (on [lowest_layer()]): [cancel(ec)], then log if [ec]; a failed
    cancel changes nothing. *)
Definition _cancel (s : Socket) (ec : WsConn.error_code) : Socket * list TLog :=
  (if decide (ec = WsConn.ec_ok) then mkSocket true (shut_down s) (sock_open s) else s,
   log_if ec (LogCancel ec)).

(** [_shutdown]: [shutdown(shutdown_both, ec)], then log if [ec]. *)
Definition _shutdown (s : Socket) (ec : WsConn.error_code) : Socket * list TLog :=
  (if decide (ec = WsConn.ec_ok) then mkSocket (ops_cancelled s) true (sock_open s) else s,
   log_if ec (LogShutdown ec)).

(** [_close]: [close(ec)], then log if [ec]; asio releases the
    descriptor even when [close] reports an error. *)
Definition _close (s : Socket) (ec : WsConn.error_code) : Socket * list TLog :=
  (mkSocket (ops_cancelled s) (shut_down s) false, log_if ec (LogClose ec)).

(** The three operations, as a caller of [Connection] sees them. *)
Record TeardownOps := mkTeardownOps {
  cancel_op : Socket -> WsConn.error_code -> Socket * list TLog;
  shutdown_op : Socket -> WsConn.error_code -> Socket * list TLog;
  close_op : Socket -> WsConn.error_code -> Socket * list TLog
}.

(** The specialisations of connection.cpp. *)
Definition cpp_ops : TeardownOps := mkTeardownOps _cancel _shutdown _close.

(** [_cancel(); _shutdown(); _close();], the body of [stop] in
    [HTTPConnection] and [WSConnection], with the outcome of each call. *)
Definition teardown (ops : TeardownOps) (s : Socket) (ec1 ec2 ec3 : WsConn.error_code)
  : Socket * list TLog :=
  let '(s1, l1) := cancel_op ops s ec1 in
  let '(s2, l2) := shutdown_op ops s1 ec2 in
  let '(s3, l3) := close_op ops s2 ec3 in
  (s3, l1 ++ l2 ++ l3).

(** The error code a log line reports. *)
Definition log_ec (l : TLog) : WsConn.error_code :=
  match l with LogCancel ec | LogShutdown ec | LogClose ec => ec end.

(** ** Lemmas *)

Lemma log_if_nil ec l : log_if ec l = [] <-> ec = WsConn.ec_ok.
Proof. unfold log_if. case_decide; split; done || discriminate. Qed.

Lemma log_if_failed ec l : log_ec l = ec -> Forall (fun l' => log_ec l' <> WsConn.ec_ok) (log_if ec l).
Proof. unfold log_if. intros <-. case_decide; by constructor. Qed.

(** [close] releases the descriptor whatever the earlier calls did. *)
Lemma teardown_cpp_closed s ec1 ec2 ec3 : sock_open (teardown cpp_ops s ec1 ec2 ec3).1 = false.
Proof. done. Qed.

(** C28 (error): the teardown always closes and never throws.  Whatever
    the three calls report, [stop]'s sequence leaves the socket closed,
    cancels and shuts down exactly when those calls succeed (or already
    had), and writes one log line per failed call, none when all
    succeed. *)
Theorem teardown_closes s ec1 ec2 ec3 :
  let '(s', logs) := teardown cpp_ops s ec1 ec2 ec3 in
  sock_open s' = false
  /\ (ops_cancelled s' = true <-> ops_cancelled s = true \/ ec1 = WsConn.ec_ok)
  /\ (shut_down s' = true <-> shut_down s = true \/ ec2 = WsConn.ec_ok)
  /\ (logs = [] <-> ec1 = WsConn.ec_ok /\ ec2 = WsConn.ec_ok /\ ec3 = WsConn.ec_ok)
  /\ Forall (fun l => log_ec l <> WsConn.ec_ok) logs.
Proof.
  unfold teardown, cpp_ops; simpl. split; [apply (teardown_cpp_closed s ec1 ec2 ec3)|].
  split; [unfold _cancel, _shutdown; repeat case_decide; simpl; intuition congruence|].
  split; [unfold _cancel, _shutdown; repeat case_decide; simpl; intuition congruence|].
  split.
  - split; [|intros (-> & -> & ->); reflexivity].
    intros [H1 [H2 H3]%app_eq_nil]%app_eq_nil. by apply log_if_nil in H1, H2, H3.
  - apply Forall_app; split; [by apply log_if_failed|]. apply Forall_app; split; by apply log_if_failed.
Qed.

End Connection.
