(* ===== verification/WsRuntime.v ===== *)
(** The push connection inside the asynchronous runtime
    (src/ws/ws_connection.cpp, as boost::asio drives it).  A [World]
    holds the connection object, the socket (open or closed), the
    operations outstanding on it (the two-byte read of [Start], at most
    one [async_write] with its buffer), the frames the socket has
    written, and the notifications fired.  [wstep] has one rule per way
    control enters the object: a push or a close forwarded by the server
    registry, the completion of the read, the completion of the write,
    and the destructor once nothing refers to the object.  Completions
    on a closed socket carry an error ([operation_aborted] for the
    cancelled ones).  The ghost fields [enqueued] (every frame passed
    to [write], in order) and [cleared] (a failed write emptied the
    queue) state FIFO delivery. *)

From S2P Require Import Prelude WsFrame WsConnection.

Module WsRuntime.

Import WsConn.

Record World := mkWorld {
  conn : WSConnection;
  sock_open : bool;
  reading : bool;
  writing : option bytes;
  wire : list bytes;
  events : list Notification;
  enqueued : list bytes;
  cleared : bool;
  alive : bool
}.

Definition set_conn (w : World) (c : WSConnection) : World :=
  mkWorld c (sock_open w) (reading w) (writing w) (wire w) (events w) (enqueued w)
    (cleared w) (alive w).

(** One effect on the world: notifications are recorded, reads and
    writes become outstanding, [_close] closes the socket; [_cancel]
    shows in the error codes of the completions; logging changes
    nothing. *)
Definition apply_effect (w : World) (e : Effect) : World :=
  match e with
  | Notify n => mkWorld (conn w) (sock_open w) (reading w) (writing w) (wire w)
                  (events w ++ [n]) (enqueued w) (cleared w) (alive w)
  | AsyncRead _ => mkWorld (conn w) (sock_open w) true (writing w) (wire w)
                     (events w) (enqueued w) (cleared w) (alive w)
  | AsyncWrite b => mkWorld (conn w) (sock_open w) (reading w) (Some b) (wire w)
                      (events w) (enqueued w) (cleared w) (alive w)
  | SockClose => mkWorld (conn w) false (reading w) (writing w) (wire w)
                   (events w) (enqueued w) (cleared w) (alive w)
  | SockCancel | SockShutdown | LogRead _ | LogOverflow _ => w
  end.

Definition run_effects (w : World) (es : list Effect) : World := fold_left apply_effect es w.

(** A method call: the object after it, then its effects in order. *)
Definition run (w : World) (r : WSConnection * list Effect) : World :=
  run_effects (set_conn w r.1) r.2.

(** The error codes a completion may carry: success, also on a socket
    closed since (asio may have completed the operation before the
    close and queued its handler), an I/O error, and [operation_aborted]
    for an operation the close cancelled. *)
Inductive ec_allowed : bool -> error_code -> Prop :=
| eca_ok open : ec_allowed open ec_ok
| eca_io open : ec_allowed open io_error
| eca_aborted : ec_allowed false operation_aborted.

(** The world before a completion of the read or of the write. *)
Definition read_completed (w : World) : World :=
  mkWorld (conn w) (sock_open w) false (writing w) (wire w) (events w) (enqueued w)
    (cleared w) (alive w).

Definition write_completed (w : World) (f : bytes) (ec : error_code) : World :=
  mkWorld (conn w) (sock_open w) (reading w) None
    (if bool_decide (ec = ec_ok) then wire w ++ [f] else wire w) (events w) (enqueued w)
    (cleared w || bool_decide (ec <> ec_ok)) (alive w).

Definition pushed (w : World) (frame : bytes) : World :=
  mkWorld (conn w) (sock_open w) (reading w) (writing w) (wire w) (events w)
    (enqueued w ++ [frame]) (cleared w) (alive w).

Definition destroyed (w : World) : World :=
  mkWorld (conn w) (sock_open w) (reading w) (writing w) (wire w) (events w)
    (enqueued w) (cleared w) false.

(** A new connection on an open socket, after [Start]. *)
Definition start_world (c : WSConnection) : World :=
  run (mkWorld c true false None [] [] [] false true) (Start c).

Section Runtime.
Variable onmessageout_set : bool.

Inductive wstep : World -> World -> Prop :=
| step_push w msg :
    alive w = true ->
    wstep w (run (pushed w (WsFrame.fill_text_frame msg opcode_one []))
               (Forward_message onmessageout_set (conn w) msg))
| step_close w status :
    alive w = true ->
    wstep w (run w (Forward_status (conn w) status))
| step_read_done w ec n buf :
    reading w = true -> ec_allowed (sock_open w) ec ->
    (ec = ec_ok -> n = 2%nat) -> length buf = n ->
    wstep w (run (read_completed w) (handle_read (conn w) ec n buf))
| step_write_done w f ec :
    writing w = Some f -> ec_allowed (sock_open w) ec ->
    wstep w (run (write_completed w f ec) (handle_write (conn w) ec))
| step_destroy w :
    alive w = true -> reading w = false -> writing w = None ->
    wstep w (run (destroyed w) (destroy (conn w))).

(** The worlds a connection built by the upgrade can reach. *)
Inductive reachable : World -> Prop :=
| reach_start uri sid id : reachable (start_world (make uri sid id))
| reach_step w w' : reachable w -> wstep w w' -> reachable w'.
End Runtime.

(** ** Effects, field by field *)

Fixpoint notes (es : list Effect) : list Notification :=
  match es with
  | [] => []
  | Notify n :: r => n :: notes r
  | _ :: r => notes r
  end.

Definition last_write (es : list Effect) (dflt : option bytes) : option bytes :=
  fold_left (fun acc e => match e with AsyncWrite b => Some b | _ => acc end) es dflt.

Definition opens_read (es : list Effect) : bool :=
  existsb (fun e => match e with AsyncRead _ => true | _ => false end) es.

Definition closes_sock (es : list Effect) : bool :=
  existsb (fun e => match e with SockClose => true | _ => false end) es.

Lemma run_effects_fields w es :
  let w' := run_effects w es in
  conn w' = conn w /\ wire w' = wire w /\ enqueued w' = enqueued w
  /\ cleared w' = cleared w /\ alive w' = alive w
  /\ events w' = events w ++ notes es
  /\ writing w' = last_write es (writing w)
  /\ reading w' = reading w || opens_read es
  /\ sock_open w' = sock_open w && negb (closes_sock es).
Proof.
  revert w. induction es as [|e es IH]; intros w; simpl.
  - rewrite app_nil_r, orb_false_r, andb_true_r. done.
  - destruct (IH (apply_effect w e)) as (H1 & H2 & H3 & H4 & H5 & H6 & H7 & H8 & H9).
    unfold run_effects in *. simpl in *.
    destruct e; simpl in *; rewrite H1, H2, H3, H4, H5, H6, H7, H8, H9;
      rewrite <- ?app_assoc, ?orb_true_r, ?andb_false_r; repeat split; try done.
Qed.

Lemma run_fields w r :
  let w' := run w r in
  conn w' = r.1 /\ wire w' = wire w /\ enqueued w' = enqueued w
  /\ cleared w' = cleared w /\ alive w' = alive w
  /\ events w' = events w ++ notes r.2
  /\ writing w' = last_write r.2 (writing w)
  /\ reading w' = reading w || opens_read r.2
  /\ sock_open w' = sock_open w && negb (closes_sock r.2).
Proof. apply run_effects_fields. Qed.

(** ** The invariant *)

Definition is_close (n : Notification) : bool :=
  match n with OnClose _ _ => true | _ => false end.

(** How many times [ws_onclose] fired. *)
Fixpoint close_count (ev : list Notification) : nat :=
  match ev with
  | [] => O
  | n :: r => if is_close n then S (close_count r) else close_count r
  end.

(** What holds in every reachable world: [ws_onclose] fired once if
    [closed_] is set and never otherwise; the write in flight is the
    front of the queue (none when it is empty); the socket is open until
    [stop]; an open connection queues at most 100 frames; the wire
    followed by the queue is a sublist of the frames written, equal to
    them as long as no failed write emptied the queue; a destroyed
    object has nothing outstanding and is closed. *)
Definition inv (w : World) : Prop :=
  close_count (events w) = (if closed_ (conn w) then 1 else 0)%nat
  /\ writing w = head (send_q_ (conn w))
  /\ sock_open w = negb (closed_ (conn w))
  /\ (closed_ (conn w) = false -> (length (send_q_ (conn w)) <= 100)%nat)
  /\ (wire w ++ send_q_ (conn w)) `sublist_of` enqueued w
  /\ (cleared w = false -> wire w ++ send_q_ (conn w) = enqueued w)
  /\ (alive w = false -> reading w = false /\ writing w = None /\ closed_ (conn w) = true).

Lemma close_count_app l1 l2 : close_count (l1 ++ l2) = (close_count l1 + close_count l2)%nat.
Proof. induction l1 as [|n l1 IH]; simpl; [done|]. destruct (is_close n); lia. Qed.

Ltac run_simpl :=
  match goal with
  | |- context [run ?w ?r] =>
      let H := fresh "R" in
      destruct (run_fields w r) as (H & ? & ? & ? & ? & ? & ? & ? & ?);
      simpl in *;
      repeat match goal with
             | E : ?x = _ |- _ => lazymatch x with
                                  | context [run w r] => rewrite E; clear E
                                  end
             end
  end.

Lemma inv_start uri sid id : inv (start_world (make uri sid id)).
Proof. unfold inv. simpl. repeat split; try done; try (intros [=]); try constructor; lia. Qed.

Lemma fifo_push (wr q enq : list bytes) f :
  (wr ++ q) `sublist_of` enq -> (wr ++ q ++ [f]) `sublist_of` (enq ++ [f]).
Proof. intros H. rewrite app_assoc. by apply sublist_app. Qed.

Lemma fifo_push_eq (wr q enq : list bytes) f :
  wr ++ q = enq -> wr ++ q ++ [f] = enq ++ [f].
Proof. intros H. by rewrite app_assoc, H. Qed.

Lemma fifo_clear (wr q enq : list bytes) :
  (wr ++ q) `sublist_of` enq -> (wr ++ []) `sublist_of` enq.
Proof. intros H. rewrite app_nil_r. etransitivity; [|exact H]. by apply sublist_inserts_r. Qed.

Lemma match_snoc_single {A B} (l : list A) (f : A) (a : A -> B) (b : B) :
  match l ++ [f] with [x] => a x | _ => b end = match l with [] => a f | _ => b end.
Proof. destruct l as [|x [|y r]]; done. Qed.

Lemma last_write_app es1 es2 d : last_write (es1 ++ es2) d = last_write es2 (last_write es1 d).
Proof. unfold last_write. by rewrite fold_left_app. Qed.

Ltac inv_intro :=
  intros (Hcc & Hwr & Hso & Hq & Hsub & Hcl & Hal).

Ltac inv_close :=
  simpl in *; rewrite ?close_count_app, ?orb_false_r, ?orb_true_r, <- ?app_assoc; simpl;
  repeat match goal with |- _ /\ _ => split end;
  repeat match goal with
         | H : ?b = true |- context [if ?b then _ else _] => rewrite H
         | H : ?b = false |- context [if ?b then _ else _] => rewrite H
         | H : ?b = true |- context [negb ?b] => rewrite H
         | H : ?b = false |- context [negb ?b] => rewrite H
         end; simpl in *;
  try done; try congruence; try lia;
  try (match goal with
       | |- true = false -> _ => intros [=]
       | |- false = true -> _ => intros [=]
       end);
  try (intros ?; congruence);
  try (let Ha := fresh in intros Ha;
       match goal with
       | Hal : alive _ = false -> _ |- _ => destruct (Hal Ha) as (? & ? & ?)
       end; repeat split; congruence);
  try (intros; lia).

Lemma inv_stop w : inv w -> inv (run w (stop (conn w))).
Proof.
  inv_intro. unfold stop. destruct (closed_ (conn w)) eqn:Hc; rewrite ?Hc in *;
    unfold inv; run_simpl; inv_close.
Qed.

Lemma inv_read w ec n buf :
  inv w -> inv (run (read_completed w) (handle_read (conn w) ec n buf)).
Proof.
  inv_intro. unfold handle_read, stop.
  destruct (closed_ (conn w)) eqn:Hc; destruct (bool_decide _);
    unfold inv; run_simpl; inv_close.
Qed.

Lemma inv_write_done w f ec :
  inv w -> writing w = Some f -> inv (run (write_completed w f ec) (handle_write (conn w) ec)).
Proof.
  inv_intro. intros Hf. rewrite Hf in Hwr.
  destruct (send_q_ (conn w)) as [|f' r] eqn:Hq0; [done|]. injection Hwr as <-.
  pose proof (fifo_clear _ _ _ Hsub) as Hclr.
  unfold handle_write, stop.
  destruct ec; destruct (closed_ (conn w)) eqn:Hc; try destruct r as [|f2 r];
    rewrite ?Hq0; unfold inv; run_simpl; rewrite ?Hq0, ?Hc; inv_close.
Qed.

Lemma inv_push b w msg :
  inv w -> alive w = true ->
  inv (run (pushed w (WsFrame.fill_text_frame msg opcode_one []))
         (Forward_message b (conn w) msg)).
Proof.
  inv_intro. intros Ha. set (f := WsFrame.fill_text_frame msg opcode_one []).
  pose proof (fifo_push _ _ _ f Hsub) as Hp.
  pose proof (fun H => fifo_push_eq _ _ _ f (Hcl H)) as Hpe.
  unfold Forward_message, write, stop. fold f. cbn [send_q_ set_q closed_].
  rewrite length_app. simpl length.
  destruct (Nat.ltb_spec 100 (length (send_q_ (conn w)) + 1)) as [Hov|Hov];
    destruct (closed_ (conn w)) eqn:Hc; destruct b;
    cbn [closed_ send_q_ set_closed set_q];
    rewrite match_snoc_single; destruct (send_q_ (conn w)) as [|x r] eqn:Hq0;
    simpl in Hov; try lia;
    unfold inv; run_simpl; rewrite ?Hq0, ?Hc, ?last_write_app; inv_close;
    rewrite ?length_app; simpl; lia.
Qed.

Lemma inv_destroy w :
  inv w -> reading w = false -> writing w = None -> inv (run (destroyed w) (destroy (conn w))).
Proof.
  inv_intro. intros Hr Hw. unfold destroy, stop.
  destruct (closed_ (conn w)) eqn:Hc; unfold inv; run_simpl; rewrite ?Hc; inv_close.
Qed.

Lemma inv_step b w w' : inv w -> wstep b w w' -> inv w'.
Proof.
  intros Hi Hs. destruct Hs.
  - by apply inv_push.
  - by apply inv_stop.
  - by apply inv_read.
  - by apply inv_write_done.
  - by apply inv_destroy.
Qed.

Lemma inv_reachable b w : reachable b w -> inv w.
Proof. induction 1; [apply inv_start|by eapply inv_step]. Qed.

(** A push forwarded by the registry. *)
Definition push (b : bool) (w : World) (msg : bytes) : World :=
  run (pushed w (WsFrame.fill_text_frame msg opcode_one [])) (Forward_message b (conn w) msg).

Definition push_all (b : bool) (w : World) (msgs : list bytes) : World :=
  fold_left (push b) msgs w.

Definition frames (msgs : list bytes) : list bytes :=
  map (fun m => WsFrame.fill_text_frame m opcode_one []) msgs.

Lemma push_fields b w msg :
  let w' := push b w msg in
  let f := WsFrame.fill_text_frame msg opcode_one [] in
  send_q_ (conn w') = send_q_ (conn w) ++ [f]
  /\ closed_ (conn w') = closed_ (conn w) || Nat.ltb 100 (length (send_q_ (conn w)) + 1)
  /\ close_count (events w') =
       (close_count (events w)
        + if negb (closed_ (conn w)) && Nat.ltb 100 (length (send_q_ (conn w)) + 1)
          then 1 else 0)%nat.
Proof.
  unfold push, Forward_message, write, stop. cbn [send_q_ set_q closed_].
  rewrite length_app. simpl length.
  destruct (Nat.ltb 100 (length (send_q_ (conn w)) + 1));
    destruct (closed_ (conn w)) eqn:Hc; destruct b;
    cbn [closed_ send_q_ set_closed set_q]; rewrite match_snoc_single;
    destruct (send_q_ (conn w)); run_simpl; rewrite ?close_count_app; simpl; auto with lia.
Qed.

Lemma push_all_open b w msgs :
  closed_ (conn w) = false -> (length (send_q_ (conn w)) + length msgs <= 100)%nat ->
  closed_ (conn (push_all b w msgs)) = false
  /\ send_q_ (conn (push_all b w msgs)) = send_q_ (conn w) ++ frames msgs
  /\ close_count (events (push_all b w msgs)) = close_count (events w).
Proof.
  revert w. induction msgs as [|m msgs IH]; intros w Hc Hl; simpl.
  - by rewrite app_nil_r.
  - destruct (push_fields b w m) as (Hq & Hcl & Hcc).
    rewrite Hc, (proj2 (Nat.ltb_ge _ _)) in Hcl by (simpl in Hl; lia).
    rewrite Hc, (proj2 (Nat.ltb_ge _ _)) in Hcc by (simpl in Hl; lia).
    simpl in Hcl, Hl.
    destruct (IH (push b w m)) as (H1 & H2 & H3); [done| |].
    { rewrite Hq, length_app. simpl. lia. }
    split; [done|]. rewrite H2, Hq, <- app_assoc. split; [done|]. rewrite H3, Hcc. simpl. lia.
Qed.

(** *** Claims *)

(** C13 (safety): idempotent close.  In every world the runtime can reach,
    [ws_onclose] has fired exactly once if the connection is closed and
    never otherwise, whatever interleaving of pushes, closes, read
    errors, write errors and destruction led there. *)
Theorem close_notified_once b w :
  reachable b w -> close_count (events w) = (if closed_ (conn w) then 1 else 0)%nat.
Proof. intros H. apply (inv_reachable b w H). Qed.

(** C15 (invariant): one write in flight.  The outstanding [async_write]
    is exactly the front of the queue, and there is none when the queue
    is empty; so a successful completion always pops a non-empty queue. *)
Theorem single_write_in_flight b w :
  reachable b w -> writing w = head (send_q_ (conn w)).
Proof. intros H. apply (inv_reachable b w H). Qed.

(** C16 (bounds): while the connection is open its queue holds at most 100
    frames. *)
Theorem queue_bounded_while_open b w :
  reachable b w -> closed_ (conn w) = false -> (length (send_q_ (conn w)) <= 100)%nat.
Proof. intros H. apply (inv_reachable b w H). Qed.

(** C14 (safety): FIFO delivery.  The frames on the wire followed by those
    still queued are a subsequence of the frames pushed, in push order;
    unless a failed write emptied the queue, nothing is lost either. *)
Theorem fifo_delivery b w :
  reachable b w ->
  (wire w ++ send_q_ (conn w)) `sublist_of` enqueued w
  /\ (cleared w = false -> wire w ++ send_q_ (conn w) = enqueued w).
Proof. intros H. destruct (inv_reachable b w H) as (_ & _ & _ & _ & ? & ? & _). done. Qed.

(** The overflow cut-off.  On a fresh connection whose
    writes never complete, up to 100 pushes are queued in order with the
    connection open; the 101st closes it, with one close notification,
    and is itself still queued. *)
Theorem overflow_at_101 b uri sid id msgs m :
  length msgs = 100%nat ->
  let w := push_all b (start_world (make uri sid id)) msgs in
  closed_ (conn w) = false /\ send_q_ (conn w) = frames msgs
  /\ closed_ (conn (push b w m)) = true
  /\ send_q_ (conn (push b w m)) = frames (msgs ++ [m])
  /\ close_count (events (push b w m)) = 1%nat.
Proof.
  intros Hl w.
  destruct (push_all_open b (start_world (make uri sid id)) msgs) as (H1 & H2 & H3);
    [done|simpl; lia|].
  fold w in H1, H2, H3. simpl in H2, H3.
  destruct (push_fields b w m) as (Hq & Hc & Hcc).
  rewrite H2 in Hq, Hc, Hcc. rewrite H1 in Hc, Hcc.
  unfold frames in *. rewrite length_map, Hl in Hc, Hcc.
  rewrite map_app. split; [done|]. split; [done|]. split; [done|]. split; [done|].
  rewrite Hcc, H3. done.
Qed.

Lemma step_same_ids b w w' :
  wstep b w w' -> same_ids (conn w) (conn w') /\ exists l, events w' = events w ++ l.
Proof.
  intros Hs. destruct Hs as [w msg _|w st _|w ec n buf _ _ _ _|w f ec _ _|w _ _ _];
    match goal with |- context [run ?w0 ?r] =>
      destruct (run_fields w0 r) as (Hc & _ & _ & _ & _ & He & _)
    end; rewrite Hc, He; (split; [|eexists; reflexivity]);
    pose proof (handlers_same_ids (conn w)) as Hh; simpl.
  - apply (Hh b msg opcode_one ec_ok 0%nat []).
  - apply stop_same_ids.
  - apply (Hh false [] 0 ec n buf).
  - apply (Hh false [] 0 ec 0%nat []).
  - apply (Hh false [] 0 ec_ok 0%nat []).
Qed.

(** Any read completion (a client frame, a close frame,
    an error) stops the connection: it is closed, its socket shut, and
    the close notification has fired exactly once. *)
Theorem read_completion_closes b w ec n buf :
  reachable b w ->
  let w' := run (read_completed w) (handle_read (conn w) ec n buf) in
  closed_ (conn w') = true /\ sock_open w' = false /\ close_count (events w') = 1%nat.
Proof.
  intros Hr w'.
  assert (closed_ (conn w') = true) as Hc.
  { unfold w'. destruct (run_fields (read_completed w) (handle_read (conn w) ec n buf)) as [-> _].
    unfold handle_read. destruct (stop (conn w)) as [c e] eqn:E.
    pose proof (stop_closed (conn w)) as H. rewrite E in H. done. }
  destruct (inv_read w ec n buf (inv_reachable b w Hr)) as (H1 & _ & H3 & _).
  fold w' in H1, H3. rewrite Hc in H1, H3. done.
Qed.

(** [closed_] goes from false to true at most once: no
    step reopens a closed connection. *)
Theorem closed_stays_closed b w w' :
  wstep b w w' -> closed_ (conn w) = true -> closed_ (conn w') = true.
Proof.
  intros Hs Hc. destruct Hs as [w msg _|w st _|w ec n buf _ _ _ _|w f ec _ _|w _ _ _];
    match goal with |- context [run ?w0 ?r] =>
      destruct (run_fields w0 r) as (-> & _)
    end; simpl;
    unfold Forward_message, write, Forward_status, handle_read, handle_write, destroy, stop;
    simpl; rewrite ?Hc; repeat case_match; simplify_eq; simpl; auto.
Qed.

(** The object reports its opening first: every reachable
    world's notifications begin with [ws_onopen] for its own id, session
    id and URI. *)
Theorem open_notified_first b w :
  reachable b w ->
  exists rest, events w = OnOpen (id_ (conn w)) (session_id_ (conn w)) (uri_ (conn w)) :: rest.
Proof.
  induction 1 as [uri sid id|w w' _ [rest IH] Hs]; [by eexists|].
  destruct (step_same_ids b w w' Hs) as [(Hi & Hs' & Hu) [l ->]].
  rewrite IH, Hi, Hs', Hu. by eexists.
Qed.

(** Destruction is a safety net: once the object is destroyed
    nothing is outstanding on its socket, it is closed, and the close
    notification has fired exactly once. *)
Theorem destroyed_is_closed b w :
  reachable b w -> alive w = false ->
  reading w = false /\ writing w = None /\ closed_ (conn w) = true
  /\ close_count (events w) = 1%nat.
Proof.
  intros Hr Ha. destruct (inv_reachable b w Hr) as (H1 & _ & _ & _ & _ & _ & H7).
  destruct (H7 Ha) as (? & ? & Hc). rewrite Hc in H1. done.
Qed.

(** *** Concrete runs *)

Definition ws_uri : bytes := bytes_of_string "ws://example.org/ws".
Definition hello : bytes := bytes_of_string "hello".

(** Started; then one push; then closed by the registry; then the
    aborted read and write complete; then the object is destroyed. *)
Definition w0 : World := start_world (make ws_uri 5 7).
Definition w1 : World := push true w0 hello.
Definition w2 : World := run w1 (Forward_status (conn w1) WsFrame.normal).
Definition w3 : World := run (read_completed w2) (handle_read (conn w2) operation_aborted 0 []).
Definition w4 : World :=
  run (write_completed w3 (WsFrame.fill_text_frame hello opcode_one []) operation_aborted)
    (handle_write (conn w3) operation_aborted).
Definition w5 : World := run (destroyed w4) (destroy (conn w4)).

Lemma w1_reachable : reachable true w1.
Proof. apply (reach_step _ w0); [constructor|]. by constructor. Qed.

Lemma w2_reachable : reachable true w2.
Proof. apply (reach_step _ w1); [exact w1_reachable|]. by constructor. Qed.

Lemma w3_reachable : reachable true w3.
Proof.
  apply (reach_step _ w2); [exact w2_reachable|].
  apply step_read_done; try done. constructor.
Qed.

Lemma w5_reachable : reachable true w5.
Proof.
  apply (reach_step _ w4).
  - apply (reach_step _ w3); [exact w3_reachable|].
    apply step_write_done; [reflexivity|constructor].
  - by constructor.
Qed.

Lemma close_notified_once_witness : reachable true w2 /\ close_count (events w2) = 1%nat.
Proof. split; [exact w2_reachable|exact (close_notified_once true w2 w2_reachable)]. Defined.

Lemma single_write_in_flight_witness :
  reachable true w1 /\ writing w1 = Some (WsFrame.fill_text_frame hello opcode_one []).
Proof. split; [exact w1_reachable|exact (single_write_in_flight true w1 w1_reachable)]. Defined.

Lemma queue_bounded_while_open_witness :
  reachable true w1 /\ closed_ (conn w1) = false /\ (length (send_q_ (conn w1)) <= 100)%nat.
Proof.
  split; [exact w1_reachable|]. split; [reflexivity|].
  exact (queue_bounded_while_open true w1 w1_reachable eq_refl).
Defined.

Lemma fifo_delivery_witness :
  reachable true w1 /\ wire w1 ++ send_q_ (conn w1) = enqueued w1.
Proof.
  split; [exact w1_reachable|].
  exact (proj2 (fifo_delivery true w1 w1_reachable) eq_refl).
Defined.

Lemma overflow_at_101_witness :
  length (repeat hello 100) = 100%nat
  /\ closed_ (conn (push true (push_all true w0 (repeat hello 100)) hello)) = true.
Proof.
  split; [reflexivity|].
  exact (proj1 (proj2 (proj2 (overflow_at_101 true ws_uri 5 7 (repeat hello 100) hello eq_refl)))).
Defined.

Lemma read_completion_closes_witness :
  reachable true w2 /\ closed_ (conn w3) = true /\ close_count (events w3) = 1%nat.
Proof.
  split; [exact w2_reachable|].
  destruct (read_completion_closes true w2 operation_aborted 0 [] w2_reachable) as (H1 & _ & H3).
  split; [exact H1|exact H3].
Defined.

Lemma closed_stays_closed_witness :
  wstep true w2 w3 /\ closed_ (conn w2) = true /\ closed_ (conn w3) = true.
Proof.
  assert (wstep true w2 w3) as Hs by (apply step_read_done; try done; constructor).
  split; [exact Hs|]. split; [reflexivity|].
  exact (closed_stays_closed true w2 w3 Hs eq_refl).
Defined.

Lemma open_notified_first_witness :
  reachable true w5 /\ exists rest, events w5 = OnOpen 7 5 ws_uri :: rest.
Proof. split; [exact w5_reachable|exact (open_notified_first true w5 w5_reachable)]. Defined.

Lemma destroyed_is_closed_witness :
  reachable true w5 /\ alive w5 = false /\ close_count (events w5) = 1%nat.
Proof.
  split; [exact w5_reachable|]. split; [reflexivity|].
  exact (proj2 (proj2 (proj2 (destroyed_is_closed true w5 w5_reachable eq_refl)))).
Defined.

End WsRuntime.
