(* ===== verification/Registry.v ===== *)
(** The session registry of the server (src/webserver.h,
    src/webserver.cpp): the two maps [ws_conns_] and [ws_secure_conns_]
    from connection id to a weak handle, with [WSPush], [WSClose],
    [ws_forward] and [WSAddSession].  The registry is written against
    the class [Endpoint], what it needs of a connection ([Forward] of a
    message, [Forward] of a status, the closed flag and two laws); the
    push connection of [WsConnection] is an instance.  A weak handle is
    an address into [heap], the objects still alive: [weak_ptr::lock]
    succeeds exactly when its address is there.  The abstract contract
    is a map from id to live connection ([abs]); the refinement theorems
    show that each registry operation implements its abstract one. *)

From S2P Require Import Prelude WsFrame WsConnection.

Module Registry.

Import WsConn.

(** What the registry asks of a connection: [Forward(const std::string&)],
    [Forward(uint&)], and the closed flag: forwarding a status closes,
    forwarding a message never reopens. *)
Class Endpoint (C : Type) := {
  ep_push : C -> bytes -> C * list Effect;
  ep_close : C -> Z -> C * list Effect;
  ep_closed : C -> bool;
  ep_close_closes : forall c st, ep_closed (ep_close c st).1 = true;
  ep_push_keeps_closed : forall c m, ep_closed c = true -> ep_closed (ep_push c m).1 = true
}.

(** The push connection discharges the interface; [onmessageout_set]
    is whether [WebServer::ws_onmessageout] is set. *)
Section WsEndpoint.
Context (onmessageout_set : bool).

#[global] Instance ws_endpoint : Endpoint WSConnection := {|
  ep_push := Forward_message onmessageout_set;
  ep_close := Forward_status;
  ep_closed := closed_;
  ep_close_closes c st := stop_closed c;
  ep_push_keeps_closed c m := write_keeps_closed onmessageout_set c m opcode_one
|}.
End WsEndpoint.

(** The two maps: [ws_conns_] for connections over TCP,
    [ws_secure_conns_] for those over TLS. *)
Inductive Transport := Plain | Secure.

#[global] Instance Transport_eq_dec : EqDecision Transport.
Proof. solve_decision. Defined.

(** The registry's fields, with the objects the handles point to. *)
Record Registry (C : Type) := mkRegistry {
  ws_conns_ : gmap Z nat;
  ws_secure_conns_ : gmap Z nat;
  heap : gmap nat C
}.
Arguments mkRegistry {C}.
Arguments ws_conns_ {C}.
Arguments ws_secure_conns_ {C}.
Arguments heap {C}.

Section Ops.
Context {C : Type} `{!Endpoint C}.

Definition conns (k : Transport) (r : Registry C) : gmap Z nat :=
  match k with Plain => ws_conns_ r | Secure => ws_secure_conns_ r end.

Definition set_conns (k : Transport) (r : Registry C) (m : gmap Z nat) : Registry C :=
  match k with
  | Plain => mkRegistry m (ws_secure_conns_ r) (heap r)
  | Secure => mkRegistry (ws_conns_ r) m (heap r)
  end.

Definition set_heap (r : Registry C) (hp : gmap nat C) : Registry C :=
  mkRegistry (ws_conns_ r) (ws_secure_conns_ r) hp.

(** [WebServer::ws_forward(conn_id, ws_map, a)]: find the id; if the
    handle locks, forward to the object and answer true; if it is dead,
    erase the entry and answer false. *)
Definition ws_forward (k : Transport) (id : Z) (f : C -> C * list Effect) (r : Registry C)
  : bool * Registry C * list Effect :=
  match conns k r !! id with
  | None => (false, r, [])
  | Some h =>
      match heap r !! h with
      | Some c => let '(c', es) := f c in (true, set_heap r (<[h:=c']> (heap r)), es)
      | None => (false, set_conns k r (delete id (conns k r)), [])
      end
  end.

(** [ws_forward(id, ws_conns_, a) || ws_forward(id, ws_secure_conns_, a)]:
    the second runs on the registry the first left, only if the first
    answered false. *)
Definition forward_both (id : Z) (f : C -> C * list Effect) (r : Registry C)
  : bool * Registry C * list Effect :=
  let '(ok, r1, es) := ws_forward Plain id f r in
  if ok then (true, r1, es) else ws_forward Secure id f r1.

(** [WebServer::WSPush] *)
Definition WSPush (id : Z) (s : bytes) (r : Registry C) : bool * Registry C * list Effect :=
  forward_both id (fun c => ep_push c s) r.

(** [WebServer::WSClose] *)
Definition WSClose (id : Z) (status_code : Z) (r : Registry C) : bool * Registry C * list Effect :=
  forward_both id (fun c => ep_close c status_code) r.

(** [WebServer::WSAddSession<TSocket>]: [std::map::insert], which
    leaves an existing entry of the same id in place. *)
Definition WSAddSession (k : Transport) (id : Z) (h : nat) (r : Registry C) : Registry C :=
  set_conns k r (map_insert_new id h (conns k r)).

(** ** The abstract contract *)

(** The connections a map reaches through live handles. *)
Definition live (m : gmap Z nat) (hp : gmap nat C) : gmap Z C := omap (fun h => hp !! h) m.

(** The sessions the registry offers: an id is served by the plain map
    if its handle there is live, else by the secure map. *)
Definition abs (r : Registry C) : gmap Z C :=
  live (ws_conns_ r) (heap r) ∪ live (ws_secure_conns_ r) (heap r).

(** The abstract operation: forward to the session of the id if there
    is one. *)
Definition spec_forward (id : Z) (f : C -> C * list Effect) (s : gmap Z C)
  : bool * gmap Z C * list Effect :=
  match s !! id with
  | Some c => let '(c', es) := f c in (true, <[id:=c']> s, es)
  | None => (false, s, [])
  end.

(** The registry is well formed when no id is in both maps and no two
    entries share a handle (each connection registers itself once,
    under a fresh id). *)
Definition wf (r : Registry C) : Prop :=
  (forall id, ws_conns_ r !! id = None \/ ws_secure_conns_ r !! id = None)
  /\ (forall k1 k2 id1 id2 h, conns k1 r !! id1 = Some h -> conns k2 r !! id2 = Some h ->
        k1 = k2 /\ id1 = id2).

(** A handle no entry of either map points to. *)
Definition unreferenced (h : nat) (r : Registry C) : Prop :=
  forall k id, conns k r !! id <> Some h.

(** An id neither map holds: [uuid_generate] gives a new one to each
    connection. *)
Definition fresh_id (id : Z) (r : Registry C) : Prop := forall k, conns k r !! id = None.

(** ** Lemmas on the view [abs] *)

Lemma abs_lookup r id :
  abs r !! id = (ws_conns_ r !! id ≫= (fun h0 => heap r !! h0)) ∪ (ws_secure_conns_ r !! id ≫= (fun h0 => heap r !! h0)).
Proof. unfold abs, live. by rewrite lookup_union, !lookup_omap. Qed.

Lemma conns_set_heap k r hp : conns k (set_heap r hp) = conns k r.
Proof. by destruct k. Qed.

Lemma conns_set_conns k k' r m :
  conns k' (set_conns k r m) = if decide (k' = k) then m else conns k' r.
Proof. by destruct k, k'. Qed.

Lemma heap_set_conns k r m : heap (set_conns k r m) = heap r.
Proof. by destruct k. Qed.

Lemma wf_set_heap r hp : wf r -> wf (set_heap r hp).
Proof. intros [Hd Hi]. split; [apply Hd|]. intros ????. rewrite !conns_set_heap. apply Hi. Qed.

(** The same lookup through a heap that differs only at handles the
    entry does not hold. *)
Lemma bind_heap_same (e : option nat) (hp hp' : gmap nat C) :
  (forall h, e = Some h -> hp' !! h = hp !! h) -> e ≫= (fun h0 => hp' !! h0) = e ≫= (fun h0 => hp !! h0).
Proof. destruct e as [h|]; simpl; [|done]. intros H. by apply H. Qed.

(** Changing the object at handle [h] of the entry [(k, id)] changes
    the session [id] and no other. *)
Lemma abs_heap_at r hp k id h :
  wf r -> conns k r !! id = Some h -> (forall h', h' <> h -> hp !! h' = heap r !! h') ->
  abs (set_heap r hp) = match hp !! h with
                        | Some c => <[id:=c]> (abs r)
                        | None => delete id (abs r)
                        end.
Proof.
  intros [Hd Hi] Hk Hhp. apply map_eq; intros i.
  assert (forall k' h', conns k' r !! i = Some h' -> i <> id -> hp !! h' = heap r !! h') as Hne.
  { intros k' h' E Hid. apply Hhp. intros ->. by destruct (Hi _ _ _ _ _ E Hk). }
  rewrite abs_lookup; cbn [set_heap ws_conns_ ws_secure_conns_ heap].
  destruct (decide (i = id)) as [->|Hid].
  - destruct k; cbn [conns] in Hk; destruct (Hd id) as [Hp|Hs]; try congruence;
      rewrite ?Hp, ?Hs, Hk; simpl;
      destruct (hp !! h); rewrite ?lookup_insert_eq, ?lookup_delete_eq; done.
  - rewrite (bind_heap_same (ws_conns_ r !! i) (heap r) hp) by (intros; by apply (Hne Plain)).
    rewrite (bind_heap_same (ws_secure_conns_ r !! i) (heap r) hp) by (intros; by apply (Hne Secure)).
    destruct (hp !! h); rewrite ?lookup_insert_ne, ?lookup_delete_ne by congruence;
      by rewrite abs_lookup.
Qed.

(** Changing the heap at a handle no entry holds changes no session. *)
Lemma abs_heap_unreferenced r hp h :
  unreferenced h r -> (forall h', h' <> h -> hp !! h' = heap r !! h') ->
  abs (set_heap r hp) = abs r.
Proof.
  intros Hu Hhp. apply map_eq; intros i. rewrite !abs_lookup. cbn [set_heap ws_conns_ ws_secure_conns_ heap].
  rewrite (bind_heap_same (ws_conns_ r !! i) (heap r) hp), (bind_heap_same (ws_secure_conns_ r !! i) (heap r) hp); [done| |];
    intros h' E; apply Hhp; intros ->; [apply (Hu Secure i E)|apply (Hu Plain i E)].
Qed.

(** Erasing an entry whose handle is dead changes no session. *)
Lemma abs_prune r k id h :
  conns k r !! id = Some h -> heap r !! h = None ->
  abs (set_conns k r (delete id (conns k r))) = abs r.
Proof.
  intros Hk Hh. apply map_eq; intros i. rewrite !abs_lookup.
  destruct k; cbn [set_conns conns ws_conns_ ws_secure_conns_ heap] in *;
    (destruct (decide (i = id)) as [->|]; [rewrite lookup_delete_eq, Hk; simpl; rewrite Hh; done
                                          |rewrite lookup_delete_ne by congruence; done]).
Qed.

Lemma wf_delete r k id : wf r -> wf (set_conns k r (delete id (conns k r))).
Proof.
  intros [Hd Hi]. split.
  - intros i. destruct k; simpl; destruct (Hd i); [left|right|left|right];
      rewrite ?lookup_delete_None; auto.
  - intros k1 k2 i1 i2 h. rewrite !conns_set_conns.
    case_decide; case_decide; subst; rewrite ?lookup_delete_Some;
      intros H1 H2; [destruct H1 as [_ H1], H2 as [_ H2]|destruct H1 as [_ H1]
                    |destruct H2 as [_ H2]|]; eauto.
Qed.

#[local] Hint Resolve wf_set_heap wf_delete : websrv.

(** One [ws_forward]: with a live entry it forwards and updates that
    session; otherwise it answers false, changes no session, and leaves
    no entry of the id in the map it searched. *)
Lemma ws_forward_spec k id f r :
  wf r ->
  let '(ok, r', es) := ws_forward k id f r in
  wf r' /\ (forall k', k' <> k -> conns k' r' = conns k' r) /\
  match conns k r !! id ≫= (fun h0 => heap r !! h0) with
  | Some c => ok = true /\ es = (f c).2 /\ abs r' = <[id:=(f c).1]> (abs r)
  | None => ok = false /\ es = [] /\ abs r' = abs r /\ conns k r' !! id = None
              /\ heap r' = heap r
  end.
Proof.
  intros Hwf. unfold ws_forward. destruct (conns k r !! id) as [h|] eqn:Ek; simpl; [|done].
  destruct (heap r !! h) as [c|] eqn:Eh; simpl.
  - destruct (f c) as [c' es] eqn:Ef. split; [by apply wf_set_heap|].
    split; [intros; apply conns_set_heap|]. split; [done|]. split; [done|].
    rewrite (abs_heap_at r _ k id h Hwf Ek) by (intros; by rewrite lookup_insert_ne).
    by rewrite lookup_insert_eq.
  - split; [by apply wf_delete|]. split; [intros k' ?; rewrite conns_set_conns; by case_decide|].
    split; [done|]. split; [done|]. split; [by apply (abs_prune r k id h)|].
    split; [|apply heap_set_conns].
    rewrite conns_set_conns, decide_True by done. apply lookup_delete_eq.
Qed.

(** Both maps searched: the plain one, then the secure one on the
    registry the first search left. *)
Lemma forward_both_spec id f r :
  wf r ->
  let '(ok, r', es) := forward_both id f r in
  wf r' /\ spec_forward id f (abs r) = (ok, abs r', es) /\ (ok = false -> fresh_id id r').
Proof.
  intros Hwf. unfold forward_both, spec_forward.
  pose proof (ws_forward_spec Plain id f r Hwf) as Hp.
  destruct (ws_forward Plain id f r) as [[ok1 r1] es1].
  destruct Hp as (Hwf1 & Hoth1 & Hp).
  rewrite abs_lookup. cbn [conns] in Hp.
  destruct (ws_conns_ r !! id ≫= _) as [c|].
  - destruct Hp as (-> & -> & Habs). rewrite union_Some_l.
    destruct (f c) as [c' es]. by rewrite Habs.
  - destruct Hp as (-> & -> & Habs & Hnone & Hh). rewrite (left_id_L None union).
    pose proof (ws_forward_spec Secure id f r1 Hwf1) as Hs.
    destruct (ws_forward Secure id f r1) as [[ok2 r2] es2].
    destruct Hs as (Hwf2 & Hoth2 & Hs).
    rewrite (Hoth1 Secure), Hh in Hs by done. cbn [conns] in Hs.
    destruct (ws_secure_conns_ r !! id ≫= _) as [c|].
    + destruct Hs as (-> & -> & Habs2). destruct (f c) as [c' es].
      by rewrite Habs2, Habs.
    + destruct Hs as (-> & -> & Habs2 & Hnone2 & _).
      split; [done|]. split; [by rewrite Habs2, Habs|].
      intros _ [|]; [|done]. by rewrite (Hoth2 Plain).
Qed.

(** An entry's session is the object its handle points to. *)
Lemma abs_lookup_entry r k id h :
  wf r -> conns k r !! id = Some h -> abs r !! id = heap r !! h.
Proof.
  intros [Hd _] Hk. rewrite abs_lookup.
  destruct k; cbn [conns] in Hk; destruct (Hd id) as [Hp|Hs]; try congruence;
    rewrite ?Hp, ?Hs, Hk; simpl; by destruct (heap r !! h).
Qed.

(** Either no entry holds the handle, or one does. *)
Lemma referenced_dec h r : unreferenced h r \/ exists k id, conns k r !! id = Some h.
Proof.
  destruct (decide (map_Exists (fun _ h' => h' = h) (ws_conns_ r))) as [(id & h' & E & ->)|Hn1];
    [right; by exists Plain, id|].
  destruct (decide (map_Exists (fun _ h' => h' = h) (ws_secure_conns_ r))) as [(id & h' & E & ->)|Hn2];
    [right; by exists Secure, id|].
  left. intros [] id E; [apply Hn1|apply Hn2]; by exists id, h.
Qed.

Lemma wf_add r k id h : wf r -> fresh_id id r -> unreferenced h r -> wf (WSAddSession k id h r).
Proof.
  intros [Hd Hi] Hf Hu. unfold WSAddSession, map_insert_new. rewrite (Hf k). split.
  - intros i. destruct (decide (i = id)) as [->|Hne].
    + destruct k; simpl; [right; apply (Hf Secure)|left; apply (Hf Plain)].
    + destruct k; simpl; rewrite ?lookup_insert_ne by congruence; apply Hd.
  - intros k1 k2 i1 i2 h'. rewrite !conns_set_conns.
    assert (forall k' i, (if decide (k' = k) then <[id:=h]> (conns k r) else conns k' r) !! i = Some h' ->
              (k' = k /\ i = id /\ h' = h) \/ conns k' r !! i = Some h') as Hc.
    { intros k' i. case_decide; [subst; rewrite lookup_insert_Some|by right].
      intros [(-> & ->)|(_ & E)]; [by left|by right]. }
    intros H1 H2. destruct (Hc _ _ H1) as [(? & ? & ?)|E1], (Hc _ _ H2) as [(? & ? & ?)|E2];
      subst; [done|by destruct (Hu _ _ E2)|by destruct (Hu _ _ E1)|by apply Hi with h'].
Qed.

Lemma abs_add r k id h :
  wf r -> fresh_id id r ->
  abs (WSAddSession k id h r) = match heap r !! h with
                                | Some c => <[id:=c]> (abs r)
                                | None => abs r
                                end.
Proof.
  intros [Hd _] Hf. unfold WSAddSession, map_insert_new. rewrite (Hf k).
  apply map_eq; intros i. rewrite !abs_lookup.
  destruct (decide (i = id)) as [->|Hne].
  - pose proof (Hf Plain) as Hp. pose proof (Hf Secure) as Hs. cbn [conns] in Hp, Hs.
    destruct k; simpl; rewrite lookup_insert_eq, ?Hp, ?Hs; simpl;
      destruct (heap r !! h); rewrite ?lookup_insert_eq, ?abs_lookup, ?Hp, ?Hs; by try destruct (_ !! h).
  - destruct k; simpl; rewrite ?lookup_insert_ne by congruence;
      destruct (heap r !! h); rewrite ?lookup_insert_ne by congruence; by rewrite abs_lookup.
Qed.

(** ** The registry among the connections *)

(** What can happen to the registry and the objects it points to: the
    two operations of the server API, the registration of a new
    connection, and, outside this file, the creation of an object
    ([make_shared] in [_create_ws_connection], at an address no handle
    holds), its own handlers (which never reopen it), and its
    destruction.  The registry's lock makes each step atomic; each
    step carries a label saying which of these it is. *)
Inductive label :=
| LPush (id : Z) (s : bytes)   (* [WSPush(id, s)] *)
| LClose (id : Z) (st : Z)     (* [WSClose(id, st)] *)
| LAdd (id : Z) (c : C)        (* [WSAddSession] of a new object *)
| LSpawn                       (* an object made, not yet registered *)
| LHandler (c' : C)            (* a handler of an object, leaving it as [c'] *)
| LRelease.                    (* an object destroyed *)

Inductive rstep : label -> Registry C -> Registry C -> Prop :=
| rs_push r id s : rstep (LPush id s) r (WSPush id s r).1.2
| rs_close r id st : rstep (LClose id st) r (WSClose id st r).1.2
| rs_add r k id h c :
    heap r !! h = Some c -> fresh_id id r -> unreferenced h r ->
    rstep (LAdd id c) r (WSAddSession k id h r)
| rs_spawn r h c : heap r !! h = None -> unreferenced h r -> rstep LSpawn r (set_heap r (<[h:=c]> (heap r)))
| rs_handler r h c c' :
    heap r !! h = Some c -> (ep_closed c = true -> ep_closed c' = true) ->
    rstep (LHandler c') r (set_heap r (<[h:=c']> (heap r)))
| rs_release r h c : heap r !! h = Some c -> rstep LRelease r (set_heap r (delete h (heap r))).

Definition registry0 : Registry C := mkRegistry ∅ ∅ ∅.

Inductive reachable : Registry C -> Prop :=
| reach0 : reachable registry0
| reach_step r l r' : reachable r -> rstep l r r' -> reachable r'.

(** The abstract machine, one step per label: a push or a close is the
    abstract forward; a registration opens a session under a new id; a
    handler updates the session of its object, never reopening it, or
    no session if the object is not registered; a destruction drops the
    session of the object or none; making an object changes nothing. *)
Inductive astep : label -> gmap Z C -> gmap Z C -> Prop :=
| as_push id s m : astep (LPush id s) m (spec_forward id (fun c => ep_push c s) m).1.2
| as_close id st m : astep (LClose id st) m (spec_forward id (fun c => ep_close c st) m).1.2
| as_open id c m : m !! id = None -> astep (LAdd id c) m (<[id:=c]> m)
| as_spawn m : astep LSpawn m m
| as_handler_hidden c' m : astep (LHandler c') m m
| as_handler id c c' m :
    m !! id = Some c -> (ep_closed c = true -> ep_closed c' = true) ->
    astep (LHandler c') m (<[id:=c']> m)
| as_release_hidden m : astep LRelease m m
| as_release id c m : m !! id = Some c -> astep LRelease m (delete id m).

(** The sessions after [forward_both] are those of the abstract forward. *)
Lemma forward_both_abs id f r :
  wf r -> wf (forward_both id f r).1.2 /\ abs (forward_both id f r).1.2 = (spec_forward id f (abs r)).1.2.
Proof.
  intros Hwf. pose proof (forward_both_spec id f r Hwf) as H.
  destruct (forward_both id f r) as [[ok r'] es]; simpl.
  destruct H as (Hwf' & -> & _). done.
Qed.

Lemma rstep_wf r l r' : wf r -> rstep l r r' -> wf r'.
Proof.
  intros Hwf Hs. destruct Hs; try by apply wf_set_heap.
  - apply (forward_both_abs id _ r Hwf).
  - apply (forward_both_abs id _ r Hwf).
  - by apply wf_add.
Qed.

Lemma wf_registry0 : wf registry0.
Proof. split; [by left|]. intros [] [] ????; simpl; by rewrite lookup_empty. Qed.

Lemma registry_reachable_wf r : reachable r -> wf r.
Proof. induction 1; [apply wf_registry0|by eapply rstep_wf]. Qed.

(** A decision procedure for [unreferenced] on concrete registries. *)
Definition unreferenced_b (h : nat) (r : Registry C) : bool :=
  negb (bool_decide (map_Exists (fun _ h' => h' = h) (ws_conns_ r)))
  && negb (bool_decide (map_Exists (fun _ h' => h' = h) (ws_secure_conns_ r))).

Lemma unreferenced_b_ok h r : unreferenced_b h r = true -> unreferenced h r.
Proof.
  unfold unreferenced_b. rewrite andb_true_iff, !negb_true_iff, !bool_decide_eq_false.
  intros [H1 H2] [] id E; [apply H1|apply H2]; by exists id, h.
Qed.

(** *** Claims *)

(** C1 (refinement): [WSPush] and [WSClose] implement the abstract
    forward on the session map: on a well-formed registry they answer
    true exactly when the id has a live session, forward to that
    session only, return its effects, and leave a well-formed registry
    whose sessions are the abstract result (lazily pruned dead entries
    change no session). *)
Theorem WSPush_WSClose_refine id s st r :
  wf r ->
  (let '(ok, r', es) := WSPush id s r in
   wf r' /\ spec_forward id (fun c => ep_push c s) (abs r) = (ok, abs r', es))
  /\ (let '(ok, r', es) := WSClose id st r in
      wf r' /\ spec_forward id (fun c => ep_close c st) (abs r) = (ok, abs r', es)).
Proof.
  intros Hwf. unfold WSPush, WSClose.
  pose proof (forward_both_spec id (fun c => ep_push c s) r Hwf) as H1.
  pose proof (forward_both_spec id (fun c => ep_close c st) r Hwf) as H2.
  destruct (forward_both id _ r) as [[??]?], (forward_both id (fun c => ep_close c st) r) as [[??]?].
  destruct H1 as (? & ? & _), H2 as (? & ? & _). done.
Qed.

(** C7 (refinement): every step of the registry and of the objects it
    points to keeps it well formed and is, on the session map, the
    abstract step of its label: a push or a close is exactly the
    abstract forward, a registration opens the new id with the new
    object, a handler updates at most the one session of its object
    without reopening it, a destruction drops at most one session, and
    making an object changes nothing. *)
Theorem registry_simulation r l r' :
  reachable r -> rstep l r r' -> wf r' /\ astep l (abs r) (abs r').
Proof.
  intros Hr Hs. pose proof (registry_reachable_wf r Hr) as Hwf. split; [by eapply rstep_wf|].
  destruct Hs as [r id s|r id st|r k id h c Hh Hf Hu|r h c Hh Hu|r h c c' Hh Hc|r h c Hh].
  - unfold WSPush. rewrite (proj2 (forward_both_abs id _ r Hwf)). apply as_push.
  - unfold WSClose. rewrite (proj2 (forward_both_abs id _ r Hwf)). apply as_close.
  - rewrite abs_add, Hh by done. apply as_open.
    pose proof (Hf Plain) as H1; pose proof (Hf Secure) as H2; cbn [conns] in H1, H2.
    by rewrite abs_lookup, H1, H2.
  - rewrite (abs_heap_unreferenced r _ h Hu) by (intros; by rewrite lookup_insert_ne). apply as_spawn.
  - destruct (referenced_dec h r) as [Hu|(k & id & Hk)].
    + rewrite (abs_heap_unreferenced r _ h Hu) by (intros; by rewrite lookup_insert_ne).
      apply as_handler_hidden.
    + rewrite (abs_heap_at r _ k id h Hwf Hk), lookup_insert_eq by (intros; by rewrite lookup_insert_ne).
      apply as_handler with c; [|done]. by rewrite (abs_lookup_entry r k id h).
  - destruct (referenced_dec h r) as [Hu|(k & id & Hk)].
    + rewrite (abs_heap_unreferenced r _ h Hu) by (intros; by rewrite lookup_delete_ne).
      apply as_release_hidden.
    + rewrite (abs_heap_at r _ k id h Hwf Hk), lookup_delete_eq by (intros; by rewrite lookup_delete_ne).
      apply as_release with c. by rewrite (abs_lookup_entry r k id h).
Qed.

(** C22 (error): lazy pruning.  When [WSPush] or [WSClose] answers false,
    neither map holds an entry for the id any more: dead handles found
    on the way have been erased. *)
Theorem failed_forward_prunes id s st r :
  wf r ->
  (forall r' es, WSPush id s r = (false, r', es) -> fresh_id id r')
  /\ (forall r' es, WSClose id st r = (false, r', es) -> fresh_id id r').
Proof.
  intros Hwf. unfold WSPush, WSClose. split; intros r' es E;
    [pose proof (forward_both_spec id (fun c => ep_push c s) r Hwf) as H
    |pose proof (forward_both_spec id (fun c => ep_close c st) r Hwf) as H];
    rewrite E in H; by apply H.
Qed.

(** A closed session stays registered.  After [WSClose] succeeds
    for an id, [WSPush] to the same id still answers true (the entry is
    kept and the object alive), though the session it reaches is closed
    and the message will never be written. *)
Theorem push_after_close_succeeds id st s r r1 es1 :
  wf r -> WSClose id st r = (true, r1, es1) ->
  exists r2 es2 c, WSPush id s r1 = (true, r2, es2) /\ abs r2 !! id = Some c /\ ep_closed c = true.
Proof.
  intros Hwf Hc.
  pose proof (forward_both_spec id (fun c => ep_close c st) r Hwf) as H1.
  unfold WSClose in Hc. rewrite Hc in H1. destruct H1 as (Hwf1 & Hs1 & _).
  unfold spec_forward in Hs1. destruct (abs r !! id) as [c0|]; [|done].
  destruct (ep_close c0 st) as [c1 e1] eqn:E1. injection Hs1 as Habs1 _.
  pose proof (forward_both_spec id (fun c => ep_push c s) r1 Hwf1) as H2.
  unfold WSPush. destruct (forward_both id _ r1) as [[ok r2] es2].
  destruct H2 as (_ & Hs2 & _). unfold spec_forward in Hs2.
  rewrite <- Habs1, lookup_insert_eq in Hs2.
  destruct (ep_push c1 s) as [c2 e2] eqn:E2. injection Hs2 as <- Habs2 <-.
  exists r2, e2, c2. split; [done|]. rewrite <- Habs2, lookup_insert_eq. split; [done|].
  replace c2 with (ep_push c1 s).1 by (by rewrite E2). apply ep_push_keeps_closed.
  replace c1 with (ep_close c0 st).1 by (by rewrite E1). apply ep_close_closes.
Qed.

End Ops.

(** *** A concrete registry *)

Section Concrete.
#[local] Instance ws_endpoint0 : Endpoint WSConnection := ws_endpoint false.

Definition conn_of (id : Z) : WSConnection := WsConn.make (bytes_of_string "ws://host/feed") 1 id.
Definition msg : bytes := bytes_of_string "tick".

(** Two plain connections under ids 7 and 9, the second destroyed, and
    a secure one under id 11. *)
Definition reg1 : Registry WSConnection := set_heap registry0 (<[0%nat:=conn_of 7]> ∅).
Definition reg2 := WSAddSession Plain 7 0 reg1.
Definition reg3 := set_heap reg2 (<[1%nat:=conn_of 9]> (heap reg2)).
Definition reg4 := WSAddSession Plain 9 1 reg3.
Definition reg5 := set_heap reg4 (delete 1%nat (heap reg4)).
Definition reg6 := set_heap reg5 (<[2%nat:=conn_of 11]> (heap reg5)).
Definition reg7 := WSAddSession Secure 11 2 reg6.

Ltac side := first [ intros []; vm_compute; reflexivity
                   | apply unreferenced_b_ok; vm_compute; reflexivity
                   | vm_compute; reflexivity ].

Lemma reg6_reachable : reachable reg6.
Proof.
  eapply (reach_step reg5); [eapply (reach_step reg4); [eapply (reach_step reg3);
    [eapply (reach_step reg2); [eapply (reach_step reg1); [eapply (reach_step registry0); [constructor|]|]|]|]|]|].
  - apply rs_spawn; side.
  - apply (rs_add _ _ _ _ (conn_of 7)); side.
  - apply rs_spawn; side.
  - apply (rs_add _ _ _ _ (conn_of 9)); side.
  - apply (rs_release _ _ (conn_of 9)); side.
  - apply rs_spawn; side.
Qed.

Lemma reg7_step : rstep (LAdd 11 (conn_of 11)) reg6 reg7.
Proof. apply rs_add; side. Qed.

Lemma reg7_wf : wf reg7.
Proof. apply (rstep_wf reg6 (LAdd 11 (conn_of 11))); [apply registry_reachable_wf, reg6_reachable|apply reg7_step]. Qed.

Lemma WSPush_WSClose_refine_witness :
  wf reg7
  /\ (let '(ok, r', es) := WSPush 9 msg reg7 in
      wf r' /\ spec_forward 9 (fun c => ep_push c msg) (abs reg7) = (ok, abs r', es))
  /\ (let '(ok, r', es) := WSClose 9 1000 reg7 in
      wf r' /\ spec_forward 9 (fun c => ep_close c 1000) (abs reg7) = (ok, abs r', es)).
Proof. split; [exact reg7_wf|]. exact (WSPush_WSClose_refine 9 msg 1000 reg7 reg7_wf). Defined.

Lemma registry_simulation_witness :
  reachable reg6 /\ rstep (LAdd 11 (conn_of 11)) reg6 reg7
  /\ wf reg7 /\ astep (LAdd 11 (conn_of 11)) (abs reg6) (abs reg7).
Proof.
  split; [exact reg6_reachable|]. split; [exact reg7_step|].
  exact (registry_simulation reg6 _ reg7 reg6_reachable reg7_step).
Defined.

Lemma failed_forward_prunes_witness :
  wf reg7 /\ WSPush 9 msg reg7 = (false, (WSPush 9 msg reg7).1.2, [])
  /\ fresh_id 9 (WSPush 9 msg reg7).1.2.
Proof.
  assert (WSPush 9 msg reg7 = (false, (WSPush 9 msg reg7).1.2, [])) as E
    by (vm_compute; reflexivity).
  split; [exact reg7_wf|]. split; [exact E|].
  exact (proj1 (failed_forward_prunes 9 msg 1000 reg7 reg7_wf) _ _ E).
Defined.

Lemma push_after_close_succeeds_witness :
  wf reg7 /\ WSClose 11 1000 reg7 = (true, (WSClose 11 1000 reg7).1.2, (WSClose 11 1000 reg7).2)
  /\ exists r2 es2 c, WSPush 11 msg (WSClose 11 1000 reg7).1.2 = (true, r2, es2)
       /\ abs r2 !! 11 = Some c /\ ep_closed c = true.
Proof.
  assert (WSClose 11 1000 reg7 = (true, (WSClose 11 1000 reg7).1.2, (WSClose 11 1000 reg7).2)) as E
    by (vm_compute; reflexivity).
  split; [exact reg7_wf|]. split; [exact E|].
  exact (push_after_close_succeeds 11 1000 msg reg7 _ _ reg7_wf E).
Defined.
End Concrete.

End Registry.
