(* ===== verification/Response.v ===== *)
(** The response (src/HTTP/http_response.h, http_response.cpp, with the
    tables [Schema::StatusCode], [Schema::StatusString],
    [Schema::StockReply] and [Schema::Magic] of src/HTTP/http_protocol.h):
    the [HTTPResponse] record, [setCookie], [to_buffers] with its status
    line, and [stock_reply].  [to_buffers] walks an [unordered_map],
    whose order is unspecified: [to_buffers_in] takes the order as a
    list, and the theorems hold for every order that lists the map.
    The bytes the gathered write sends are the concatenation of the
    buffers. *)

From Stdlib Require Import DecimalNat.
From S2P Require Import Prelude Cookie HttpFsm.

Module Response.

(** [enum StatusCode] *)
Inductive StatusCode :=
| undefined | websocket_handshake | ok | created | accepted | no_content
| multiple_choices | moved_permanently | moved_temporarily | not_modified
| bad_request | unauthorized | forbidden | not_found
| internal_server_error | not_implemented | bad_gateway | service_unavailable.

#[global] Instance StatusCode_eq_dec : EqDecision StatusCode.
Proof. solve_decision. Defined.

Definition all_status_codes : list StatusCode :=
  [undefined; websocket_handshake; ok; created; accepted; no_content; multiple_choices;
   moved_permanently; moved_temporarily; not_modified; bad_request; unauthorized; forbidden;
   not_found; internal_server_error; not_implemented; bad_gateway; service_unavailable].

(** The values of the enumerators. *)
Definition status_value (s : StatusCode) : Z :=
  match s with
  | undefined => 0 | websocket_handshake => 101 | ok => 200 | created => 201
  | accepted => 202 | no_content => 204 | multiple_choices => 300
  | moved_permanently => 301 | moved_temporarily => 302 | not_modified => 304
  | bad_request => 400 | unauthorized => 401 | forbidden => 403 | not_found => 404
  | internal_server_error => 500 | not_implemented => 501 | bad_gateway => 502
  | service_unavailable => 503
  end.

Definition crlf : bytes := [CR; LF].

(** [Schema::StatusString], each line with its CRLF. *)
Definition status_string (s : string) : bytes := bytes_of_string s ++ crlf.

(** [HTTPResponse::status_str_to_buffer]: the switch, with
    [default: internal_server_error] for [undefined]. *)
Definition status_str_to_buffer (s : StatusCode) : bytes :=
  match s with
  | websocket_handshake => status_string "HTTP/1.1 101 Switching Protocols"
  | ok => status_string "HTTP/1.0 200 OK"
  | created => status_string "HTTP/1.0 201 Created"
  | accepted => status_string "HTTP/1.0 202 Accepted"
  | no_content => status_string "HTTP/1.0 204 No Content"
  | multiple_choices => status_string "HTTP/1.0 300 Multiple Choices"
  | moved_permanently => status_string "HTTP/1.0 301 Moved Permanently"
  | moved_temporarily => status_string "HTTP/1.0 302 Moved Temporarily"
  | not_modified => status_string "HTTP/1.0 304 Not Modified"
  | bad_request => status_string "HTTP/1.0 400 Bad Request"
  | unauthorized => status_string "HTTP/1.0 401 Unauthorized"
  | forbidden => status_string "HTTP/1.0 403 Forbidden"
  | not_found => status_string "HTTP/1.0 404 Not Found"
  | internal_server_error | undefined => status_string "HTTP/1.0 500 Internal Server Error"
  | not_implemented => status_string "HTTP/1.0 501 Not Implemented"
  | bad_gateway => status_string "HTTP/1.0 502 Bad Gateway"
  | service_unavailable => status_string "HTTP/1.0 503 Service Unavailable"
  end.

(** The page of [Schema::StockReply]: the title and the heading. *)
Definition stock_page (title heading : string) : bytes :=
  bytes_of_string ("<html><head><title>" ++ title ++ "</title></head><body><h1>" ++ heading
                   ++ "</h1></body></html>").

(** [HTTPResponse::stock_reply_str]: the switch, with
    [default: internal_server_error] for [undefined] and
    [websocket_handshake]. *)
Definition stock_reply_str (s : StatusCode) : bytes :=
  match s with
  | ok => []
  | created => stock_page "Created" "201 Created"
  | accepted => stock_page "Accepted" "202 Accepted"
  | no_content => stock_page "No Content" "204 Content"
  | multiple_choices => stock_page "Multiple Choices" "300 Multiple Choices"
  | moved_permanently => stock_page "Moved Permanently" "301 Moved Permanently"
  | moved_temporarily => stock_page "Moved Temporarily" "302 Moved Temporarily"
  | not_modified => stock_page "Not Modified" "304 Not Modified"
  | bad_request => stock_page "Bad Request" "400 Bad Request"
  | unauthorized => stock_page "Unauthorized" "401 Unauthorized"
  | forbidden => stock_page "Forbidden" "403 Forbidden"
  | not_found => stock_page "Not Found" "404 Not Found"
  | not_implemented => stock_page "Not Implemented" "501 Not Implemented"
  | bad_gateway => stock_page "Bad Gateway" "502 Bad Gateway"
  | service_unavailable => stock_page "Service Unavailable" "503 Service Unavailable"
  | internal_server_error | undefined | websocket_handshake =>
      stock_page "Internal Server Error" "500 Internal Server Error"
  end.

(** [struct HTTPResponse] *)
Record HTTPResponse := mkResponse {
  status : StatusCode;
  headers : gmap bytes bytes;
  content : bytes
}.

(** [HTTPResponse()]: status [undefined], no header, no content. *)
Definition empty_response : HTTPResponse := mkResponse undefined ∅ [].

Definition h_set_cookie := bytes_of_string "set-cookie".
Definition h_content_length := bytes_of_string "Content-Length".
Definition h_content_type := bytes_of_string "Content-Type".
Definition v_text_html := bytes_of_string "text/html".

(** [Schema::Magic::name_value_separator] *)
Definition name_value_separator : bytes := [58; 32].

(** [HTTPResponse::setCookie]: [headers.insert] of the rendered cookie
    under [set-cookie]. *)
Definition setCookie (format_gmt : Z -> bytes) (r : HTTPResponse) (c : Cookie.Cookie) : HTTPResponse :=
  mkResponse (status r) (map_insert_new h_set_cookie (Cookie.toString format_gmt c) (headers r))
    (content r).

(** [HTTPResponse::to_buffers], the headers taken in the order [hs]. *)
Definition to_buffers_in (hs : list (bytes * bytes)) (r : HTTPResponse) : list bytes :=
  status_str_to_buffer (status r)
  :: concat (map (fun h => [h.1; name_value_separator; h.2; crlf]) hs)
  ++ [crlf; content r].

(** The iteration orders of the header map. *)
Definition order_of (r : HTTPResponse) (hs : list (bytes * bytes)) : Prop :=
  hs ≡ₚ map_to_list (headers r).

(** [std::to_string] of a size: its decimal digits. *)
Fixpoint uint_bytes (d : Decimal.uint) : bytes :=
  match d with
  | Decimal.Nil => []
  | Decimal.D0 d => 48 :: uint_bytes d | Decimal.D1 d => 49 :: uint_bytes d
  | Decimal.D2 d => 50 :: uint_bytes d | Decimal.D3 d => 51 :: uint_bytes d
  | Decimal.D4 d => 52 :: uint_bytes d | Decimal.D5 d => 53 :: uint_bytes d
  | Decimal.D6 d => 54 :: uint_bytes d | Decimal.D7 d => 55 :: uint_bytes d
  | Decimal.D8 d => 56 :: uint_bytes d | Decimal.D9 d => 57 :: uint_bytes d
  end.

Definition to_string (n : nat) : bytes := uint_bytes (Nat.to_uint n).

(** [HTTPResponse::stock_reply]: the status, the page, and the two
    headers set with [operator[]]. *)
Definition stock_reply (s : StatusCode) : HTTPResponse :=
  let c := stock_reply_str s in
  mkResponse s (<[h_content_type := v_text_html]>
                  (<[h_content_length := to_string (length c)]> ∅)) c.

(** ** Lemmas *)

Lemma fold_uint_bytes d acc :
  fold_left (fun acc d => acc * 10 + (d - 48)) (uint_bytes d) (Z.of_nat acc)
  = Z.of_nat (Nat.of_uint_acc d acc).
Proof.
  revert acc. induction d as [|d IH|d IH|d IH|d IH|d IH|d IH|d IH|d IH|d IH|d IH]; intros acc;
    [done|..]; cbn [uint_bytes fold_left Nat.of_uint_acc]; rewrite <- IH;
    f_equal; rewrite Nat.tail_mul_spec; lia.
Qed.

Lemma digits_value_to_string n : digits_value (to_string n) = Z.of_nat n.
Proof.
  unfold digits_value, to_string. change 0 with (Z.of_nat 0).
  rewrite fold_uint_bytes. f_equal. apply DecimalNat.Unsigned.of_to.
Qed.

Lemma to_string_digits n : Forall (fun c => is_digit c = true) (to_string n).
Proof. unfold to_string. induction (Nat.to_uint n); constructor; done. Qed.

Lemma take_digits_all s : Forall (fun c => is_digit c = true) s -> take_digits s = s.
Proof. induction 1 as [|c s Hc _ IH]; simpl; [done|]. by rewrite Hc, IH. Qed.

(** [std::stoi] reads back what [std::to_string] wrote, for sizes in
    the range of [int]. *)
Lemma stoi_to_string n : Z.of_nat n <= INT_MAX -> stoi (to_string n) = inl (Z.of_nat n).
Proof.
  intros Hn. pose proof (digits_value_to_string n) as Hv.
  pose proof (to_string_digits n) as Hd. pose proof (take_digits_all _ Hd) as Ht.
  destruct (to_string n) as [|c r] eqn:E.
  - unfold digits_value in Hv; simpl in Hv. assert (n = 0%nat) as -> by lia. discriminate.
  - inversion Hd as [|? ? Hc Hr]; subst. unfold is_digit in Hc.
    apply andb_true_iff in Hc as [H1 H2]. apply Z.leb_le in H1, H2.
    assert (c = 48 \/ c = 49 \/ c = 50 \/ c = 51 \/ c = 52 \/ c = 53 \/ c = 54 \/ c = 55
            \/ c = 56 \/ c = 57) as Hc' by lia.
    assert (0 <= Z.of_nat n) by lia.
    unfold stoi; destruct_or! Hc'; subst; cbn -[digits_value];
      rewrite (take_digits_all r Hr), Hv;
      rewrite (proj2 (Z.leb_le INT_MIN _)) by (unfold INT_MIN; lia);
      rewrite (proj2 (Z.leb_le _ INT_MAX)) by done; done.
Qed.

(** The gathered buffers are the status line, the header lines, CRLF
    and the content. *)
Lemma to_buffers_layout hs r :
  concat (to_buffers_in hs r) =
    status_str_to_buffer (status r) ++ concat (map Fsm.header_line hs) ++ crlf ++ content r.
Proof.
  unfold to_buffers_in. cbn [concat]. f_equal. rewrite concat_app. f_equal.
  - induction hs as [|h hs IH]; [done|]. cbn [map concat]. rewrite concat_app, IH.
    unfold Fsm.header_line. cbn [concat]. by rewrite app_nil_r, <- !app_assoc.
  - cbn. by rewrite app_nil_r.
Qed.

(** *** Claims *)

(** C8 (roundtrip): the bytes [to_buffers] sends are the status line, one
    line [name: value CRLF] per header in the map's order, CRLF and the
    content; read from the start of the header section, the server's
    own parsing automaton gets back exactly these headers, in that
    order, whenever the names are tokens and the values hold no control
    byte. *)
Theorem to_buffers_headers_roundtrip r hs d :
  Forall Fsm.header_ok hs ->
  concat (to_buffers_in hs r) =
    status_str_to_buffer (status r) ++ concat (map Fsm.header_line hs) ++ crlf ++ content r
  /\ Fsm.parse_impl (Fsm.mkParser Fsm.ParserState.header_line_start d)
       (concat (map Fsm.header_line hs) ++ crlf ++ content r)
     = Fsm.parse_impl (Fsm.mkParser Fsm.ParserState.header_line_start
                         (Fsm.with_headers d (Fsm.headers d ++ hs))) (crlf ++ content r).
Proof. intros Hhs. split; [apply to_buffers_layout|by apply Fsm.parse_header_lines]. Qed.

(** C9 (functional): every stock reply is a complete message.  For every
    status code and whichever order the header map is walked in, the
    part of [to_buffers] after the status line, read by the server's
    parsing automaton, gives [good] at its last byte with the two
    headers and the page as body: the [Content-Length] that
    [std::to_string] wrote is the length of the page. *)
Theorem stock_reply_reads_back st hs :
  order_of (stock_reply st) hs ->
  Fsm.parse_impl (Fsm.mkParser Fsm.ParserState.header_line_start Fsm.Data0)
    (concat (tail (to_buffers_in hs (stock_reply st))))
  = (inl Fsm.good, Fsm.mkParser Fsm.ParserState.body
       (Fsm.mkData hs [] [] (stock_reply_str st) 0 0 (Z.of_nat (length (stock_reply_str st)))), []).
Proof.
  unfold order_of. intros Hp.
  destruct st; vm_compute in Hp; apply Permutation_sym, Permutation_length_2_inv in Hp;
    destruct Hp as [->| ->]; vm_compute; reflexivity.
Qed.

(** [std::stoi] reads back the [Content-Length] that
    [std::to_string] writes, for every size in the range of [int]. *)
Theorem stoi_to_string_roundtrip n :
  Z.of_nat n <= INT_MAX -> stoi (to_string n) = inl (Z.of_nat n).
Proof. apply stoi_to_string. Qed.

(** One cookie per response.  [setCookie] inserts under the
    single key [set-cookie] with [unordered_map::insert]: on a response
    that already sets a cookie, it changes nothing, and the second
    cookie is silently dropped. *)
Theorem setCookie_second_dropped f r c v :
  headers r !! h_set_cookie = Some v -> setCookie f r c = r.
Proof. intros H. unfold setCookie, map_insert_new. rewrite H. by destruct r. Qed.

(** The defaults of the two switches.  A response whose status
    was never set goes out as [500 Internal Server Error]; the stock
    reply of [101] carries the page of [500]; and the stock reply of
    [204 No Content] has a body (titled [204 Content]), which a 204
    response must not have. *)
Example status_switch_defaults :
  status_str_to_buffer undefined = status_str_to_buffer internal_server_error
  /\ stock_reply_str websocket_handshake = stock_reply_str internal_server_error
  /\ length (stock_reply_str no_content) = 84%nat
  /\ to_string (length (stock_reply_str bad_request)) = bytes_of_string "89".
Proof. vm_compute. repeat split. Qed.

(** *** Witnesses *)

Definition bad_request_headers : list (bytes * bytes) :=
  Eval vm_compute in map_to_list (headers (stock_reply bad_request)).

Lemma to_buffers_headers_roundtrip_witness :
  Forall Fsm.header_ok bad_request_headers
  /\ concat (to_buffers_in bad_request_headers (stock_reply bad_request)) =
       status_str_to_buffer bad_request ++ concat (map Fsm.header_line bad_request_headers)
       ++ crlf ++ stock_reply_str bad_request
  /\ Fsm.parse_impl (Fsm.mkParser Fsm.ParserState.header_line_start Fsm.Data0)
       (concat (map Fsm.header_line bad_request_headers) ++ crlf ++ stock_reply_str bad_request)
     = Fsm.parse_impl (Fsm.mkParser Fsm.ParserState.header_line_start
                         (Fsm.with_headers Fsm.Data0 bad_request_headers))
         (crlf ++ stock_reply_str bad_request).
Proof.
  assert (Forall Fsm.header_ok bad_request_headers) as H.
  { repeat constructor; try discriminate; vm_compute; reflexivity. }
  split; [exact H|]. exact (to_buffers_headers_roundtrip (stock_reply bad_request) _ Fsm.Data0 H).
Defined.

Lemma stock_reply_reads_back_witness :
  order_of (stock_reply not_found) (map_to_list (headers (stock_reply not_found)))
  /\ Fsm.parse_impl (Fsm.mkParser Fsm.ParserState.header_line_start Fsm.Data0)
       (concat (tail (to_buffers_in (map_to_list (headers (stock_reply not_found)))
                                    (stock_reply not_found))))
     = (inl Fsm.good, Fsm.mkParser Fsm.ParserState.body
          (Fsm.mkData (map_to_list (headers (stock_reply not_found))) [] []
             (stock_reply_str not_found) 0 0 (Z.of_nat (length (stock_reply_str not_found)))), []).
Proof.
  assert (order_of (stock_reply not_found) (map_to_list (headers (stock_reply not_found)))) as H
    by (unfold order_of; reflexivity).
  split; [exact H|]. exact (stock_reply_reads_back not_found _ H).
Defined.

Lemma stoi_to_string_roundtrip_witness :
  Z.of_nat 89 <= INT_MAX /\ stoi (to_string 89) = inl 89.
Proof.
  assert (Z.of_nat 89 <= INT_MAX) as H by (unfold INT_MAX; lia).
  split; [exact H|]. exact (stoi_to_string_roundtrip 89 H).
Defined.

Definition sid_cookie := Cookie.make (bytes_of_string "SID") (bytes_of_string "42").
Definition lang_cookie := Cookie.make (bytes_of_string "lang") (bytes_of_string "en").
Definition one_cookie := setCookie (fun _ => []) (stock_reply ok) sid_cookie.

Lemma setCookie_second_dropped_witness :
  headers one_cookie !! h_set_cookie = Some (bytes_of_string "SID=42")
  /\ setCookie (fun _ => []) one_cookie lang_cookie = one_cookie.
Proof.
  assert (headers one_cookie !! h_set_cookie = Some (bytes_of_string "SID=42")) as H
    by (vm_compute; reflexivity).
  split; [exact H|]. exact (setCookie_second_dropped _ one_cookie lang_cookie _ H).
Defined.

End Response.
