(* ===== verification/Mime.v ===== *)
(** The MIME table of src/HTTP/http_protocol.h ([Schema::MIME]): the
    [std::map] [Type] from file extension to content type, built from
    its initializer list; the constants [json], [html] and [txt]
    initialised with [Type.at]; [augment_content_type] and
    [getContentType].  The theorems show that the map keeps every entry
    of the list (the keys are distinct), that static initialisation does
    not throw, that [getContentType] falls back to [text/plain], and
    that [augment_content_type] adds the charset exactly to the text
    types. *)

From S2P Require Import Prelude.

Module MIME.

(** The initializer list of [const MAP Type], in source order. *)
Definition Type_entries : list (string * string) := [
  (".a", "application/octet-stream");
  (".aab", "application/x-authorware-bin");
  (".aam", "application/x-authorware-map");
  (".aas", "application/x-authorware-seg");
  (".ai", "application/postscript");
  (".aif", "audio/x-aiff");
  (".aifc", "audio/x-aiff");
  (".aiff", "audio/x-aiff");
  (".asc", "text/plain");
  (".asf", "video/x-ms-asf");
  (".asx", "video/x-ms-asf");
  (".au", "audio/basic");
  (".avi", "video/x-msvideo");
  (".bcpio", "application/x-bcpio");
  (".bin", "application/octet-stream");
  (".bmp", "image/bmp");
  (".cdf", "application/x-netcdf");
  (".class", "application/x-java-vm");
  (".cpio", "application/x-cpio");
  (".cpt", "application/mac-compactpro");
  (".crl", "application/x-pkcs7-crl");
  (".crt", "application/x-x509-ca-cert");
  (".csh", "application/x-csh");
  (".css", "text/css");
  (".dcr", "application/x-director");
  (".dir", "application/x-director");
  (".djv", "image/vnd.djvu");
  (".djvu", "image/vnd.djvu");
  (".dll", "application/octet-stream");
  (".dms", "application/octet-stream");
  (".doc", "application/msword");
  (".dtd", "text/xml");
  (".dump", "application/octet-stream");
  (".dvi", "application/x-dvi");
  (".dxr", "application/x-director");
  (".eps", "application/postscript");
  (".etx", "text/x-setext");
  (".exe", "application/octet-stream");
  (".ez", "application/andrew-inset");
  (".fgd", "application/x-director");
  (".fh", "image/x-freehand");
  (".fh4", "image/x-freehand");
  (".fh5", "image/x-freehand");
  (".fh7", "image/x-freehand");
  (".fhc", "image/x-freehand");
  (".gif", "image/gif");
  (".gtar", "application/x-gtar");
  (".gz", "application/x-gzip");
  (".hdf", "application/x-hdf");
  (".hqx", "application/mac-binhex40");
  (".htm", "text/html");
  (".html", "text/html");
  (".ice", "x-conference/x-cooltalk");
  (".ief", "image/ief");
  (".iges", "model/iges");
  (".igs", "model/iges");
  (".iv", "application/x-inventor");
  (".jar", "application/x-java-archive");
  (".jfif", "image/jpeg");
  (".jpe", "image/jpeg");
  (".jpeg", "image/jpeg");
  (".jpg", "image/jpeg");
  (".js", "application/javascript");
  (".json", "application/json");
  (".kar", "audio/midi");
  (".latex", "application/x-latex");
  (".lha", "application/octet-stream");
  (".lzh", "application/octet-stream");
  (".m3u", "audio/x-mpegurl");
  (".man", "application/x-troff-man");
  (".mathml", "application/mathml+xml");
  (".me", "application/x-troff-me");
  (".mesh", "model/mesh");
  (".mid", "audio/midi");
  (".midi", "audio/midi");
  (".mif", "application/vnd.mif");
  (".mime", "message/rfc822");
  (".mml", "application/mathml+xml");
  (".mov", "video/quicktime");
  (".movie", "video/x-sgi-movie");
  (".mp2", "audio/mpeg");
  (".mp3", "audio/mpeg");
  (".mp4", "video/mp4");
  (".mpe", "video/mpeg");
  (".mpeg", "video/mpeg");
  (".mpg", "video/mpeg");
  (".mpga", "audio/mpeg");
  (".ms", "application/x-troff-ms");
  (".msh", "model/mesh");
  (".mv", "video/x-sgi-movie");
  (".mxu", "video/vnd.mpegurl");
  (".nc", "application/x-netcdf");
  (".o", "application/octet-stream");
  (".oda", "application/oda");
  (".ogg", "audio/ogg");
  (".pac", "application/x-ns-proxy-autoconfig");
  (".pbm", "image/x-portable-bitmap");
  (".pdb", "chemical/x-pdb");
  (".pdf", "application/pdf");
  (".pgm", "image/x-portable-graymap");
  (".pgn", "application/x-chess-pgn");
  (".png", "image/png");
  (".pnm", "image/x-portable-anymap");
  (".ppm", "image/x-portable-pixmap");
  (".ppt", "application/vnd.ms-powerpoint");
  (".ps", "application/postscript");
  (".qt", "video/quicktime");
  (".ra", "audio/x-realaudio");
  (".ram", "audio/x-pn-realaudio");
  (".ras", "image/x-cmu-raster");
  (".rdf", "application/rdf+xml");
  (".rgb", "image/x-rgb");
  (".rm", "audio/x-pn-realaudio");
  (".roff", "application/x-troff");
  (".rpm", "audio/x-pn-realaudio-plugin");
  (".rss", "application/rss+xml");
  (".rtf", "text/rtf");
  (".rtx", "text/richtext");
  (".sgm", "text/sgml");
  (".sgml", "text/sgml");
  (".sh", "application/x-sh");
  (".shar", "application/x-shar");
  (".silo", "model/mesh");
  (".sit", "application/x-stuffit");
  (".skd", "application/x-koan");
  (".skm", "application/x-koan");
  (".skp", "application/x-koan");
  (".skt", "application/x-koan");
  (".smi", "application/smil");
  (".smil", "application/smil");
  (".snd", "audio/basic");
  (".so", "application/octet-stream");
  (".spl", "application/x-futuresplash");
  (".src", "application/x-wais-source");
  (".stc", "application/vnd.sun.xml.calc.template");
  (".std", "application/vnd.sun.xml.draw.template");
  (".sti", "application/vnd.sun.xml.impress.template");
  (".stw", "application/vnd.sun.xml.writer.template");
  (".sv4cpio", "application/x-sv4cpio");
  (".sv4crc", "application/x-sv4crc");
  (".svg", "image/svg+xml");
  (".svgz", "image/svg+xml");
  (".swf", "application/x-shockwave-flash");
  (".sxc", "application/vnd.sun.xml.calc");
  (".sxd", "application/vnd.sun.xml.draw");
  (".sxg", "application/vnd.sun.xml.writer.global");
  (".sxi", "application/vnd.sun.xml.impress");
  (".sxm", "application/vnd.sun.xml.math");
  (".sxw", "application/vnd.sun.xml.writer");
  (".t", "application/x-troff");
  (".tar", "application/x-tar");
  (".tcl", "application/x-tcl");
  (".tex", "application/x-tex");
  (".texi", "application/x-texinfo");
  (".texinfo", "application/x-texinfo");
  (".tif", "image/tiff");
  (".tiff", "image/tiff");
  (".tr", "application/x-troff");
  (".tsp", "application/dsptype");
  (".tsv", "text/tab-separated-values");
  (".txt", "text/plain");
  (".ustar", "application/x-ustar");
  (".vcd", "application/x-cdlink");
  (".uu", "text/x-uuencode");
  (".vrml", "model/vrml");
  (".vx", "video/x-rad-screenplay");
  (".wav", "audio/x-wav");
  (".wax", "audio/x-ms-wax");
  (".wbmp", "image/vnd.wap.wbmp");
  (".wbxml", "application/vnd.wap.wbxml");
  (".wm", "video/x-ms-wm");
  (".wma", "audio/x-ms-wma");
  (".wmd", "application/x-ms-wmd");
  (".wml", "text/vnd.wap.wml");
  (".wmlc", "application/vnd.wap.wmlc");
  (".wmls", "text/vnd.wap.wmlscript");
  (".wmlsc", "application/vnd.wap.wmlscriptc");
  (".wmv", "video/x-ms-wmv");
  (".wmx", "video/x-ms-wmx");
  (".wmz", "application/x-ms-wmz");
  (".wrl", "model/vrml");
  (".wsrc", "application/x-wais-source");
  (".wvx", "video/x-ms-wvx");
  (".xbm", "image/x-xbitmap");
  (".xht", "application/xhtml+xml");
  (".xhtml", "application/xhtml+xml");
  (".xls", "application/vnd.ms-excel");
  (".xml", "text/xml");
  (".xpm", "image/x-xpixmap");
  (".xsl", "text/xml");
  (".xwd", "image/x-xwindowdump");
  (".xyz", "chemical/x-xyz");
  (".zip", "application/zip")
].

Definition entries : list (bytes * bytes) :=
  map (fun e => (bytes_of_string e.1, bytes_of_string e.2)) Type_entries.

(** [std::map] built from an initializer list: of two entries with one
    key the first is kept, as [list_to_map] does. *)
Definition Type_map : gmap bytes bytes := list_to_map entries.

(** [std::map::at]: the value, or [std::out_of_range]. *)
Definition at_ (m : gmap bytes bytes) (k : bytes) : bytes + exn :=
  match m !! k with Some v => inl v | None => inr out_of_range end.

(** The three constants, initialised before [main]: an exception there
    would terminate the program. *)
Definition json : bytes + exn := at_ Type_map (bytes_of_string ".json").
Definition html : bytes + exn := at_ Type_map (bytes_of_string ".html").
Definition txt : bytes + exn := at_ Type_map (bytes_of_string ".txt").

(** The value of an initialised constant. *)
Definition static_value (c : bytes + exn) : bytes := match c with inl v => v | inr _ => [] end.

(** [std::string::find(needle) != npos]: [needle] occurs in [hay]. *)
Fixpoint string_find (needle hay : bytes) : bool :=
  bool_decide (needle `prefix_of` hay)
  || match hay with [] => false | _ :: r => string_find needle r end.

Definition charset_utf8 : bytes := bytes_of_string "; charset=utf-8".

(** [augment_content_type] *)
Definition augment_content_type (content_type : bytes) : bytes :=
  if string_find (bytes_of_string "text/") content_type then content_type ++ charset_utf8
  else content_type.

(** [getContentType] *)
Definition getContentType (ext : bytes) : bytes :=
  match Type_map !! ext with Some v => v | None => static_value txt end.

(** ** Lemmas *)

Lemma string_find_spec needle hay :
  string_find needle hay = true <-> exists a b, hay = a ++ needle ++ b.
Proof.
  induction hay as [|c hay IH]; simpl; rewrite orb_true_iff, bool_decide_eq_true.
  - split.
    + intros [[b Hb]|?]; [|discriminate]. by exists [], b.
    + intros ([|? a] & b & H); [left; by exists b|discriminate].
  - rewrite IH. split.
    + intros [[b Hb]|(a & b & ->)]; [by exists [], b|by exists (c :: a), b].
    + intros ([|c' a] & b & H); [left; by exists b|].
      simpl in H. injection H as <- ->. right. by exists a, b.
Qed.

Lemma entries_keys_distinct : NoDup (entries.*1).
Proof. apply (bool_decide_eq_true_1 (NoDup (entries.*1))). vm_compute. reflexivity. Qed.

(** Every entry of the initializer list is in the map: none is
    dropped by a duplicate key. *)
Lemma Type_map_entries k v : (k, v) ∈ entries -> Type_map !! k = Some v.
Proof. intros Hin. apply elem_of_list_to_map_1; [apply entries_keys_distinct|exact Hin]. Qed.

(** Static initialisation does not throw. *)
Lemma static_init_ok :
  json = inl (bytes_of_string "application/json") /\ html = inl (bytes_of_string "text/html")
  /\ txt = inl (bytes_of_string "text/plain").
Proof. vm_compute. split_and!; reflexivity. Qed.

Lemma getContentType_unknown ext : Type_map !! ext = None -> getContentType ext = bytes_of_string "text/plain".
Proof. intros H. unfold getContentType. rewrite H. by rewrite (proj2 (proj2 static_init_ok)). Qed.

Lemma getContentType_known ext v : (ext, v) ∈ entries -> getContentType ext = v.
Proof. intros Hin. unfold getContentType. by rewrite (Type_map_entries ext v Hin). Qed.

Lemma augment_content_type_spec ct :
  ((exists a b, ct = a ++ bytes_of_string "text/" ++ b) -> augment_content_type ct = ct ++ charset_utf8)
  /\ (~ (exists a b, ct = a ++ bytes_of_string "text/" ++ b) -> augment_content_type ct = ct).
Proof.
  unfold augment_content_type. split; intros H.
  - apply string_find_spec in H. by rewrite H.
  - destruct (string_find _ ct) eqn:E; [|done]. exfalso. by apply H, string_find_spec.
Qed.

(** No table value holds [text/] anywhere but at its start, so the
    charset is added to a known type exactly when it is a text type. *)
Lemma augment_known_types :
  Forall (fun e => augment_content_type (getContentType e.1)
                   = if bool_decide (bytes_of_string "text/" `prefix_of` e.2) then e.2 ++ charset_utf8 else e.2)
         entries.
Proof. match goal with |- ?P => apply (bool_decide_eq_true_1 P) end. vm_compute. reflexivity. Qed.

End MIME.
