(* ===== verification/HttpConnection.v ===== *)
(** The HTTP connection (src/HTTP/http_connection.h,
    http_connection.cpp): [Start], [do_read], [do_write],
    [process_ws_handshake], [_generate_ws_handshake_headers],
    [_create_ws_connection] and [stop], each a function from the object
    to the new object and its effects in program order (the asynchronous
    operations it issues, the call of the request handler, the creation
    of the WebSocket connection, an exception that leaves the completion
    handler).  The request handler of the application, [base64SHA1] and
    the [pauuid] reader live outside the repository and are Section
    variables; so is the order in which the response's [unordered_map]
    is walked, a permutation of its entries.  [hstep] runs the object
    in the asynchronous runtime: one rule per completion of the
    operation outstanding. *)

From S2P Require Import Prelude Cookie HttpRequest HttpFsm HttpParser Response WsFrame WsConnection WsRuntime Registry.

Module HttpConn.

Module R := HTTPRequest.
Module Rs := Response.

(** What the handlers do, in order. *)
Inductive HEffect :=
| HTlsHandshake                    (* async_handshake *)
| HRead                            (* async_read_some into buffer_ *)
| HWrite (bufs : list bytes)       (* async_write of response_.to_buffers() *)
| HWriteHandshake (bufs : list bytes)  (* the same, completing into _create_ws_connection *)
| HCancel | HShutdown | HClose
| HHandle (req : R.t)              (* bridge_->HandleRequest(request_, response_) *)
| HCreateWS (uri : bytes) (sid id : Z)  (* WSConnection made, registered, started *)
| HLogHandlerError                 (* IFLOG(P3, "HTTP request handling error..") *)
| HRaise (e : exn).                (* an exception leaves the completion handler *)

(** [class HTTPConnection]: the fields the handlers read and write. *)
Record HTTPConnection := mkHttpConn {
  is_http : bool;
  remote_ip : bytes;
  request_ : R.t;
  response_ : Rs.HTTPResponse;
  request_parser_ : Fsm.HTTPParser
}.

(** The constructor: a fresh parser, empty request and response. *)
Definition make (is_http : bool) (remote_ip : bytes) : HTTPConnection :=
  mkHttpConn is_http remote_ip R.empty_request Rs.empty_response Fsm.init.

Definition set_exchange (c : HTTPConnection) (p : Fsm.HTTPParser) (req : R.t) (resp : Rs.HTTPResponse)
  : HTTPConnection :=
  mkHttpConn (is_http c) (remote_ip c) req resp p.

Definition ws_token := bytes_of_string "258EAFA5-E914-47DA-95CA-C5AB0DC85B11".
Definition h_sec_websocket_protocol := bytes_of_string "sec-websocket-protocol".
Definition v_chat_superchat := bytes_of_string "chat, superchat".
Definition h_SID := bytes_of_string "SID".

(** [headers[name]] of a [std::unordered_map]: the value, inserting an
    empty one when the name is absent. *)
Definition index_or_insert (m : gmap bytes bytes) (k : bytes) : bytes * gmap bytes bytes :=
  match m !! k with
  | Some v => (v, m)
  | None => ([], <[k:=[]]> m)
  end.

(** [class HTTPRequestHandler] (src/HTTP/http_request_handler.h), the
    interface the application implements: [HandleRequest(req, rep)]
    fills the response, here from the request and the response it is
    given; the flag tells whether it threw a [std::exception] (which
    [do_read] catches), the response being then as the handler left
    it. *)
Record HTTPRequestHandler := mkHandler {
  HandleRequest : R.t -> Rs.HTTPResponse -> Rs.HTTPResponse * bool
}.

Section Handlers.
(** [bridge_], the connection's request handler. *)
Variable bridge_ : HTTPRequestHandler.
(** [base64SHA1] of core/openssl_encoders.h. *)
Variable base64SHA1 : bytes -> bytes.
(** The [pauuid] constructed from a cookie value (a boost lexical cast
    of a UUID string; the empty string is the nil [pauuid]): [None] when
    the cast throws [bad_lexical_cast]. *)
Variable pauuid_of : bytes -> option Z.
(** The order [to_buffers] walks a header map in. *)
Variable walk : gmap bytes bytes -> list (bytes * bytes).

Definition to_buffers (r : Rs.HTTPResponse) : list bytes := Rs.to_buffers_in (walk (Rs.headers r)) r.

(** [do_read]: one [async_read_some]. *)
Definition do_read (c : HTTPConnection) : HTTPConnection * list HEffect := (c, [HRead]).

(** [do_write]: one gathered [async_write] of the response. *)
Definition do_write (c : HTTPConnection) : HTTPConnection * list HEffect :=
  (c, [HWrite (to_buffers (response_ c))]).

(** [HTTPConnection::stop] *)
Definition stop (c : HTTPConnection) : HTTPConnection * list HEffect := (c, [HCancel; HShutdown; HClose]).

(** [Start]: a TCP connection reads at once, a TLS one does its
    handshake first. *)
Definition Start (c : HTTPConnection) : HTTPConnection * list HEffect :=
  if is_http c then do_read c else (c, [HTlsHandshake]).

(** The completion of [async_handshake]: read on success, nothing
    otherwise. *)
Definition on_tls_handshake (c : HTTPConnection) (ec : WsConn.error_code) : HTTPConnection * list HEffect :=
  if decide (ec = WsConn.ec_ok) then do_read c else (c, []).

(** [_generate_ws_handshake_headers] *)
Definition generate_ws_handshake_headers (c : HTTPConnection) : HTTPConnection :=
  let '(key, h1) := index_or_insert (R.headers (request_ c)) R.h_sec_websocket_key in
  let hash := base64SHA1 (key ++ ws_token) in
  let hs := map_insert_new (bytes_of_string "Sec-WebSocket-Accept") hash
              (map_insert_new (bytes_of_string "Connection") (bytes_of_string "Upgrade")
                (map_insert_new (bytes_of_string "Upgrade") (bytes_of_string "websocket")
                   (Rs.headers (response_ c)))) in
  let '(proto, h2) := index_or_insert h1 h_sec_websocket_protocol in
  let hs' := if decide (proto = v_chat_superchat)
             then <[bytes_of_string "Sec-WebSocket-Protocol" := bytes_of_string "chat"]> hs
             else hs in
  mkHttpConn (is_http c) (remote_ip c) (R.set_headers (request_ c) h2)
    (Rs.mkResponse Rs.websocket_handshake hs' (Rs.content (response_ c))) (request_parser_ c).

(** [process_ws_handshake]: cancel, build the 101 response, write it. *)
Definition process_ws_handshake (c : HTTPConnection) : HTTPConnection * list HEffect :=
  let c1 := generate_ws_handshake_headers c in
  (c1, [HCancel; HWriteHandshake (to_buffers (response_ c1))]).

(** The completion handler of [do_read]. *)
Definition on_read (c : HTTPConnection) (ec : WsConn.error_code) (buf : bytes)
  : HTTPConnection * list HEffect :=
  if decide (ec = WsConn.ec_ok) then
    let req0 := Parser.fresh_request (is_http c) (remote_ip c) in
    match Parser.Parse (request_parser_ c) req0 buf with
    | (inr e, p', req', _) => (set_exchange c p' req' Rs.empty_response, [HRaise e])
    | (inl Fsm.good, p', req', _) =>
        let c1 := set_exchange c p' req' Rs.empty_response in
        match R.isWSHandshake req' with
        | inr e => (c1, [HRaise e])
        | inl true => process_ws_handshake c1
        | inl false =>
            let '(resp, threw) := HandleRequest bridge_ req' Rs.empty_response in
            let c2 := set_exchange c p' req' resp in
            let '(c3, es) := do_write c2 in
            (c3, HHandle req' :: (if threw then [HLogHandlerError] else []) ++ es)
        end
    | (inl Fsm.bad, p', req', _) =>
        do_write (set_exchange c p' req' (Rs.stock_reply Rs.bad_request))
    | (inl Fsm.indeterminate, p', req', _) =>
        do_read (set_exchange c p' req' Rs.empty_response)
    end
  else if decide (ec <> WsConn.operation_aborted) then stop c else (c, []).

(** The completion handler of [do_write]. *)
Definition on_write (c : HTTPConnection) (ec : WsConn.error_code) : HTTPConnection * list HEffect :=
  if decide (ec = WsConn.ec_ok) then do_read c
  else if decide (ec <> WsConn.operation_aborted) then stop c else (c, []).

(** [_create_ws_connection], the completion of the handshake write: the
    error code is not looked at.  [id] is the [uuid_generate()] result;
    [pauuid sid = request_.getCookie("SID").value] throws when the
    cookie is no UUID, and nothing catches it. *)
Definition create_ws_connection (c : HTTPConnection) (id : Z) : HTTPConnection * list HEffect :=
  match pauuid_of (Cookie.value (R.getCookie (request_ c) h_SID)) with
  | Some sid => (c, [HCreateWS (R.uri_text (R.uri (request_ c))) sid id])
  | None => (c, [HRaise bad_lexical_cast])
  end.

End Handlers.

(** ** The connection in the asynchronous runtime *)

(** The operation outstanding on the socket. *)
Inductive Pending := PTls | PRead | PWrite (bufs : list bytes) | PHandshakeWrite (bufs : list bytes).

(** The connection object, the operation outstanding, how many operations
    are issued and not completed, the socket, and what has happened:
    the responses written, the requests handed to the application, the
    WebSocket connections created, an exception raised. *)
Record HWorld := mkHWorld {
  hconn : HTTPConnection;
  pending : option Pending;
  outstanding : nat;
  hsock_open : bool;
  hwire : list (list bytes);
  handled : list R.t;
  created : list (bytes * Z * Z);
  raised : option exn
}.

(** The operation an effect issues, if any. *)
Definition async_of (e : HEffect) : option Pending :=
  match e with
  | HTlsHandshake => Some PTls | HRead => Some PRead
  | HWrite b => Some (PWrite b) | HWriteHandshake b => Some (PHandshakeWrite b)
  | _ => None
  end.

Fixpoint count_async (es : list HEffect) : nat :=
  match es with
  | [] => O
  | e :: r => match async_of e with Some _ => S (count_async r) | None => count_async r end
  end.

(** The last operation a list of effects issues. *)
Fixpoint last_async (es : list HEffect) : option Pending :=
  match es with
  | [] => None
  | e :: r => match last_async r with Some p => Some p | None => async_of e end
  end.

Definition apply_heffect (w : HWorld) (e : HEffect) : HWorld :=
  match async_of e with
  | Some p => mkHWorld (hconn w) (Some p) (S (outstanding w)) (hsock_open w) (hwire w)
                (handled w) (created w) (raised w)
  | None =>
      match e with
      | HClose => mkHWorld (hconn w) (pending w) (outstanding w) false (hwire w) (handled w)
                    (created w) (raised w)
      | HHandle q => mkHWorld (hconn w) (pending w) (outstanding w) (hsock_open w) (hwire w)
                       (handled w ++ [q]) (created w) (raised w)
      | HCreateWS u sid id => mkHWorld (hconn w) (pending w) (outstanding w) (hsock_open w)
                                (hwire w) (handled w) (created w ++ [(u, sid, id)]) (raised w)
      | HRaise x => mkHWorld (hconn w) (pending w) (outstanding w) (hsock_open w) (hwire w)
                      (handled w) (created w) (Some x)
      | _ => w
      end
  end.

Definition hrun (w : HWorld) (r : HTTPConnection * list HEffect) : HWorld :=
  fold_left apply_heffect r.2
    (mkHWorld r.1 (pending w) (outstanding w) (hsock_open w) (hwire w) (handled w) (created w) (raised w)).

(** The world once the outstanding operation completed, with the bytes
    a successful write put on the wire. *)
Definition hcompleted (w : HWorld) (wrote : option (list bytes)) : HWorld :=
  mkHWorld (hconn w) None (pred (outstanding w)) (hsock_open w)
    (match wrote with Some b => hwire w ++ [b] | None => hwire w end)
    (handled w) (created w) (raised w).

(** The destruction of the connection.  With no operation outstanding
    no handler holds [shared_from_this()]; the last [shared_ptr] goes,
    [~HTTPConnection] releases [sock_], and the socket, owned by no one
    else (no [WSConnection] was made from it), closes. *)
Definition hreleased (w : HWorld) : HWorld :=
  mkHWorld (hconn w) (pending w) (outstanding w) false (hwire w) (handled w) (created w) (raised w).

(** [max_buffer_length_], the size of [buffer_]. *)
Definition max_buffer_length : Z := 8192.

Definition hstart_world (is_http : bool) (ip : bytes) : HWorld :=
  hrun (mkHWorld (make is_http ip) None 0 true [] [] [] None) (Start (make is_http ip)).

Section Runtime.
Variable bridge_ : HTTPRequestHandler.
Variable base64SHA1 : bytes -> bytes.
Variable pauuid_of : bytes -> option Z.
Variable walk : gmap bytes bytes -> list (bytes * bytes).

(** One completion: of the TLS handshake, of the read (a successful read
    brings 1 to 8192 bytes), of a write, of the handshake write (with a
    new connection id); or the destruction of an idle connection. *)
Inductive hstep : HWorld -> HWorld -> Prop :=
| hs_tls w ec :
    pending w = Some PTls -> WsRuntime.ec_allowed (hsock_open w) ec ->
    hstep w (hrun (hcompleted w None) (on_tls_handshake (hconn w) ec))
| hs_read w ec buf :
    pending w = Some PRead -> WsRuntime.ec_allowed (hsock_open w) ec ->
    (ec = WsConn.ec_ok -> buf <> [] /\ Z.of_nat (length buf) <= max_buffer_length) ->
    hstep w (hrun (hcompleted w None) (on_read bridge_ base64SHA1 walk (hconn w) ec buf))
| hs_write w b ec :
    pending w = Some (PWrite b) -> WsRuntime.ec_allowed (hsock_open w) ec ->
    hstep w (hrun (hcompleted w (if decide (ec = WsConn.ec_ok) then Some b else None))
               (on_write (hconn w) ec))
| hs_handshake w b ec id :
    pending w = Some (PHandshakeWrite b) -> WsRuntime.ec_allowed (hsock_open w) ec ->
    hstep w (hrun (hcompleted w (if decide (ec = WsConn.ec_ok) then Some b else None))
               (create_ws_connection pauuid_of (hconn w) id))
| hs_release w :
    pending w = None -> hsock_open w = true -> created w = [] ->
    hstep w (hreleased w).

Inductive hreachable : HWorld -> Prop :=
| hreach_start is_http ip : hreachable (hstart_world is_http ip)
| hreach_step w w' : hreachable w -> hstep w w' -> hreachable w'.
End Runtime.

(** ** Lemmas *)

Lemma fold_heffects es w0 :
  outstanding (fold_left apply_heffect es w0) = (outstanding w0 + count_async es)%nat
  /\ pending (fold_left apply_heffect es w0) =
       match last_async es with Some p => Some p | None => pending w0 end
  /\ hconn (fold_left apply_heffect es w0) = hconn w0.
Proof.
  revert w0. induction es as [|e es IH]; intros w0; simpl; [split; [lia|done]|].
  destruct (IH (apply_heffect w0 e)) as (-> & -> & ->).
  unfold apply_heffect; destruct (async_of e) eqn:Ea; simpl.
  - split; [lia|]. by destruct (last_async es).
  - destruct e; simpl in *; try discriminate; (split; [lia|]); by destruct (last_async es).
Qed.

Lemma hrun_fields w r :
  outstanding (hrun w r) = (outstanding w + count_async r.2)%nat
  /\ pending (hrun w r) = match last_async r.2 with Some p => Some p | None => pending w end
  /\ hconn (hrun w r) = r.1.
Proof. unfold hrun. apply (fold_heffects r.2 (mkHWorld _ _ _ _ _ _ _ _)). Qed.

Lemma last_async_count es : last_async es = None <-> count_async es = 0%nat.
Proof.
  induction es as [|e es IH]; simpl; [done|].
  destruct (async_of e), (last_async es) eqn:E; split; intros H; try discriminate; try lia;
    try (apply IH in H; congruence); by apply IH.
Qed.

(** Every handler issues at most one operation on the socket. *)
Ltac one_op :=
  unfold on_read, on_write, on_tls_handshake, create_ws_connection, Start, process_ws_handshake,
    do_write, do_read, stop; repeat (case_match; simpl); simpl; lia.

Lemma on_read_one_op hr b64 wk c ec buf : (count_async (on_read hr b64 wk c ec buf).2 <= 1)%nat.
Proof. one_op. Qed.
Lemma on_write_one_op c ec : (count_async (on_write c ec).2 <= 1)%nat.
Proof. one_op. Qed.
Lemma on_tls_one_op c ec : (count_async (on_tls_handshake c ec).2 <= 1)%nat.
Proof. one_op. Qed.
Lemma create_ws_no_op pu c id : (count_async (create_ws_connection pu c id).2 <= 1)%nat.
Proof. one_op. Qed.
Lemma Start_one_op c : (count_async (Start c).2 <= 1)%nat.
Proof. one_op. Qed.

#[local] Hint Resolve on_read_one_op on_write_one_op on_tls_one_op create_ws_no_op Start_one_op : websrv.

(** The outstanding count is 1 exactly when an operation is pending. *)
Definition hinv (w : HWorld) : Prop :=
  outstanding w = match pending w with Some _ => 1%nat | None => 0%nat end.

Lemma hinv_run w r :
  pending w = None -> outstanding w = 0%nat -> (count_async r.2 <= 1)%nat -> hinv (hrun w r).
Proof.
  intros Hp Ho Hc. unfold hinv. destruct (hrun_fields w r) as (-> & -> & _). rewrite Ho, Hp.
  destruct (last_async r.2) eqn:E; [|apply last_async_count in E; lia].
  assert (count_async r.2 <> 0%nat) by (intros Hz; apply last_async_count in Hz; congruence). lia.
Qed.

Lemma hinv_step hr b64 pu wk w w' : hinv w -> hstep hr b64 pu wk w w' -> hinv w'.
Proof.
  unfold hinv. intros Hi Hs.
  destruct Hs as [w ec Hp _|w ec buf Hp _ _|w bf ec Hp _|w bf ec id Hp _|w Hp _ _];
    [..|done]; rewrite Hp in Hi; apply hinv_run; simpl; try lia; try done; eauto with websrv.
Qed.

Lemma hinv_reachable hr b64 pu wk w : hreachable hr b64 pu wk w -> hinv w.
Proof.
  induction 1 as [ih ip|w w' _ IH Hs]; [|by eapply hinv_step].
  apply hinv_run; [done|done|apply Start_one_op].
Qed.
(** The invariant read as the half-duplex property. *)
Lemma hinv_half_duplex w :
  hinv w -> (outstanding w <= 1)%nat /\ (outstanding w = 0%nat <-> pending w = None).
Proof. unfold hinv. intros Hi. destruct (pending w); rewrite Hi; split; try lia; split; done. Qed.

(** Registration of a new WebSocket connection, as [_create_ws_connection]
    composes it: the object made at a fresh address, its weak handle
    added under the new id to the map of its transport. *)
Definition register (r : Registry.Registry WsConn.WSConnection) (http : bool) (u : bytes) (sid id : Z)
  (h : nat) : Registry.Registry WsConn.WSConnection :=
  Registry.WSAddSession (if http then Registry.Plain else Registry.Secure) id h
    (Registry.set_heap r (<[h := WsConn.make u sid id]> (Registry.heap r))).

Lemma read_open w : hsock_open w = true -> WsRuntime.ec_allowed (hsock_open w) WsConn.ec_ok.
Proof. intros ->. constructor. Qed.

(** *** Claims *)

Section Claims.
Variable bridge_ : HTTPRequestHandler.
Variable base64SHA1 : bytes -> bytes.
Variable pauuid_of : bytes -> option Z.
Variable walk : gmap bytes bytes -> list (bytes * bytes).

(** C2 (safety): half-duplex.  In every state the connection can reach,
    at most one operation is outstanding on its socket: a read and a
    write are never in flight together, nor two of either. *)
Theorem half_duplex w :
  hreachable bridge_ base64SHA1 pauuid_of walk w ->
  (outstanding w <= 1)%nat /\ (outstanding w = 0%nat <-> pending w = None).
Proof.
  intros Hr. apply hinv_half_duplex. by eapply hinv_reachable.
Qed.

(** C3 (liveness): keep-alive.  When the outstanding read brings a complete
    ordinary request, the connection hands it to the application, writes
    the application's response, and once that write succeeds reads
    again, with the response on the wire. *)
Theorem request_answered w buf p' req' z :
  pending w = Some PRead -> hsock_open w = true -> buf <> [] ->
  Z.of_nat (length buf) <= max_buffer_length ->
  Parser.Parse (request_parser_ (hconn w)) (Parser.fresh_request (is_http (hconn w)) (remote_ip (hconn w))) buf
    = (inl Fsm.good, p', req', z) ->
  R.isWSHandshake req' = inl false ->
  let resp := (HandleRequest bridge_ req' Rs.empty_response).1 in
  exists w1 w2,
    hstep bridge_ base64SHA1 pauuid_of walk w w1
    /\ pending w1 = Some (PWrite (to_buffers walk resp)) /\ handled w1 = handled w ++ [req']
    /\ hstep bridge_ base64SHA1 pauuid_of walk w1 w2
    /\ pending w2 = Some PRead /\ hwire w2 = hwire w ++ [to_buffers walk resp].
Proof.
  intros Hp Ho Hne Hlen HP Hws resp. unfold resp.
  destruct (HandleRequest bridge_ req' Rs.empty_response) as [r threw] eqn:Eh. simpl.
  set (w1 := hrun (hcompleted w None) (on_read bridge_ base64SHA1 walk (hconn w) WsConn.ec_ok buf)).
  assert (hstep bridge_ base64SHA1 pauuid_of walk w w1) as S1
    by (apply hs_read; [done|by apply read_open|done]).
  assert (w1 = hrun (hcompleted w None)
                (set_exchange (hconn w) p' req' r,
                 HHandle req' :: (if threw then [HLogHandlerError] else []) ++ [HWrite (to_buffers walk r)]))
    as E1.
  { unfold w1, on_read. rewrite decide_True, HP, Hws, Eh by done. reflexivity. }
  set (w2 := hrun (hcompleted w1 (Some (to_buffers walk r))) (on_write (hconn w1) WsConn.ec_ok)).
  assert (hstep bridge_ base64SHA1 pauuid_of walk w1 w2) as S2.
  { change w2 with (hrun (hcompleted w1 (if decide (WsConn.ec_ok = WsConn.ec_ok)
                                         then Some (to_buffers walk r) else None))
                      (on_write (hconn w1) WsConn.ec_ok)).
    rewrite E1. destruct threw; (apply hs_write; [reflexivity|apply read_open; exact Ho]). }
  exists w1, w2. split; [exact S1|]. rewrite E1. split; [by destruct threw|]. split; [by destruct threw|].
  split; [rewrite <- E1; exact S2|]. unfold w2. rewrite E1. destruct threw; cbn; split; reflexivity.
Qed.

(** C23 (error): a rejected request is answered.  When the read brings a
    message the parser rejects, the connection writes the stock
    [400 Bad Request] reply (its Content-Length that of the page) and
    nothing goes to the application. *)
Theorem bad_request_answered w buf p' req' z :
  pending w = Some PRead -> hsock_open w = true -> buf <> [] ->
  Z.of_nat (length buf) <= max_buffer_length ->
  Parser.Parse (request_parser_ (hconn w)) (Parser.fresh_request (is_http (hconn w)) (remote_ip (hconn w))) buf
    = (inl Fsm.bad, p', req', z) ->
  exists w1, hstep bridge_ base64SHA1 pauuid_of walk w w1
    /\ pending w1 = Some (PWrite (to_buffers walk (Rs.stock_reply Rs.bad_request)))
    /\ handled w1 = handled w /\ request_parser_ (hconn w1) = p'.
Proof.
  intros Hp Ho Hne Hlen HP.
  exists (hrun (hcompleted w None) (on_read bridge_ base64SHA1 walk (hconn w) WsConn.ec_ok buf)).
  split; [apply hs_read; [done|by apply read_open|done]|].
  unfold on_read. rewrite decide_True, HP by done. cbn. auto.
Qed.

(** C25 (error): an exception ends the connection.  When [Parse] raises
    (a [Content-Length] [std::stoi] cannot read), the exception leaves
    the completion handler: no response is written and nothing is
    pending.  The only step left is the destruction of the connection,
    which closes the socket without writing; after it nothing happens. *)
Theorem parse_exception_ends_connection w buf e p' req' z :
  pending w = Some PRead -> hsock_open w = true -> created w = [] -> buf <> [] ->
  Z.of_nat (length buf) <= max_buffer_length ->
  Parser.Parse (request_parser_ (hconn w)) (Parser.fresh_request (is_http (hconn w)) (remote_ip (hconn w))) buf
    = (inr e, p', req', z) ->
  exists w1, hstep bridge_ base64SHA1 pauuid_of walk w w1
    /\ raised w1 = Some e /\ hwire w1 = hwire w /\ pending w1 = None
    /\ (exists w2, hstep bridge_ base64SHA1 pauuid_of walk w1 w2)
    /\ forall w2, hstep bridge_ base64SHA1 pauuid_of walk w1 w2 ->
         hsock_open w2 = false /\ hwire w2 = hwire w
         /\ forall w3, ~ hstep bridge_ base64SHA1 pauuid_of walk w2 w3.
Proof.
  intros Hp Ho Hc Hne Hlen HP.
  exists (hrun (hcompleted w None) (on_read bridge_ base64SHA1 walk (hconn w) WsConn.ec_ok buf)).
  split; [apply hs_read; [done|by apply read_open|done]|].
  unfold on_read. rewrite decide_True, HP by done. cbn.
  split; [done|]. split; [done|]. split; [done|]. split; [eexists; by apply hs_release|].
  intros w2 Hs. inversion Hs; simpl in *; try discriminate. subst. cbn.
  split; [done|]. split; [done|]. intros w3 Hs3. inversion Hs3; simpl in *; discriminate.
Qed.

(** C20 (functional): the opening handshake.  The 101 response built for a
    handshake request (on the fresh response of [do_read]) has the
    status line [HTTP/1.1 101 Switching Protocols], [Upgrade: websocket],
    [Connection: Upgrade] and [Sec-WebSocket-Accept] the [base64SHA1] of
    the client key followed by the RFC 6455 token, and echoes the
    protocol [chat] exactly when the client offered [chat, superchat]. *)
Theorem handshake_response c key :
  response_ c = Rs.empty_response ->
  R.headers (request_ c) !! R.h_sec_websocket_key = Some key ->
  let resp := response_ (generate_ws_handshake_headers base64SHA1 c) in
  Rs.status_str_to_buffer (Rs.status resp) = Rs.status_string "HTTP/1.1 101 Switching Protocols"
  /\ Rs.headers resp !! bytes_of_string "Upgrade" = Some (bytes_of_string "websocket")
  /\ Rs.headers resp !! bytes_of_string "Connection" = Some (bytes_of_string "Upgrade")
  /\ Rs.headers resp !! bytes_of_string "Sec-WebSocket-Accept" = Some (base64SHA1 (key ++ ws_token))
  /\ (Rs.headers resp !! bytes_of_string "Sec-WebSocket-Protocol" = Some (bytes_of_string "chat")
      <-> R.headers (request_ c) !! h_sec_websocket_protocol = Some v_chat_superchat).
Proof.
  intros Hr Hk resp. unfold resp, generate_ws_handshake_headers, index_or_insert.
  rewrite Hk, Hr. generalize (base64SHA1 (key ++ ws_token)); intros hash.
  destruct (R.headers (request_ c) !! h_sec_websocket_protocol) as [pr|] eqn:Ep;
    cbv beta iota zeta delta [Rs.headers Rs.status Rs.empty_response];
    [destruct (decide (pr = v_chat_superchat)) as [->|Hpr]|rewrite decide_False by (vm_compute; congruence)];
    (split; [reflexivity|]); vm_compute; (repeat split; try done); try (intros [=]; congruence); intros H;
    first [exfalso; apply Hpr; injection H as ->; reflexivity | congruence].
Qed.

(** C26 (error): the handshake completion checks nothing.  When the 101
    response fails to go out ([io_error]), the completion still creates
    the WebSocket connection with the request's URI, its [SID] session
    and a new id, though the client never saw the upgrade; and when the
    [SID] cookie is no UUID, [bad_lexical_cast] leaves the handler and
    no connection is created. *)
Theorem handshake_error_still_upgrades w b id :
  pending w = Some (PHandshakeWrite b) ->
  let u := R.uri_text (R.uri (request_ (hconn w))) in
  let v := Cookie.value (R.getCookie (request_ (hconn w)) h_SID) in
  (forall sid, pauuid_of v = Some sid ->
     exists w1, hstep bridge_ base64SHA1 pauuid_of walk w w1
       /\ created w1 = created w ++ [(u, sid, id)] /\ hwire w1 = hwire w /\ pending w1 = None)
  /\ (pauuid_of v = None ->
      exists w1, hstep bridge_ base64SHA1 pauuid_of walk w w1
        /\ raised w1 = Some bad_lexical_cast /\ created w1 = created w /\ pending w1 = None).
Proof.
  intros Hp u v. split; [intros sid Hs|intros Hs];
    (eexists; split; [apply (hs_handshake _ _ _ _ w b WsConn.io_error id Hp); constructor|]);
    rewrite decide_False by discriminate; unfold create_ws_connection; fold v; rewrite Hs; done.
Qed.

(** C24 (error): a throwing request handler.  When [HandleRequest] throws,
    [do_read]'s completion catches and logs the exception and still
    writes the response as the handler left it: the handler call, the
    log line and the write, in that order. *)
Theorem handler_exception_logged c buf p' req' z resp :
  Parser.Parse (request_parser_ c) (Parser.fresh_request (is_http c) (remote_ip c)) buf
    = (inl Fsm.good, p', req', z) ->
  R.isWSHandshake req' = inl false ->
  HandleRequest bridge_ req' Rs.empty_response = (resp, true) ->
  on_read bridge_ base64SHA1 walk c WsConn.ec_ok buf
  = (set_exchange c p' req' resp, [HHandle req'; HLogHandlerError; HWrite (to_buffers walk resp)]).
Proof. intros HP Hws Hh. unfold on_read. rewrite decide_True, HP, Hws, Hh by done. reflexivity. Qed.
End Claims.

(** C19 (refinement): the hand-off.  Registering the connection that
    [_create_ws_connection] makes, at an address no handle holds and
    under a fresh id, keeps the registry well formed and adds exactly
    that session to the abstract session map: the server can push to
    it by its id. *)
Theorem upgrade_registers_session r http u sid id h :
  Registry.wf r -> Registry.fresh_id id r -> Registry.heap r !! h = None -> Registry.unreferenced h r ->
  Registry.wf (register r http u sid id h)
  /\ Registry.abs (register r http u sid id h) = <[id := WsConn.make u sid id]> (Registry.abs r).
Proof.
  intros Hwf Hf Hh Hu. unfold register.
  set (r1 := Registry.set_heap r (<[h := WsConn.make u sid id]> (Registry.heap r))).
  assert (Registry.wf r1) as Hwf1 by by apply Registry.wf_set_heap.
  assert (Registry.fresh_id id r1) as Hf1 by (intros k; unfold r1; rewrite Registry.conns_set_heap; apply Hf).
  assert (Registry.unreferenced h r1) as Hu1 by (intros k i; unfold r1; rewrite Registry.conns_set_heap; apply Hu).
  split; [by apply Registry.wf_add|].
  rewrite Registry.abs_add by done. cbn [r1 Registry.heap Registry.set_heap]. rewrite lookup_insert_eq.
  f_equal. apply (Registry.abs_heap_unreferenced r _ h Hu). intros. by rewrite lookup_insert_ne.
Qed.

(** *** Concrete runs *)

Definition hr0 : HTTPRequestHandler := mkHandler (fun _ _ => (Rs.stock_reply Rs.ok, false)).
Definition b640 (x : bytes) : bytes := x.
Definition pu0 (_ : bytes) : option Z := Some 0.
Definition walk0 (m : gmap bytes bytes) : list (bytes * bytes) := map_to_list m.
Definition ip0 : bytes := bytes_of_string "10.0.0.1".

(** A plain connection just started: its read is outstanding. *)
Definition w0 : HWorld := hstart_world true ip0.

Definition fresh0 : R.t := Parser.fresh_request true ip0.
Definition get_out := Eval vm_compute in Parser.Parse Fsm.init fresh0 Fsm.get_request.
Definition bad_out := Eval vm_compute in Parser.Parse Fsm.init fresh0 Parser.no_host_request.
Definition exn_out := Eval vm_compute in Parser.Parse Fsm.init fresh0 Parser.bad_length_request.

Ltac conc := vm_compute; first [reflexivity | discriminate | congruence].

Lemma half_duplex_witness :
  hreachable hr0 b640 pu0 walk0 w0 /\ (outstanding w0 <= 1)%nat /\ (outstanding w0 = 0%nat <-> pending w0 = None).
Proof.
  assert (hreachable hr0 b640 pu0 walk0 w0) as H by constructor.
  split; [exact H|]. exact (half_duplex hr0 b640 pu0 walk0 w0 H).
Defined.

Lemma request_answered_witness :
  pending w0 = Some PRead /\ hsock_open w0 = true
  /\ Parser.Parse (request_parser_ (hconn w0)) (Parser.fresh_request (is_http (hconn w0)) (remote_ip (hconn w0)))
       Fsm.get_request = (inl Fsm.good, get_out.1.1.2, get_out.1.2, get_out.2)
  /\ R.isWSHandshake get_out.1.2 = inl false
  /\ exists w1 w2,
    hstep hr0 b640 pu0 walk0 w0 w1
    /\ pending w1 = Some (PWrite (to_buffers walk0 (HandleRequest hr0 get_out.1.2 Rs.empty_response).1))
    /\ handled w1 = handled w0 ++ [get_out.1.2]
    /\ hstep hr0 b640 pu0 walk0 w1 w2
    /\ pending w2 = Some PRead /\ hwire w2 = hwire w0 ++ [to_buffers walk0 (HandleRequest hr0 get_out.1.2 Rs.empty_response).1].
Proof.
  assert (pending w0 = Some PRead) as H1 by conc.
  assert (hsock_open w0 = true) as H2 by conc.
  assert (Fsm.get_request <> []) as H3 by conc.
  assert (Z.of_nat (length Fsm.get_request) <= max_buffer_length) as H4 by conc.
  assert (Parser.Parse (request_parser_ (hconn w0))
            (Parser.fresh_request (is_http (hconn w0)) (remote_ip (hconn w0))) Fsm.get_request
          = (inl Fsm.good, get_out.1.1.2, get_out.1.2, get_out.2)) as H5 by conc.
  assert (R.isWSHandshake get_out.1.2 = inl false) as H6 by conc.
  do 4 (split; [assumption|]).
  exact (request_answered hr0 b640 pu0 walk0 w0 _ _ _ _ H1 H2 H3 H4 H5 H6).
Defined.

Lemma bad_request_answered_witness :
  pending w0 = Some PRead
  /\ Parser.Parse (request_parser_ (hconn w0)) (Parser.fresh_request (is_http (hconn w0)) (remote_ip (hconn w0)))
       Parser.no_host_request = (inl Fsm.bad, bad_out.1.1.2, bad_out.1.2, bad_out.2)
  /\ exists w1, hstep hr0 b640 pu0 walk0 w0 w1
    /\ pending w1 = Some (PWrite (to_buffers walk0 (Rs.stock_reply Rs.bad_request)))
    /\ handled w1 = handled w0 /\ request_parser_ (hconn w1) = bad_out.1.1.2.
Proof.
  assert (pending w0 = Some PRead) as H1 by conc.
  assert (hsock_open w0 = true) as H2 by conc.
  assert (Parser.no_host_request <> []) as H3 by conc.
  assert (Z.of_nat (length Parser.no_host_request) <= max_buffer_length) as H4 by conc.
  assert (Parser.Parse (request_parser_ (hconn w0))
            (Parser.fresh_request (is_http (hconn w0)) (remote_ip (hconn w0))) Parser.no_host_request
          = (inl Fsm.bad, bad_out.1.1.2, bad_out.1.2, bad_out.2)) as H5 by conc.
  split; [exact H1|]. split; [exact H5|].
  exact (bad_request_answered hr0 b640 pu0 walk0 w0 _ _ _ _ H1 H2 H3 H4 H5).
Defined.

Lemma parse_exception_ends_connection_witness :
  pending w0 = Some PRead
  /\ Parser.Parse (request_parser_ (hconn w0)) (Parser.fresh_request (is_http (hconn w0)) (remote_ip (hconn w0)))
       Parser.bad_length_request = (inr invalid_argument, exn_out.1.1.2, exn_out.1.2, exn_out.2)
  /\ exists w1, hstep hr0 b640 pu0 walk0 w0 w1
    /\ raised w1 = Some invalid_argument /\ hwire w1 = hwire w0 /\ pending w1 = None
    /\ (exists w2, hstep hr0 b640 pu0 walk0 w1 w2)
    /\ forall w2, hstep hr0 b640 pu0 walk0 w1 w2 ->
         hsock_open w2 = false /\ hwire w2 = hwire w0
         /\ forall w3, ~ hstep hr0 b640 pu0 walk0 w2 w3.
Proof.
  assert (pending w0 = Some PRead) as H1 by conc.
  assert (hsock_open w0 = true) as H2 by conc.
  assert (created w0 = []) as H2' by conc.
  assert (Parser.bad_length_request <> []) as H3 by conc.
  assert (Z.of_nat (length Parser.bad_length_request) <= max_buffer_length) as H4 by conc.
  assert (Parser.Parse (request_parser_ (hconn w0))
            (Parser.fresh_request (is_http (hconn w0)) (remote_ip (hconn w0))) Parser.bad_length_request
          = (inr invalid_argument, exn_out.1.1.2, exn_out.1.2, exn_out.2)) as H5 by conc.
  split; [exact H1|]. split; [exact H5|].
  exact (parse_exception_ends_connection hr0 b640 pu0 walk0 w0 _ _ _ _ _ H1 H2 H2' H3 H4 H5).
Defined.

(** The connection holding the RFC 6455 handshake request. *)
Definition hs_conn : HTTPConnection := mkHttpConn true ip0 Parser.ws_req Rs.empty_response Fsm.init.
Definition sample_key : bytes := bytes_of_string "dGhlIHNhbXBsZSBub25jZQ==".

Lemma handshake_response_witness :
  response_ hs_conn = Rs.empty_response
  /\ R.headers (request_ hs_conn) !! R.h_sec_websocket_key = Some sample_key
  /\ Rs.headers (response_ (generate_ws_handshake_headers b640 hs_conn)) !! bytes_of_string "Sec-WebSocket-Accept"
     = Some (b640 (sample_key ++ ws_token)).
Proof.
  assert (response_ hs_conn = Rs.empty_response) as H1 by reflexivity.
  assert (R.headers (request_ hs_conn) !! R.h_sec_websocket_key = Some sample_key) as H2 by conc.
  split; [exact H1|]. split; [exact H2|].
  exact (proj1 (proj2 (proj2 (proj2 (handshake_response b640 hs_conn sample_key H1 H2))))).
Defined.

Definition w_hs : HWorld := mkHWorld hs_conn (Some (PHandshakeWrite [])) 1 true [] [] [] None.

Lemma handshake_error_still_upgrades_witness :
  pending w_hs = Some (PHandshakeWrite [])
  /\ exists w1, hstep hr0 b640 pu0 walk0 w_hs w1
    /\ created w1 = [(R.uri_text (R.uri Parser.ws_req), 0, 5)] /\ hwire w1 = [] /\ pending w1 = None.
Proof.
  assert (pending w_hs = Some (PHandshakeWrite [])) as H by reflexivity.
  split; [exact H|]. exact (proj1 (handshake_error_still_upgrades hr0 b640 pu0 walk0 w_hs [] 5 H) 0 eq_refl).
Defined.

Lemma upgrade_registers_session_witness :
  Registry.wf (@Registry.registry0 WsConn.WSConnection)
  /\ Registry.abs (register Registry.registry0 true (bytes_of_string "ws://h/chat") 0 5 0)
     = <[5 := WsConn.make (bytes_of_string "ws://h/chat") 0 5]> (Registry.abs Registry.registry0).
Proof.
  pose proof (@Registry.wf_registry0 WsConn.WSConnection) as H0.
  assert (Registry.fresh_id 5 (@Registry.registry0 WsConn.WSConnection)) as H1 by (intros []; reflexivity).
  assert (Registry.heap (@Registry.registry0 WsConn.WSConnection) !! 0%nat = None) as H2 by reflexivity.
  assert (Registry.unreferenced 0 (@Registry.registry0 WsConn.WSConnection)) as H3
    by (intros [] ?; simpl; by rewrite lookup_empty).
  split; [exact H0|].
  exact (proj2 (upgrade_registers_session _ true _ 0 5 0 H0 H1 H2 H3)).
Defined.

(** A handler that throws before touching the response. *)
Definition hr_throw : HTTPRequestHandler := mkHandler (fun _ rep => (rep, true)).

Lemma handler_exception_logged_witness :
  Parser.Parse (request_parser_ (hconn w0)) (Parser.fresh_request (is_http (hconn w0)) (remote_ip (hconn w0)))
    Fsm.get_request = (inl Fsm.good, get_out.1.1.2, get_out.1.2, get_out.2)
  /\ on_read hr_throw b640 walk0 (hconn w0) WsConn.ec_ok Fsm.get_request
     = (set_exchange (hconn w0) get_out.1.1.2 get_out.1.2 Rs.empty_response,
        [HHandle get_out.1.2; HLogHandlerError; HWrite (to_buffers walk0 Rs.empty_response)]).
Proof.
  assert (Parser.Parse (request_parser_ (hconn w0))
            (Parser.fresh_request (is_http (hconn w0)) (remote_ip (hconn w0))) Fsm.get_request
          = (inl Fsm.good, get_out.1.1.2, get_out.1.2, get_out.2)) as H1 by conc.
  assert (R.isWSHandshake get_out.1.2 = inl false) as H2 by conc.
  assert (HandleRequest hr_throw get_out.1.2 Rs.empty_response = (Rs.empty_response, true)) as H3
    by reflexivity.
  split; [exact H1|]. exact (handler_exception_logged hr_throw b640 walk0 (hconn w0) _ _ _ _ _ H1 H2 H3).
Defined.

End HttpConn.
