(* ===== verification/Server.v ===== *)
(** The server (src/webserver.h, src/webserver.cpp,
    src/webserver_params.h): [WebServerParams], the two acceptors of
    [WebServer] with its constructor, [Start], [Stop] and the accept
    loops [do_accept_http] / [do_accept_https], each a function from the
    object to the new object and its effects in program order.  [sstep]
    composes the whole server: the accept loops, every HTTP connection
    they started (each running [HttpConn.hstep]), the WebSocket upgrade
    that registers a session with [_create_ws_connection], and the
    registry the application pushes to and closes through. *)

From S2P Require Import Prelude Cookie HttpRequest HttpFsm HttpParser Response WsFrame WsConnection WsRuntime Registry HttpConnection.

Module Server.

(** [struct WebServerParams] (the SSL [context] is left out). *)
Record WebServerParams := mkParams {
  local_host : bytes;
  local_http_port : Z;
  local_https_port : Z;
  remote_ip : bytes;
  remote_port : Z
}.

(** Its constructor sets the local end; [remote_ip] is a default
    [IPAddress] (the empty address here) and [remote_port] is left
    uninitialised (0 here): both are written before they are read. *)
Definition make_params (host : bytes) (http_port https_port : Z) : WebServerParams :=
  mkParams host http_port https_port [] 0.

(** [params_.remote_ip = ...; params_.remote_port = ...] *)
Definition set_remote (p : WebServerParams) (ip : bytes) (port : Z) : WebServerParams :=
  mkParams (local_host p) (local_http_port p) (local_https_port p) ip port.

(** [class WebServer]: whether each acceptor is open, and [params_]. *)
Record WebServer := mkServer {
  http_acceptor_open : bool;
  https_acceptor_open : bool;
  params_ : WebServerParams
}.

(** The HTTP acceptor makes [TCPSocket] connections, the HTTPS one
    [SSLSocket] connections: the two transports of the registry. *)
Definition acceptor_open (k : Registry.Transport) (s : WebServer) : bool :=
  match k with Registry.Plain => http_acceptor_open s | Registry.Secure => https_acceptor_open s end.

Definition is_plain (k : Registry.Transport) : bool :=
  match k with Registry.Plain => true | Registry.Secure => false end.

(** What the server's code does, in order. *)
Inductive SEffect :=
| SAccept (k : Registry.Transport)                      (* async_accept on the acceptor of k *)
| SNewConn (k : Registry.Transport) (p : WebServerParams) (* make_shared<HTTPConnection>(.., params_, ..)->Start() *)
| SLogCtorError                                         (* IFLOG(P1, "Error in boost::asio acceptor creation..") *)
| SLogStopError (ec : WsConn.error_code).               (* IFLOG(P2, "Exception happened while closing..") *)

(** The constructor: both acceptors are bound to their local ports; a
    bind that fails throws [system_error], which the function-try-block
    logs and (at the end of the handler) rethrows: no server ([None]). *)
Definition make (p : WebServerParams) (bind_http bind_https : bool) : option WebServer * list SEffect :=
  if bind_http && bind_https then (Some (mkServer true true p), []) else (None, [SLogCtorError]).

(** [do_accept_http] / [do_accept_https]: one [async_accept]. *)
Definition do_accept (k : Registry.Transport) (s : WebServer) : WebServer * list SEffect :=
  (s, [SAccept k]).

(** [WebServer::Start] *)
Definition Start (s : WebServer) : WebServer * list SEffect :=
  let '(s1, e1) := do_accept Registry.Plain s in
  let '(s2, e2) := do_accept Registry.Secure s1 in
  (s2, e1 ++ e2).

(** [acceptor.close(ec)] assigns its outcome to [ec], success included. *)
Definition close_into (ec outcome : WsConn.error_code) : WsConn.error_code := outcome.

(** [WebServer::Stop]: both acceptors closed through one [error_code];
    the test after the second close sees only its outcome. *)
Definition Stop (s : WebServer) (ec_http ec_https : WsConn.error_code) : WebServer * list SEffect :=
  let ec := WsConn.ec_ok in
  let ec := close_into ec ec_http in
  let ec := close_into ec ec_https in
  (mkServer false false (params_ s), if decide (ec = WsConn.ec_ok) then [] else [SLogStopError ec]).

(** The two statements of a successful accept: record the client's
    address in the shared [params_] ... *)
Definition accept_record (s : WebServer) (ip : bytes) (port : Z) : WebServer :=
  mkServer (http_acceptor_open s) (https_acceptor_open s) (set_remote (params_ s) ip port).

(** ... then start a connection on a copy of [params_]. *)
Definition accept_launch (k : Registry.Transport) (s : WebServer) : WebServer * list SEffect :=
  (s, [SNewConn k (params_ s)]).

(** The completion handler of the [async_accept] of [do_accept_http] /
    [do_accept_https]: return at once if the acceptor is closed; on
    success record the client's address in [params_] and start an
    [HTTPConnection] on a copy of [params_]; in both cases accept the
    next connection. *)
Definition on_accept (k : Registry.Transport) (s : WebServer) (ec : WsConn.error_code)
  (ip : bytes) (port : Z) : WebServer * list SEffect :=
  if negb (acceptor_open k s) then (s, [])
  else
    let '(s1, e1) :=
      if decide (ec = WsConn.ec_ok) then accept_launch k (accept_record s ip port)
      else (s, []) in
    let '(s2, e2) := do_accept k s1 in
    (s2, e1 ++ e2).

(** ** The composed server *)

(** The server object, the [async_accept]s outstanding on each
    acceptor, the HTTP connections started (with their transport), the
    registry, and the log. *)
Record SWorld := mkSWorld {
  srv : WebServer;
  accepting_http : nat;
  accepting_https : nat;
  conns : list (Registry.Transport * HttpConn.HWorld);
  reg : Registry.Registry WsConn.WSConnection;
  slog : list SEffect
}.

Definition accepting (k : Registry.Transport) (w : SWorld) : nat :=
  match k with Registry.Plain => accepting_http w | Registry.Secure => accepting_https w end.

(** A started connection: [HTTPConnection(webserver, sock, params_, ..)]
    with its [remote_ip], then [Start()]. *)
Definition new_connection (k : Registry.Transport) (p : WebServerParams) : HttpConn.HWorld :=
  HttpConn.hstart_world (is_plain k) (remote_ip p).

Definition apply_seffect (w : SWorld) (e : SEffect) : SWorld :=
  match e with
  | SAccept Registry.Plain =>
      mkSWorld (srv w) (S (accepting_http w)) (accepting_https w) (conns w) (reg w) (slog w)
  | SAccept Registry.Secure =>
      mkSWorld (srv w) (accepting_http w) (S (accepting_https w)) (conns w) (reg w) (slog w)
  | SNewConn k p =>
      mkSWorld (srv w) (accepting_http w) (accepting_https w) (conns w ++ [(k, new_connection k p)])
        (reg w) (slog w)
  | _ => mkSWorld (srv w) (accepting_http w) (accepting_https w) (conns w) (reg w) (slog w ++ [e])
  end.

Definition srun (w : SWorld) (r : WebServer * list SEffect) : SWorld :=
  fold_left apply_seffect r.2
    (mkSWorld r.1 (accepting_http w) (accepting_https w) (conns w) (reg w) (slog w)).

(** The world once an [async_accept] of [k] completed. *)
Definition accept_completed (k : Registry.Transport) (w : SWorld) : SWorld :=
  match k with
  | Registry.Plain => mkSWorld (srv w) (pred (accepting_http w)) (accepting_https w) (conns w) (reg w) (slog w)
  | Registry.Secure => mkSWorld (srv w) (accepting_http w) (pred (accepting_https w)) (conns w) (reg w) (slog w)
  end.

Definition set_sconns (w : SWorld) (cs : list (Registry.Transport * HttpConn.HWorld)) : SWorld :=
  mkSWorld (srv w) (accepting_http w) (accepting_https w) cs (reg w) (slog w).

Definition set_reg (w : SWorld) (r : Registry.Registry WsConn.WSConnection) : SWorld :=
  mkSWorld (srv w) (accepting_http w) (accepting_https w) (conns w) r (slog w).

(** The server built and started, with an empty registry. *)
Definition sboot (p : WebServerParams) (bind_http bind_https : bool) : option SWorld :=
  match make p bind_http bind_https with
  | (Some s, es) => Some (srun (mkSWorld s 0 0 [] Registry.registry0 es) (Start s))
  | (None, _) => None
  end.

(** The [async_accept]s a list of effects issues on [k], and the
    connections it starts. *)
Fixpoint count_accept (k : Registry.Transport) (es : list SEffect) : nat :=
  match es with
  | [] => 0%nat
  | SAccept k' :: r => ((if decide (k' = k) then 1 else 0) + count_accept k r)%nat
  | _ :: r => count_accept k r
  end.

Fixpoint new_conns (es : list SEffect) : list (Registry.Transport * HttpConn.HWorld) :=
  match es with
  | [] => []
  | SNewConn k p :: r => (k, new_connection k p) :: new_conns r
  | _ :: r => new_conns r
  end.

(** The connections of one transport. *)
Definition count_kind (k : Registry.Transport) (cs : list (Registry.Transport * HttpConn.HWorld)) : nat :=
  length (filter (fun c => c.1 = k) cs).

Section Steps.
Variable bridge_ : HttpConn.HTTPRequestHandler.
Variable base64SHA1 : bytes -> bytes.
Variable pauuid_of : bytes -> option Z.
Variable walk : gmap bytes bytes -> list (bytes * bytes).
Variable onmessageout_set : bool.
#[local] Instance server_endpoint : Registry.Endpoint WsConn.WSConnection :=
  Registry.ws_endpoint onmessageout_set.

Abbreviation hstep := (HttpConn.hstep bridge_ base64SHA1 pauuid_of walk).

(** One event of the server: an accept completes (while the acceptor
    is open it is not aborted; once it is closed any outcome may still
    be delivered, a success included when it completed before the
    close), [Stop] is called, a connection takes a step,
    a connection's handshake write completes and [_create_ws_connection]
    registers the new session (the [uuid_generate] id is fresh and the
    object new), the application calls [WSPush] or [WSClose], a
    WebSocket object runs one of its handlers (which never reopen it),
    or the last [shared_ptr] of one is released. *)
Inductive sstep : SWorld -> SWorld -> Prop :=
| ss_accept w k ec ip port :
    (0 < accepting k w)%nat -> (acceptor_open k (srv w) = true -> ec <> WsConn.operation_aborted) ->
    sstep w (srun (accept_completed k w) (on_accept k (srv w) ec ip port))
| ss_stop w ec1 ec2 : sstep w (srun w (Stop (srv w) ec1 ec2))
| ss_conn w i k hw hw' :
    conns w !! i = Some (k, hw) -> hstep hw hw' -> HttpConn.created hw' = HttpConn.created hw ->
    sstep w (set_sconns w (<[i := (k, hw')]> (conns w)))
| ss_upgrade w i k hw hw' u sid id h :
    conns w !! i = Some (k, hw) -> hstep hw hw' ->
    HttpConn.created hw' = HttpConn.created hw ++ [(u, sid, id)] ->
    Registry.fresh_id id (reg w) -> Registry.heap (reg w) !! h = None -> Registry.unreferenced h (reg w) ->
    sstep w (set_reg (set_sconns w (<[i := (k, hw')]> (conns w)))
               (HttpConn.register (reg w) (is_plain k) u sid id h))
| ss_push w id m : sstep w (set_reg w (Registry.WSPush id m (reg w)).1.2)
| ss_close w id st : sstep w (set_reg w (Registry.WSClose id st (reg w)).1.2)
| ss_ws_handler w h c c' :
    Registry.heap (reg w) !! h = Some c -> (WsConn.closed_ c = true -> WsConn.closed_ c' = true) ->
    sstep w (set_reg w (Registry.set_heap (reg w) (<[h := c']> (Registry.heap (reg w)))))
| ss_release w h c :
    Registry.heap (reg w) !! h = Some c ->
    sstep w (set_reg w (Registry.set_heap (reg w) (delete h (Registry.heap (reg w))))).

Inductive sreachable : SWorld -> Prop :=
| sreach_boot p w : sboot p true true = Some w -> sreachable w
| sreach_step w w' : sreachable w -> sstep w w' -> sreachable w'.

End Steps.

(** ** Lemmas *)

Lemma fold_seffects es w :
  (forall k, accepting k (fold_left apply_seffect es w) = (accepting k w + count_accept k es)%nat)
  /\ srv (fold_left apply_seffect es w) = srv w /\ reg (fold_left apply_seffect es w) = reg w
  /\ conns (fold_left apply_seffect es w) = conns w ++ new_conns es.
Proof.
  revert w. induction es as [|e es IH]; intros w; simpl.
  - split; [intros; lia|]. by rewrite app_nil_r.
  - destruct (IH (apply_seffect w e)) as (Ha & -> & -> & ->).
    split; [intros k; rewrite Ha; destruct e as [[]|k' p| |ec], k; simpl; repeat case_decide;
            try congruence; lia|].
    destruct e as [[]|k' p| |ec]; simpl; repeat split; by rewrite <- ?app_assoc.
Qed.

Lemma srun_fields w r :
  (forall k, accepting k (srun w r) = (accepting k w + count_accept k r.2)%nat)
  /\ srv (srun w r) = r.1 /\ reg (srun w r) = reg w /\ conns (srun w r) = conns w ++ new_conns r.2.
Proof.
  unfold srun. destruct (fold_seffects r.2 (mkSWorld r.1 (accepting_http w) (accepting_https w)
    (conns w) (reg w) (slog w))) as (Ha & -> & -> & ->).
  split; [intros k; rewrite Ha; by destruct k|done].
Qed.

Lemma accepting_completed k k' w :
  accepting k' (accept_completed k w) = if decide (k' = k) then pred (accepting k w) else accepting k' w.
Proof. by destruct k, k'. Qed.

Lemma accepting_set_sconns k w cs : accepting k (set_sconns w cs) = accepting k w.
Proof. by destruct k. Qed.

Lemma accepting_set_reg k w r : accepting k (set_reg w r) = accepting k w.
Proof. by destruct k. Qed.

Lemma on_accept_spec k s ec ip port :
  let r := on_accept k s ec ip port in
  (forall k', acceptor_open k' r.1 = acceptor_open k' s)
  /\ (forall k', count_accept k' r.2 = if acceptor_open k s && bool_decide (k' = k) then 1%nat else 0%nat)
  /\ new_conns r.2 = (if acceptor_open k s && bool_decide (ec = WsConn.ec_ok)
                      then [(k, new_connection k (set_remote (params_ s) ip port))] else [])
  /\ (acceptor_open k s = true -> ec = WsConn.ec_ok -> params_ r.1 = set_remote (params_ s) ip port).
Proof.
  unfold on_accept, do_accept.
  destruct (acceptor_open k s) eqn:Eo; simpl; [|split_and!; intros; done || congruence].
  destruct (decide (ec = WsConn.ec_ok)) as [->|Hne]; simpl;
    (split; [intros []; by destruct k|]); (split; [intros k'; by destruct k, k'|]).
  - done.
  - rewrite bool_decide_eq_false_2 by done. split; [done|]. intros _ ?; congruence.
Qed.

Lemma Stop_spec s ec1 ec2 :
  (forall k, acceptor_open k (Stop s ec1 ec2).1 = false)
  /\ (forall k, count_accept k (Stop s ec1 ec2).2 = 0%nat) /\ new_conns (Stop s ec1 ec2).2 = [].
Proof. unfold Stop, close_into. split; [by intros []|]. case_decide; done. Qed.

Lemma Start_spec s :
  (Start s).1 = s /\ (forall k, count_accept k (Start s).2 = 1%nat) /\ new_conns (Start s).2 = [].
Proof. split; [done|]. split; [by intros []|done]. Qed.

Lemma count_kind_app k cs cs' : count_kind k (cs ++ cs') = (count_kind k cs + count_kind k cs')%nat.
Proof. unfold count_kind. by rewrite filter_app, length_app. Qed.

Lemma count_kind_insert k cs i k' hw hw' :
  cs !! i = Some (k', hw) -> count_kind k (<[i := (k', hw')]> cs) = count_kind k cs.
Proof.
  unfold count_kind. revert i. induction cs as [|c cs IH]; intros [|i] Hi; try discriminate.
  - injection Hi as ->. cbn [insert list_insert]. rewrite !filter_cons. simpl. by repeat case_decide.
  - cbn [insert list_insert]. rewrite !filter_cons. case_decide; simpl; by rewrite IH.
Qed.

(** ** The invariant of the composed server *)

Section Invariant.
Variable bridge_ : HttpConn.HTTPRequestHandler.
Variable base64SHA1 : bytes -> bytes.
Variable pauuid_of : bytes -> option Z.
Variable walk : gmap bytes bytes -> list (bytes * bytes).
Variable onmessageout_set : bool.
#[local] Instance inv_endpoint : Registry.Endpoint WsConn.WSConnection := server_endpoint onmessageout_set.

Abbreviation sstep := (sstep bridge_ base64SHA1 pauuid_of walk onmessageout_set).
Abbreviation sreachable := (sreachable bridge_ base64SHA1 pauuid_of walk onmessageout_set).
Abbreviation hreachable := (HttpConn.hreachable bridge_ base64SHA1 pauuid_of walk).

(** Each acceptor has one accept outstanding while it is open and at
    most one once closed; the registry is reachable; every connection
    started is a reachable HTTP connection. *)
Definition sinv (w : SWorld) : Prop :=
  (forall k, (accepting k w <= 1)%nat /\ (acceptor_open k (srv w) = true -> accepting k w = 1%nat))
  /\ Registry.reachable (reg w)
  /\ (forall i k hw, conns w !! i = Some (k, hw) -> hreachable hw).

Lemma new_conns_reachable es i k hw : new_conns es !! i = Some (k, hw) -> hreachable hw.
Proof.
  revert i. induction es as [|e es IH]; intros i Hi; [discriminate|].
  destruct e as [k0|k0 p| |ec]; simpl in Hi; try by eapply IH.
  destruct i as [|i]; [injection Hi as <- <-; constructor|by eapply IH].
Qed.

Lemma conns_app_reachable (cs : list (Registry.Transport * HttpConn.HWorld)) es :
  (forall i k hw, cs !! i = Some (k, hw) -> hreachable hw) ->
  forall i k hw, (cs ++ new_conns es) !! i = Some (k, hw) -> hreachable hw.
Proof. intros Hc i k hw [Hi|[_ Hi]]%lookup_app_Some; [by eapply Hc|by eapply new_conns_reachable]. Qed.

Lemma conns_insert_reachable (cs : list (Registry.Transport * HttpConn.HWorld)) (i : nat) k hw' :
  (forall j k hw, cs !! j = Some (k, hw) -> hreachable hw) -> hreachable hw' ->
  forall j k0 hw0, <[i := (k, hw')]> cs !! j = Some (k0, hw0) -> hreachable hw0.
Proof.
  intros Hc Hr j k0 hw0 [(_ & [= _ <-] & _)|(_ & Hj)]%list_lookup_insert_Some; [done|by eapply Hc].
Qed.

Lemma register_reachable r http u sid id h :
  Registry.reachable r -> Registry.fresh_id id r -> Registry.heap r !! h = None ->
  Registry.unreferenced h r -> Registry.reachable (HttpConn.register r http u sid id h).
Proof.
  intros Hr Hf Hh Hu. unfold HttpConn.register.
  eapply Registry.reach_step; [eapply Registry.reach_step; [exact Hr|by apply Registry.rs_spawn]|].
  eapply Registry.rs_add; [apply lookup_insert_eq|..]; intros k; rewrite Registry.conns_set_heap; [apply Hf|apply Hu].
Qed.

Lemma sinv_boot p w : sboot p true true = Some w -> sinv w.
Proof.
  unfold sboot; simpl. intros [= <-]. set (s := mkServer true true p).
  destruct (Start_spec s) as (H1 & H2 & H3).
  destruct (srun_fields (mkSWorld s 0 0 [] Registry.registry0 []) (Start s)) as (Ha & Hs & Hr & Hc).
  split_and!.
  - intros k. rewrite Ha, H2, Hs, H1. by destruct k.
  - rewrite Hr. constructor.
  - rewrite Hc, H3. intros i k hw. simpl. by rewrite lookup_nil.
Qed.

Lemma sinv_accept w k ec ip port :
  sinv w -> (0 < accepting k w)%nat -> sinv (srun (accept_completed k w) (on_accept k (srv w) ec ip port)).
Proof.
  intros (Hacc & Hr & Hc) Hpos. unfold sinv. destruct (on_accept_spec k (srv w) ec ip port) as (Ho & Hn & Hnew & _).
  destruct (srun_fields (accept_completed k w) (on_accept k (srv w) ec ip port)) as (Ha & -> & -> & ->).
  split_and!.
  - intros k'. rewrite Ha, Hn, Ho, accepting_completed. specialize (Hacc k').
    destruct (decide (k' = k)) as [->|Hne]; [rewrite bool_decide_eq_true_2 by done|
      rewrite bool_decide_eq_false_2, andb_false_r by done]; destruct (acceptor_open k (srv w)); simpl;
      destruct Hacc as [Ha1 Ha2]; (split; [lia|intros Hk; first [discriminate|specialize (Ha2 Hk); lia|lia]]).
  - by destruct k.
  - destruct k; by apply conns_app_reachable.
Qed.

Lemma sinv_step w w' : sinv w -> sstep w w' -> sinv w'.
Proof.
  intros Hi Hs. destruct Hs as [w k ec ip port Hpos _|w ec1 ec2|w i k hw hw' Hi1 Hs1 _
    |w i k hw hw' u sid id h Hi1 Hs1 _ Hf Hh Hu|w id m|w id st|w h c c' Hh Hcl|w h c Hh];
    [by apply sinv_accept| |..]; destruct Hi as (Hacc & Hr & Hc); unfold sinv.
  - destruct (Stop_spec (srv w) ec1 ec2) as (Ho & Hn & Hnew).
    destruct (srun_fields w (Stop (srv w) ec1 ec2)) as (Ha & -> & -> & ->). split_and!.
    + intros k. rewrite Ha, Hn, Ho, Nat.add_0_r. split; [apply Hacc|done].
    + done.
    + rewrite Hnew, app_nil_r. done.
  - split_and!; [intros k'; rewrite accepting_set_sconns; apply Hacc|done|].
    apply conns_insert_reachable; [done|]. econstructor; [by eapply Hc|done].
  - split_and!; [intros k'; rewrite accepting_set_reg, accepting_set_sconns; apply Hacc| |].
    + by apply register_reachable.
    + apply conns_insert_reachable; [done|]. econstructor; [by eapply Hc|done].
  - split_and!; [intros k'; rewrite accepting_set_reg; apply Hacc| |done].
    eapply Registry.reach_step; [exact Hr|apply Registry.rs_push].
  - split_and!; [intros k'; rewrite accepting_set_reg; apply Hacc| |done].
    eapply Registry.reach_step; [exact Hr|apply Registry.rs_close].
  - split_and!; [intros k'; rewrite accepting_set_reg; apply Hacc| |done].
    eapply Registry.reach_step; [exact Hr|by eapply Registry.rs_handler].
  - split_and!; [intros k'; rewrite accepting_set_reg; apply Hacc| |done].
    eapply Registry.reach_step; [exact Hr|by eapply Registry.rs_release].
Qed.

Lemma sinv_reachable w : sreachable w -> sinv w.
Proof. induction 1 as [p w Hb|w w' _ IH Hs]; [by eapply sinv_boot|by eapply sinv_step]. Qed.

End Invariant.

(** ** Claims *)

Section Claims.
Variable bridge_ : HttpConn.HTTPRequestHandler.
Variable base64SHA1 : bytes -> bytes.
Variable pauuid_of : bytes -> option Z.
Variable walk : gmap bytes bytes -> list (bytes * bytes).
Variable onmessageout_set : bool.
#[local] Instance claims_endpoint : Registry.Endpoint WsConn.WSConnection := server_endpoint onmessageout_set.

Abbreviation sstep := (sstep bridge_ base64SHA1 pauuid_of walk onmessageout_set).
Abbreviation sreachable := (sreachable bridge_ base64SHA1 pauuid_of walk onmessageout_set).

(** C6 (invariant): the accept loops stay armed.  In every state the
    server can reach, each acceptor has at most one [async_accept]
    outstanding, and exactly one while it is open: every completion
    handler of an open acceptor, failed accepts included, issues the
    next accept. *)
Theorem accept_loop_armed w k :
  sreachable w -> (accepting k w <= 1)%nat /\ (acceptor_open k (srv w) = true -> accepting k w = 1%nat).
Proof. intros Hr. apply (sinv_reachable _ _ _ _ _ w Hr). Qed.

(** C4 (invariant): the composed server.  In every state reachable from
    boot, through accepts, [Stop], the steps of all connections, the
    upgrades that register sessions, and the application's pushes and
    closes, the registry is well formed and every HTTP connection the
    server started is half-duplex. *)
Theorem server_invariant w :
  sreachable w ->
  Registry.wf (reg w)
  /\ forall i k hw, conns w !! i = Some (k, hw) ->
       (HttpConn.outstanding hw <= 1)%nat /\ (HttpConn.outstanding hw = 0%nat <-> HttpConn.pending hw = None).
Proof.
  intros Hr. destruct (sinv_reachable _ _ _ _ _ w Hr) as (_ & Hreg & Hc).
  split; [by eapply Registry.registry_reachable_wf|].
  intros i k hw Hi. apply HttpConn.hinv_half_duplex. eapply HttpConn.hinv_reachable, Hc, Hi.
Qed.

(** C10 (safety): a closed acceptor starts nothing.  Once an acceptor is
    closed it stays closed, and no step of the server starts a
    connection of its transport, not even the completion of an accept
    that succeeded before [Stop]: the handler tests [is_open()]
    first. *)
Theorem closed_acceptor_starts_nothing w w' k :
  sstep w w' -> acceptor_open k (srv w) = false ->
  acceptor_open k (srv w') = false /\ count_kind k (conns w') = count_kind k (conns w).
Proof.
  intros Hs Ho. destruct Hs as [w k0 ec ip port _ _|w ec1 ec2|w i k0 hw hw' Hi1 _ _
    |w i k0 hw hw' u sid id h Hi1 _ _ _ _ _|w id m|w id st|w h c c' _ _|w h c _]; try done.
  - destruct (on_accept_spec k0 (srv w) ec ip port) as (Hoa & _ & Hnew & _).
    destruct (srun_fields (accept_completed k0 w) (on_accept k0 (srv w) ec ip port)) as (_ & -> & _ & ->).
    split; [by rewrite Hoa|]. replace (conns (accept_completed k0 w)) with (conns w) by (by destruct k0).
    rewrite count_kind_app, Hnew. destruct (decide (k0 = k)) as [->|Hne]; [rewrite Ho; simpl; unfold count_kind at 2; simpl; lia|].
    destruct (acceptor_open k0 (srv w) && _); [|unfold count_kind at 2; simpl; lia].
    unfold count_kind at 2. rewrite filter_cons_False by done. simpl. lia.
  - destruct (Stop_spec (srv w) ec1 ec2) as (Hos & _ & Hnew).
    destruct (srun_fields w (Stop (srv w) ec1 ec2)) as (_ & -> & _ & ->).
    split; [apply Hos|]. by rewrite Hnew, app_nil_r.
  - split; [done|]. by eapply count_kind_insert.
  - split; [done|]. by eapply count_kind_insert.
Qed.

(** C21 (functional): an accepted client gets a connection.  While an
    acceptor is open, a successful accept starts exactly one HTTP
    connection, on the client's address (recorded in [params_]),
    reading at once over TCP and handshaking first over TLS, and arms
    the next accept; a failed accept starts nothing and arms the next
    accept too. *)
Theorem accept_starts_connection w k ip port :
  acceptor_open k (srv w) = true -> (0 < accepting k w)%nat ->
  (exists w', sstep w w' /\ conns w' = conns w ++ [(k, HttpConn.hstart_world (is_plain k) ip)]
     /\ remote_ip (params_ (srv w')) = ip /\ remote_port (params_ (srv w')) = port
     /\ accepting k w' = accepting k w
     /\ HttpConn.pending (HttpConn.hstart_world (is_plain k) ip)
        = Some (if is_plain k then HttpConn.PRead else HttpConn.PTls))
  /\ (exists w', sstep w w' /\ conns w' = conns w /\ accepting k w' = accepting k w).
Proof.
  intros Ho Hp. split.
  - destruct (on_accept_spec k (srv w) WsConn.ec_ok ip port) as (_ & Hn & Hnew & Hpar).
    destruct (srun_fields (accept_completed k w) (on_accept k (srv w) WsConn.ec_ok ip port))
      as (Ha & Hs & _ & Hc).
    eexists; split; [apply (ss_accept _ _ _ _ _ w k WsConn.ec_ok ip port); [done|by intros _ [=]]|].
    rewrite Hc, Hnew, Ho, Ha, Hn, Ho, accepting_completed, Hs, Hpar by done. simpl.
    rewrite !decide_True, bool_decide_eq_true_2 by done.
    split_and!; [by destruct k|done|done|lia|by destruct k].
  - destruct (on_accept_spec k (srv w) WsConn.io_error ip port) as (_ & Hn & Hnew & _).
    destruct (srun_fields (accept_completed k w) (on_accept k (srv w) WsConn.io_error ip port))
      as (Ha & _ & _ & Hc).
    eexists; split; [apply (ss_accept _ _ _ _ _ w k WsConn.io_error ip port); [done|by intros _ [=]]|].
    rewrite Hc, Hnew, Ho, Ha, Hn, Ho, accepting_completed. simpl.
    rewrite decide_True, bool_decide_eq_true_2 by done. split; [by destruct k; rewrite app_nil_r|lia].
Qed.

(** C27 (error): [Stop] loses the first error.  Both acceptors are closed,
    but the one [error_code] is overwritten by the second [close]: the
    log line appears exactly when closing the HTTPS acceptor failed,
    whatever happened to the HTTP one. *)
Theorem stop_error_lost s ec1 ec2 :
  (Stop s ec1 ec2).1 = mkServer false false (params_ s)
  /\ ((Stop s ec1 ec2).2 = [] <-> ec2 = WsConn.ec_ok).
Proof. unfold Stop, close_into. split; [done|]. simpl. case_decide; split; intros; done || congruence. Qed.

End Claims.

(** ** Concrete runs *)

Definition params0 : WebServerParams := make_params (bytes_of_string "0.0.0.0") 80 443.
Definition s0 : WebServer := mkServer true true params0.

(** The server just started: one accept outstanding on each acceptor. *)
Definition w0 : SWorld := srun (mkSWorld s0 0 0 [] Registry.registry0 []) (Start s0).

(** After [Stop], and after the completion of an accept that succeeded
    before it. *)
Definition w1 : SWorld := srun w0 (Stop (srv w0) WsConn.ec_ok WsConn.ec_ok).
Definition w2 : SWorld :=
  srun (accept_completed Registry.Plain w1) (on_accept Registry.Plain (srv w1) WsConn.ec_ok HttpConn.ip0 5000).

Lemma w0_reachable : sreachable HttpConn.hr0 HttpConn.b640 HttpConn.pu0 HttpConn.walk0 false w0.
Proof. apply (sreach_boot _ _ _ _ _ params0). reflexivity. Qed.

Lemma accept_loop_armed_witness :
  sreachable HttpConn.hr0 HttpConn.b640 HttpConn.pu0 HttpConn.walk0 false w0
  /\ (accepting Registry.Plain w0 <= 1)%nat
  /\ (acceptor_open Registry.Plain (srv w0) = true -> accepting Registry.Plain w0 = 1%nat).
Proof.
  split; [exact w0_reachable|].
  exact (accept_loop_armed _ _ _ _ _ w0 Registry.Plain w0_reachable).
Defined.

Lemma server_invariant_witness :
  sreachable HttpConn.hr0 HttpConn.b640 HttpConn.pu0 HttpConn.walk0 false w0
  /\ Registry.wf (reg w0)
  /\ forall i k hw, conns w0 !! i = Some (k, hw) ->
       (HttpConn.outstanding hw <= 1)%nat /\ (HttpConn.outstanding hw = 0%nat <-> HttpConn.pending hw = None).
Proof. split; [exact w0_reachable|]. exact (server_invariant _ _ _ _ _ w0 w0_reachable). Defined.

Lemma closed_acceptor_starts_nothing_witness :
  sstep HttpConn.hr0 HttpConn.b640 HttpConn.pu0 HttpConn.walk0 false w1 w2
  /\ acceptor_open Registry.Plain (srv w1) = false
  /\ acceptor_open Registry.Plain (srv w2) = false
  /\ count_kind Registry.Plain (conns w2) = count_kind Registry.Plain (conns w1).
Proof.
  assert (sstep HttpConn.hr0 HttpConn.b640 HttpConn.pu0 HttpConn.walk0 false w1 w2) as Hs.
  { apply ss_accept; [vm_compute; lia|intros H; discriminate H]. }
  assert (acceptor_open Registry.Plain (srv w1) = false) as Ho by reflexivity.
  split; [exact Hs|]. split; [exact Ho|].
  exact (closed_acceptor_starts_nothing _ _ _ _ _ w1 w2 Registry.Plain Hs Ho).
Defined.

Lemma accept_starts_connection_witness :
  acceptor_open Registry.Plain (srv w0) = true /\ (0 < accepting Registry.Plain w0)%nat
  /\ (exists w', sstep HttpConn.hr0 HttpConn.b640 HttpConn.pu0 HttpConn.walk0 false w0 w'
        /\ conns w' = conns w0 ++ [(Registry.Plain, HttpConn.hstart_world true HttpConn.ip0)]
        /\ remote_ip (params_ (srv w')) = HttpConn.ip0 /\ remote_port (params_ (srv w')) = 5000
        /\ accepting Registry.Plain w' = accepting Registry.Plain w0
        /\ HttpConn.pending (HttpConn.hstart_world true HttpConn.ip0) = Some HttpConn.PRead)
  /\ (exists w', sstep HttpConn.hr0 HttpConn.b640 HttpConn.pu0 HttpConn.walk0 false w0 w'
        /\ conns w' = conns w0 /\ accepting Registry.Plain w' = accepting Registry.Plain w0).
Proof.
  assert (acceptor_open Registry.Plain (srv w0) = true) as Ho by reflexivity.
  assert (0 < accepting Registry.Plain w0)%nat as Hp by (vm_compute; lia).
  split; [exact Ho|]. split; [exact Hp|].
  exact (accept_starts_connection _ _ _ _ _ w0 Registry.Plain HttpConn.ip0 5000 Ho Hp).
Defined.

End Server.
